(** * A3C training loop of ai2thor-experiments: shallow embedding

    The development embeds [algorithms/a3c/train.py] (the per-process
    training loop [train], [save_checkpoint] and [ensure_shared_grads]) and
    the shared objects created in [algorithms/a3c/main.py].

    Conventions.
    - Python integers are [Z]; [//] and [%] are floor division and modulo
      and raise [ZeroDivisionError] on a zero divisor.
    - The shared counter is [mp.Value('i', 0)], a C [int]: it is a 32-bit
      signed integer and a store to it wraps around.
    - Real-valued quantities (rewards, value estimates, log-probabilities,
      entropies, losses) are exact rationals [Q]; rounding of the
      floating-point tensors is not modelled.
    - [-np.inf] is the extra point [NegInf] of [ext].
    - An exception is the [Raise] branch of [result]. *)

From Stdlib Require Import ZArith QArith Qfield List Bool Lia Lqa Arith Sorted.
From Stdlib Require String.
Import ListNotations.
Import String.StringSyntax.

Local Open Scope Z_scope.

(** ** Exceptions *)

Inductive py_error : Type :=
| ZeroDivisionError
| IndexError
| AttributeError.

Inductive result (A : Type) : Type :=
| Ok (a : A)
| Raise (e : py_error).

Arguments Ok {A} a.
Arguments Raise {A} e.

Definition bind {A B : Type} (m : result A) (k : A -> result B) : result B :=
  match m with
  | Ok a => k a
  | Raise e => Raise e
  end.

Notation "x <- m ;; k" := (bind m (fun x => k))
  (at level 61, m at next level, right associativity).

(** ** Python integer operations *)

(** [a // b] on Python ints: floor division, an exception when [b] is 0. *)
Definition floordiv (a b : Z) : result Z :=
  if b =? 0 then Raise ZeroDivisionError else Ok (a / b).

(** [a % b] on Python ints: the remainder has the sign of [b]. *)
Definition pymod (a b : Z) : result Z :=
  if b =? 0 then Raise ZeroDivisionError else Ok (a mod b).

(** A store to a C [int] ([ctypes.c_int], type code ['i']) keeps the low
    32 bits, read back as a signed number. *)
Definition INT_MAX : Z := 2147483647.
Definition INT_MIN : Z := -2147483648.

Definition wrap32 (n : Z) : Z := (n + 2 ^ 31) mod 2 ^ 32 - 2 ^ 31.

Arguments wrap32 n : simpl never.

(** [l[i]] for a non-negative index. *)
Definition index {A : Type} (l : list A) (i : nat) : result A :=
  match nth_error l i with
  | Some x => Ok x
  | None => Raise IndexError
  end.

(** [for i in idxs: s = body(i, s)], stopping at the first exception. *)
Fixpoint for_each {S : Type} (idxs : list nat) (body : nat -> S -> result S)
  (s : S) : result S :=
  match idxs with
  | [] => Ok s
  | i :: rest => s' <- body i s ;; for_each rest body s'
  end.

(** [reversed(range(n))] *)
Definition reversed_range (n : nat) : list nat := rev (seq 0 n).

(** ** Extended reals: [-np.inf] and finite numbers *)

Inductive ext : Type :=
| NegInf
| Fin (q : Q).

Definition Qlt_bool (a b : Q) : bool := negb (Qle_bool b a).

(** [a > b] *)
Definition ext_gt (a b : ext) : bool :=
  match a, b with
  | NegInf, _ => false
  | Fin _, NegInf => true
  | Fin x, Fin y => Qlt_bool y x
  end.

(** [sum(l)]: Python adds from the left, starting at 0. *)
Definition sum (l : list Q) : Q := fold_left Qplus l 0%Q.

(** [l[-n:]] for [n > 0]: the last [n] elements, the whole list when it is
    shorter. *)
Definition last_n {A : Type} (n : nat) (l : list A) : list A :=
  skipn (length l - n) l.

(** ** Hyper-parameters ([args]) *)

Record args : Type := {
  num_steps : Z;
  max_episode_length : Z;
  checkpoint_freq : Z;
  num_processes : Z;
  gamma : Q;
  tau : Q;
  entropy_coef : Q;
  value_loss_coef : Q;
  max_grad_norm : Q;
  args_total_length : Z;
  args_episode_number : Z
}.

(** ** The loss computation (train.py, lines 209-223) *)

Module Gae.

Local Open Scope Q_scope.

(** The variables the backward loop updates. *)
Record acc : Type := {
  R : Q;
  value_loss : Q;
  gae : Q;
  policy_loss : Q
}.

Section Loss.

Variable a : args.

(** [policy_loss = 0], [value_loss = 0], [gae = torch.zeros(1, 1)] and the
    bootstrap value [R]. *)
Definition init (R0 : Q) : acc :=
  {| R := R0; value_loss := 0; gae := 0; policy_loss := 0 |}.

(** One iteration of the loop body at index [i].  [values] already holds
    the appended bootstrap value. *)
Definition loss_body (values log_probs rewards entropies : list Q)
  (i : nat) (s : acc) : result acc :=
  r_i <- index rewards i ;;
  let R' := gamma a * R s + r_i in
  v_i <- index values i ;;
  let advantage := R' - v_i in
  let value_loss' := value_loss s + (1 # 2) * advantage ^ 2 in
  r_i' <- index rewards i ;;
  v_next <- index values (i + 1) ;;
  v_i' <- index values i ;;
  let delta_t := r_i' + gamma a * v_next - v_i' in
  let gae' := gae s * gamma a * tau a + delta_t in
  lp_i <- index log_probs i ;;
  e_i <- index entropies i ;;
  let policy_loss' := policy_loss s - lp_i * gae' - entropy_coef a * e_i in
  Ok {| R := R'; value_loss := value_loss'; gae := gae';
        policy_loss := policy_loss' |}.

(** [values.append(R)] followed by the loop over
    [reversed(range(len(rewards)))]. *)
Definition compute_losses (values log_probs rewards entropies : list Q)
  (R0 : Q) : result acc :=
  let values := values ++ [R0] in
  for_each (reversed_range (length rewards))
           (loss_body values log_probs rewards entropies) (init R0).

(** The same computation by recursion on the trajectory, the order of the
    operations kept: the result for the steps [t, t+1, ...] is obtained
    from the result for [t+1, ...].  [v_boot] is the appended value. *)
Definition next_value (vs : list Q) (v_boot : Q) : Q :=
  match vs with
  | [] => v_boot
  | v :: _ => v
  end.

Fixpoint backward (vs lps rs es : list Q) (v_boot : Q) : acc :=
  match vs, lps, rs, es with
  | v :: vs', lp :: lps', r :: rs', e :: es' =>
      let s := backward vs' lps' rs' es' v_boot in
      let R' := gamma a * R s + r in
      let gae' := gae s * gamma a * tau a
                  + (r + gamma a * next_value vs' v_boot - v) in
      {| R := R';
         value_loss := value_loss s + (1 # 2) * (R' - v) ^ 2;
         gae := gae';
         policy_loss := policy_loss s - lp * gae' - entropy_coef a * e |}
  | _, _, _, _ => init v_boot
  end.

(** *** The recursion as the specification words it

    For a trajectory of length [T] with bootstrap value [R_T]:
    [R_t = gamma R_{t+1} + r_t], [delta_t = r_t + gamma V_{t+1} - V_t],
    [gae_t = gamma tau gae_{t+1} + delta_t] with [gae_T = 0];
    the policy loss adds [- log_prob_t gae_t - entropy_coef H_t] and the
    value loss adds [0.5 (R_t - V_t)^2] for every [t], starting from 0. *)
Fixpoint spec_return (rs : list Q) (R_T : Q) : Q :=
  match rs with
  | [] => R_T
  | r :: rs' => gamma a * spec_return rs' R_T + r
  end.

Fixpoint spec_gae (vs rs : list Q) (R_T : Q) : Q :=
  match vs, rs with
  | v :: vs', r :: rs' =>
      gamma a * tau a * spec_gae vs' rs' R_T
      + (r + gamma a * next_value vs' R_T - v)
  | _, _ => 0
  end.

Fixpoint spec_value_loss (vs rs : list Q) (R_T : Q) : Q :=
  match vs, rs with
  | v :: vs', r :: rs' =>
      spec_value_loss vs' rs' R_T
      + (1 # 2) * ((spec_return (r :: rs') R_T - v)
                   * (spec_return (r :: rs') R_T - v))
  | _, _ => 0
  end.

Fixpoint spec_policy_loss (vs lps rs es : list Q) (R_T : Q) : Q :=
  match vs, lps, rs, es with
  | v :: vs', lp :: lps', r :: rs', e :: es' =>
      spec_policy_loss vs' lps' rs' es' R_T
      + (- lp * spec_gae (v :: vs') (r :: rs') R_T - entropy_coef a * e)
  | _, _, _, _ => 0
  end.

End Loss.

End Gae.

(** ** What [train] takes from outside

    The simulator, the network, the sampler, autograd and the optimizer are
    not code of the training loop.  They are the fields of [externals];
    [world] carries the simulator's state together with the state of the
    random generator that [multinomial] draws from. *)

Record externals : Type := {
  world : Type;
  observation : Type;
  image : Type;
  instruction : Type;
  hidden : Type;
  logits : Type;
  params : Type;
  opt_state : Type;
  (** [grad] is a reference to a gradient tensor and [store] the memory
      the tensors live in: assigning a [grad] shares the tensor *)
  grad : Type;
  store : Type;
  (** [env.reset()] and [env.step(action)] *)
  env_reset : world -> world * observation;
  env_step : world -> Z -> world * (observation * Q * bool);
  (** [unpack_state(state, env)] *)
  unpack_state : observation -> image * instruction;
  (** [env.task.task_has_language_instructions] *)
  task_has_language_instructions : bool;
  (** [ActorCritic] and [A3C_LSTM_GA] forward passes *)
  model_plain : params -> image -> hidden * hidden -> Q * logits * (hidden * hidden);
  model_lang : params -> image -> instruction -> Z * hidden * hidden ->
               Q * logits * (hidden * hidden);
  (** [torch.zeros(1, 256)] *)
  zeros_hidden : hidden;
  (** [-(log_softmax * softmax).sum(1)], [softmax.multinomial(1)] and
      [log_softmax.gather(1, action)] *)
  entropy_of : logits -> Q;
  multinomial : world -> logits -> world * Z;
  log_prob_of : logits -> Z -> Q;
  (** [optimizer.zero_grad()], [loss.backward()], [clip_grad_norm_] and
      [optimizer.step()] *)
  zero_grad : store -> list (option grad) -> store * list (option grad);
  backprop : store -> params -> Q -> list (option grad) ->
             store * list (option grad);
  clip_grad_norm : store -> Q -> list (option grad) -> store;
  optimizer_step : store -> opt_state -> params -> list (option grad) ->
                   params * opt_state
}.

(** ** [ensure_shared_grads] (train.py, lines 41-46)

    A parameter's [grad] is [None] or a gradient.  The loop walks the two
    parameter lists in step ([zip] stops at the shorter one) and returns at
    the first shared parameter whose gradient is set. *)
Fixpoint ensure_shared_grads {G : Type} (model_grads shared_grads : list (option G))
  : list (option G) :=
  match model_grads, shared_grads with
  | g :: model_rest, s :: shared_rest =>
      match s with
      | Some _ => shared_grads
      | None => g :: ensure_shared_grads model_rest shared_rest
      end
  | _, _ => shared_grads
  end.

(** The number of leading shared parameters that [ensure_shared_grads]
    writes: those before the first one whose gradient is set, as far as
    both lists go. *)
Fixpoint written_prefix {G : Type} (model_grads shared_grads : list (option G)) : nat :=
  match model_grads, shared_grads with
  | _ :: model_rest, None :: shared_rest => S (written_prefix model_rest shared_rest)
  | _, _ => 0%nat
  end.

(** ** The state of one training process *)

(** The dictionary that [save_checkpoint] serialises. *)
Record checkpoint (E : externals) : Type := {
  ck_total_length : Z;
  ck_episode_number : Z;
  ck_counter : Z;
  ck_state_dict : params E;
  ck_optimizer : opt_state E
}.

Arguments ck_total_length {E} c.
Arguments ck_episode_number {E} c.
Arguments ck_counter {E} c.
Arguments ck_state_dict {E} c.
Arguments ck_optimizer {E} c.

Inductive scalar_tag : Type :=
| tag_avg_episode_returns
| tag_episode_lengths
| tag_episode_total_rewards
| tag_policy_loss
| tag_value_loss.

(** What the process does to the outside, in the order it does it.
    A checkpoint file is named after the [total_length] it is written at. *)
Inductive event (E : externals) : Type :=
| TorchSave (total_length : Z) (c : checkpoint E)
| CopyToModelBest (total_length : Z)
| EnvStep (action : Z)
| CounterIncrement
| EnvReset
| AddScalar (tag : scalar_tag) (value : Q) (step : Z)
| AddImage (step : Z)
| ZeroGrad
| Backward (loss : Q)
| ClipGradNorm
| EnsureSharedGrads
| OptimizerStep.

Arguments TorchSave {E} total_length c.
Arguments CopyToModelBest {E} total_length.
Arguments EnvStep {E} action.
Arguments CounterIncrement {E}.
Arguments EnvReset {E}.
Arguments AddScalar {E} tag value step.
Arguments AddImage {E} step.
Arguments ZeroGrad {E}.
Arguments Backward {E} loss.
Arguments ClipGradNorm {E}.
Arguments EnsureSharedGrads {E}.
Arguments OptimizerStep {E}.

(** The monitoring variables. *)
Record monitor : Type := {
  avg_episode_return : ext;
  best_avg_episode_return : ext;
  avg_episode_returns : list Q;
  episode_total_rewards_list : list Q;
  all_rewards_in_episode : list Q
}.

(** The rollout buffers. *)
Record buffers : Type := {
  values : list Q;
  log_probs : list Q;
  rewards : list Q;
  entropies : list Q
}.

Definition empty_buffers : buffers :=
  {| values := []; log_probs := []; rewards := []; entropies := [] |}.

(** What the agent sees and remembers. *)
Record agent (E : externals) : Type := {
  env : world E;
  image_state : image E;
  instruction_indices : instruction E;
  done : bool;
  hx : hidden E;
  cx : hidden E;
  tx : Z
}.

Arguments env {E} a.
Arguments image_state {E} a.
Arguments instruction_indices {E} a.
Arguments done {E} a.
Arguments hx {E} a.
Arguments cx {E} a.
Arguments tx {E} a.

Record progress : Type := {
  total_length : Z;
  episode_number : Z;
  episode_length : Z;
  num_backprops : Z
}.

(** The local model, the shared model and the optimizer. *)
Record learner (E : externals) : Type := {
  model_params : params E;
  model_grads : list (option (grad E));
  shared_params : params E;
  shared_grads : list (option (grad E));
  optimizer : opt_state E;
  tensors : store E;
  p_losses : list Q;
  v_losses : list Q
}.

Arguments model_params {E} l.
Arguments model_grads {E} l.
Arguments shared_params {E} l.
Arguments shared_grads {E} l.
Arguments optimizer {E} l.
Arguments tensors {E} l.
Arguments p_losses {E} l.
Arguments v_losses {E} l.

Record state (E : externals) : Type := {
  ag : agent E;
  prog : progress;
  mon : monitor;
  buf : buffers;
  lrn : learner E;
  counter : Z;
  trace : list (event E)
}.

Arguments ag {E} s.
Arguments prog {E} s.
Arguments mon {E} s.
Arguments buf {E} s.
Arguments lrn {E} s.
Arguments counter {E} s.
Arguments trace {E} s.

(** ** The training loop (train.py, lines 48-259) *)

Section Train.

Variable E : externals.
Variable rank : Z.
Variable a : args.

(** *** Checkpoints (lines 115-128 and [save_checkpoint]) *)

(** [rank == 0 and total_length > 0 and
     total_length % (args.checkpoint_freq // args.num_processes) == 0],
    evaluated from the left: the division is reached only when the first
    two tests hold. *)
Definition checkpoint_due (tl : Z) : result bool :=
  if rank =? 0 then
    if tl >? 0 then
      d <- floordiv (checkpoint_freq a) (num_processes a) ;;
      m <- pymod tl d ;;
      Ok (m =? 0)
    else Ok false
  else Ok false.

Definition checkpoint_dict (s : state E) : checkpoint E :=
  {| ck_total_length := total_length (prog s);
     ck_episode_number := episode_number (prog s);
     ck_counter := counter s;
     ck_state_dict := model_params (lrn s);
     ck_optimizer := optimizer (lrn s) |}.

(** [save_checkpoint(save_object, checkpoint_path, filename, is_best)] *)
Definition save_checkpoint (save_object : checkpoint E) (tl : Z)
  (is_best : bool) : list (event E) :=
  TorchSave tl save_object :: (if is_best then [CopyToModelBest tl] else []).

Definition best_so_far (m : monitor) : bool :=
  ext_gt (avg_episode_return m) (best_avg_episode_return m).

Definition log_events (s : state E) (evs : list (event E)) : state E :=
  {| ag := ag s; prog := prog s; mon := mon s; buf := buf s; lrn := lrn s;
     counter := counter s; trace := trace s ++ evs |}.

Definition maybe_checkpoint (s : state E) : result (state E) :=
  due <- checkpoint_due (total_length (prog s)) ;;
  if due then
    Ok (log_events s (save_checkpoint (checkpoint_dict s)
                        (total_length (prog s)) (best_so_far (mon s))))
  else Ok s.

(** *** One interaction (lines 130-148) *)

Record outcome : Type := {
  o_tx : Z;
  o_value : Q;
  o_hx : hidden E;
  o_cx : hidden E;
  o_entropy : Q;
  o_action : Z;
  o_log_prob : Q;
  o_env : world E;
  o_state : observation E;
  o_reward : Q;
  o_done : bool
}.

Definition interact (s : state E) : outcome :=
  let g := ag s in
  let tx' := if task_has_language_instructions E
             then episode_length (prog s) else tx g in
  let '(value, logit, (hx', cx')) :=
    if negb (task_has_language_instructions E)
    then model_plain E (model_params (lrn s)) (image_state g) (hx g, cx g)
    else model_lang E (model_params (lrn s)) (image_state g)
           (instruction_indices g) (tx', hx g, cx g) in
  let '(w1, action) := multinomial E (env g) logit in
  let '(w2, (st, reward, env_done)) := env_step E w1 action in
  {| o_tx := tx'; o_value := value; o_hx := hx'; o_cx := cx';
     o_entropy := entropy_of E logit; o_action := action;
     o_log_prob := log_prob_of E logit action;
     o_env := w2; o_state := st; o_reward := reward; o_done := env_done |}.

(** *** Monitoring at the end of an episode (lines 158-165) *)

Definition avg_over_num_episodes : nat := 10.

Definition mean (l : list Q) : Q :=
  (sum l / inject_Z (Z.of_nat (length l)))%Q.

Definition episode_over (m : monitor) : monitor :=
  let total_reward_for_episode := sum (all_rewards_in_episode m) in
  let totals := episode_total_rewards_list m ++ [total_reward_for_episode] in
  if (avg_over_num_episodes <? length totals)%nat then
    let avg := mean (last_n avg_over_num_episodes totals) in
    {| avg_episode_return := Fin avg;
       best_avg_episode_return := best_avg_episode_return m;
       avg_episode_returns := avg_episode_returns m ++ [avg];
       episode_total_rewards_list := totals;
       all_rewards_in_episode := [] |}
  else
    {| avg_episode_return := avg_episode_return m;
       best_avg_episode_return := best_avg_episode_return m;
       avg_episode_returns := avg_episode_returns m;
       episode_total_rewards_list := totals;
       all_rewards_in_episode := [] |}.

(** The total that is printed and logged for the episode. *)
Definition total_reward_for_episode (m : monitor) : Q :=
  sum (all_rewards_in_episode m).

(** The calls to [writer] when an episode is over. *)
Definition episode_events (m : monitor) (episode_length' episode_number' : Z)
  : list (event E) :=
  let totals := episode_total_rewards_list m ++ [total_reward_for_episode m] in
  (if (avg_over_num_episodes <? length totals)%nat
   then [AddScalar tag_avg_episode_returns
           (mean (last_n avg_over_num_episodes totals)) episode_number']
   else [])
  ++ (if rank =? 0
      then [AddScalar tag_episode_lengths (inject_Z episode_length') episode_number';
            AddScalar tag_episode_total_rewards (total_reward_for_episode m)
              episode_number';
            AddImage episode_number']
      else []).

(** [all_rewards_in_episode.append(reward)] *)
Definition append_reward (m : monitor) (reward : Q) : monitor :=
  {| avg_episode_return := avg_episode_return m;
     best_avg_episode_return := best_avg_episode_return m;
     avg_episode_returns := avg_episode_returns m;
     episode_total_rewards_list := episode_total_rewards_list m;
     all_rewards_in_episode := all_rewards_in_episode m ++ [reward] |}.

(** Lines 140 and 186-188. *)
Definition append_step (b : buffers) (o : outcome) : buffers :=
  {| values := values b ++ [o_value o];
     log_probs := log_probs b ++ [o_log_prob o];
     rewards := rewards b ++ [o_reward o];
     entropies := entropies b ++ [o_entropy o] |}.

(** [done = done or episode_length >= args.max_episode_length], with the
    episode length already incremented (lines 149-151). *)
Definition done_after (s : state E) : bool :=
  o_done (interact s) || (max_episode_length a <=? episode_length (prog s) + 1).

(** *** The body of the rollout loop, after the checkpoint test
    (lines 130-189) *)
Definition env_interaction (s : state E) : state E :=
  let o := interact s in
  let '(image_state', instruction_indices') := unpack_state E (o_state o) in
  let episode_length' := episode_length (prog s) + 1 in
  let total_length' := total_length (prog s) + 1 in
  let done' := done_after s in
  let counter' := wrap32 (counter s + 1) in
  let stepped := [EnvStep (o_action o); CounterIncrement] in
  if done' then
    let '(w3, st0) := env_reset E (o_env o) in
    let '(image_state0, instruction_indices0) := unpack_state E st0 in
    {| ag := {| env := w3; image_state := image_state0;
                instruction_indices := instruction_indices0; done := true;
                hx := o_hx o; cx := o_cx o; tx := o_tx o |};
       prog := {| total_length := total_length';
                  episode_number := episode_number (prog s) + 1;
                  episode_length := 0;
                  num_backprops := num_backprops (prog s) |};
       mon := append_reward (episode_over (mon s)) (o_reward o);
       buf := append_step (buf s) o;
       lrn := lrn s;
       counter := counter';
       trace := trace s ++ stepped
                ++ episode_events (mon s) episode_length' (episode_number (prog s))
                ++ [EnvReset] |}
  else
    {| ag := {| env := o_env o; image_state := image_state';
                instruction_indices := instruction_indices'; done := false;
                hx := o_hx o; cx := o_cx o; tx := o_tx o |};
       prog := {| total_length := total_length';
                  episode_number := episode_number (prog s);
                  episode_length := episode_length';
                  num_backprops := num_backprops (prog s) |};
       mon := append_reward (mon s) (o_reward o);
       buf := append_step (buf s) o;
       lrn := lrn s;
       counter := counter';
       trace := trace s ++ stepped |}.

Definition rollout_step (s : state E) : result (state E) :=
  s1 <- maybe_checkpoint s ;;
  Ok (env_interaction s1).

(** [for step in range(args.num_steps): ...; if done: break] *)
Fixpoint rollout_loop (n : nat) (s : state E) : result (state E) :=
  match n with
  | O => Ok s
  | S k =>
      s' <- rollout_step s ;;
      if done (ag s') then Ok s' else rollout_loop k s'
  end.

Definition rollout (s : state E) : result (state E) :=
  rollout_loop (Z.to_nat (num_steps a)) s.

(** *** Start of an iteration of [while True] (lines 98-110)

    The local model takes the shared weights, the recurrent state is
    zeroed after the end of an episode ([detach] keeps its value
    otherwise) and the four buffers are rebound to empty lists. *)
Definition begin_iteration (s : state E) : state E :=
  let g := ag s in
  let l := lrn s in
  {| ag := {| env := env g; image_state := image_state g;
              instruction_indices := instruction_indices g; done := done g;
              hx := if done g then zeros_hidden E else hx g;
              cx := if done g then zeros_hidden E else cx g;
              tx := tx g |};
     prog := prog s;
     mon := mon s;
     buf := empty_buffers;
     lrn := {| model_params := shared_params l; model_grads := model_grads l;
               shared_params := shared_params l; shared_grads := shared_grads l;
               optimizer := optimizer l; tensors := tensors l;
               p_losses := p_losses l; v_losses := v_losses l |};
     counter := counter s;
     trace := trace s |}.

(** *** The bootstrap value (lines 196-206) *)
Definition critic (s : state E) : Q :=
  let g := ag s in
  if negb (task_has_language_instructions E)
  then fst (fst (model_plain E (model_params (lrn s)) (image_state g) (hx g, cx g)))
  else fst (fst (model_lang E (model_params (lrn s)) (image_state g)
                   (instruction_indices g) (tx g, hx g, cx g))).

Definition bootstrap_value (s : state E) : Q :=
  if negb (done (ag s)) then critic s else 0%Q.

(** *** Losses, backpropagation and the optimizer step (lines 209-248) *)

(** [p_losses.append(...)], [v_losses.append(...)] and the reset of both
    once more than 1000 are held. *)
Definition record_losses (ps vs : list Q) (p v : Q) : list Q * list Q :=
  let ps' := ps ++ [p] in
  let vs' := vs ++ [v] in
  if (1000 <? length ps')%nat then ([], []) else (ps', vs').

(** Lines 209-225: the bootstrap value is appended to the values, the
    losses are accumulated by the backward loop, and
    [optimizer.zero_grad()] is called. *)
Definition zero_gradients (s : state E) : result (state E * Gae.acc) :=
  let b := buf s in
  let l := lrn s in
  let R0 := bootstrap_value s in
  losses <- Gae.compute_losses a (values b) (log_probs b) (rewards b)
              (entropies b) R0 ;;
  let '(t1, shared1) := zero_grad E (tensors l) (shared_grads l) in
  Ok ({| ag := ag s;
         prog := prog s;
         mon := mon s;
         buf := {| values := values b ++ [R0]; log_probs := log_probs b;
                   rewards := rewards b; entropies := entropies b |};
         lrn := {| model_params := model_params l;
                   model_grads := model_grads l;
                   shared_params := shared_params l; shared_grads := shared1;
                   optimizer := optimizer l; tensors := t1;
                   p_losses := p_losses l; v_losses := v_losses l |};
         counter := counter s;
         trace := trace s ++ [ZeroGrad] |},
      losses).

(** Lines 227-248: the backward pass, the clipping, the sharing of the
    gradients, the optimizer step and the logging.  With no reward
    collected both losses are still the integer 0 and their weighted sum
    is a float, which has no [backward]: the call raises, the gradients
    having been zeroed. *)
Definition backward_and_step (s : state E) (losses : Gae.acc)
  : result (state E) :=
  let b := buf s in
  let l := lrn s in
  match rewards b with
  | [] => Raise AttributeError
  | _ :: _ =>
      let loss := (Gae.policy_loss losses
                   + value_loss_coef a * Gae.value_loss losses)%Q in
      let '(t2, model2) :=
        backprop E (tensors l) (model_params l) loss (model_grads l) in
      let t3 := clip_grad_norm E t2 (max_grad_norm a) model2 in
      let shared3 := ensure_shared_grads model2 (shared_grads l) in
      let '(shared_params', optimizer') :=
        optimizer_step E t3 (optimizer l) (shared_params l) shared3 in
      let num_backprops' := num_backprops (prog s) + 1 in
      let '(ps, vs) := record_losses (p_losses l) (v_losses l)
                         (Gae.policy_loss losses) (Gae.value_loss losses) in
      Ok {| ag := ag s;
            prog := {| total_length := total_length (prog s);
                       episode_number := episode_number (prog s);
                       episode_length := episode_length (prog s);
                       num_backprops := num_backprops' |};
            mon := mon s;
            buf := b;
            lrn := {| model_params := model_params l; model_grads := model2;
                      shared_params := shared_params'; shared_grads := shared3;
                      optimizer := optimizer'; tensors := t3;
                      p_losses := ps; v_losses := vs |};
            counter := counter s;
            trace := trace s
                     ++ [Backward loss; ClipGradNorm;
                         EnsureSharedGrads; OptimizerStep;
                         AddScalar tag_policy_loss (Gae.policy_loss losses)
                           num_backprops';
                         AddScalar tag_value_loss (Gae.value_loss losses)
                           num_backprops'] |}
  end.

Definition update (s : state E) : result (state E) :=
  p <- zero_gradients s ;;
  backward_and_step (fst p) (snd p).

(** One pass through the body of [while True]. *)
Definition train_iteration (s : state E) : result (state E) :=
  s1 <- rollout (begin_iteration s) ;;
  update s1.

(** [n] passes. *)
Fixpoint train_loop (n : nat) (s : state E) : result (state E) :=
  match n with
  | O => Ok s
  | S k => s' <- train_iteration s ;; train_loop k s'
  end.

(** *** Initialisation (lines 73-96)

    [shared] and [opt] are the shared model's weights and the optimizer's
    state, [grads0] the empty gradient slots of the local and of the shared
    model; [hx] and [cx] are bound by the first iteration, [done] being
    true. *)
Definition init_state (w : world E) (shared : params E) (opt : opt_state E)
  (t : store E) (model_grads0 shared_grads0 : list (option (grad E)))
  (counter0 : Z) : state E :=
  let '(w1, st) := env_reset E w in
  let '(image_state0, instruction_indices0) := unpack_state E st in
  {| ag := {| env := w1; image_state := image_state0;
              instruction_indices := instruction_indices0; done := true;
              hx := zeros_hidden E; cx := zeros_hidden E; tx := 0 |};
     prog := {| total_length := args_total_length a;
                episode_number := args_episode_number a;
                episode_length := 0;
                num_backprops := 0 |};
     mon := {| avg_episode_return := NegInf;
               best_avg_episode_return := NegInf;
               avg_episode_returns := [];
               episode_total_rewards_list := [];
               all_rewards_in_episode := [] |};
     buf := empty_buffers;
     lrn := {| model_params := shared; model_grads := model_grads0;
               shared_params := shared; shared_grads := shared_grads0;
               optimizer := opt; tensors := t;
               p_losses := []; v_losses := [] |};
     counter := counter0;
     trace := [] |}.

End Train.

Arguments checkpoint_due rank a tl : assert.
Arguments checkpoint_dict {E} s.
Arguments save_checkpoint {E} save_object tl is_best.
Arguments log_events {E} s evs.
Arguments maybe_checkpoint {E} rank a s.
Arguments interact {E} s.
Arguments episode_events {E} rank m episode_length' episode_number'.
Arguments append_step {E} b o.
Arguments done_after {E} a s.
Arguments env_interaction {E} rank a s.
Arguments rollout_step {E} rank a s.
Arguments rollout_loop {E} rank a n s.
Arguments rollout {E} rank a s.
Arguments begin_iteration {E} s.
Arguments critic {E} s.
Arguments bootstrap_value {E} s.
Arguments zero_gradients {E} a s.
Arguments backward_and_step {E} a s losses.
Arguments update {E} a s.
Arguments train_iteration {E} rank a s.
Arguments train_loop {E} rank a n s.
Arguments init_state {E} a w shared opt t model_grads0 shared_grads0 counter0.
Arguments o_tx {E} o.
Arguments o_value {E} o.
Arguments o_hx {E} o.
Arguments o_cx {E} o.
Arguments o_entropy {E} o.
Arguments o_action {E} o.
Arguments o_log_prob {E} o.
Arguments o_env {E} o.
Arguments o_state {E} o.
Arguments o_reward {E} o.
Arguments o_done {E} o.

(** ** The counter shared by the processes (main.py, lines 82-94;
       train.py, lines 146-154)

    Every training process repeats: [env.step], then
    [with lock: counter.value += 1].  The processes run interleaved; a step
    of the system is one step of one process.  [counter.value += 1] is a
    load of the shared value, an addition and a store, so the statement is
    three steps, between the acquisition and the release of the lock. *)

Module LockedCounter.

Inductive pc : Type :=
| Interacting          (* in the rollout, up to and including [env.step] *)
| Waiting              (* at [with lock:] *)
| Holding              (* lock acquired, [counter.value] not yet read *)
| Loaded (v : Z)       (* [counter.value] read as [v] *)
| Stored.              (* [v + 1] stored, lock not yet released *)

Record config : Type := {
  lock : option nat;   (* the process that holds the lock *)
  value : Z;           (* [counter.value] *)
  pcs : list pc;       (* where each process is *)
  interactions : nat;  (* how many [env.step] calls have returned *)
  stores : nat         (* how many stores to the counter were made *)
}.

Fixpoint set_pc (w : nat) (p : pc) (l : list pc) : list pc :=
  match l, w with
  | [], _ => []
  | _ :: l', O => p :: l'
  | q :: l', S w' => q :: set_pc w' p l'
  end.

(** One step of process [w]; a process that waits for a taken lock, or
    that does not exist, leaves the configuration as it is. *)
Definition exec (w : nat) (c : config) : config :=
  match nth_error (pcs c) w with
  | None => c
  | Some Interacting =>
      {| lock := lock c; value := value c; pcs := set_pc w Waiting (pcs c);
         interactions := S (interactions c); stores := stores c |}
  | Some Waiting =>
      match lock c with
      | Some _ => c
      | None =>
          {| lock := Some w; value := value c; pcs := set_pc w Holding (pcs c);
             interactions := interactions c; stores := stores c |}
      end
  | Some Holding =>
      {| lock := lock c; value := value c;
         pcs := set_pc w (Loaded (value c)) (pcs c);
         interactions := interactions c; stores := stores c |}
  | Some (Loaded v) =>
      {| lock := lock c; value := wrap32 (v + 1);
         pcs := set_pc w Stored (pcs c);
         interactions := interactions c; stores := S (stores c) |}
  | Some Stored =>
      {| lock := None; value := value c; pcs := set_pc w Interacting (pcs c);
         interactions := interactions c; stores := stores c |}
  end.

(** A schedule names the process that moves at each step. *)
Definition run (schedule : list nat) (c : config) : config :=
  fold_left (fun c w => exec w c) schedule c.

(** [counter = mp.Value('i', 0)], [lock = mp.Lock()] and [n] processes
    about to start. *)
Definition init (n : nat) : config :=
  {| lock := None; value := 0; pcs := repeat Interacting n;
     interactions := 0; stores := 0 |}.

Definition in_critical_section (p : pc) : bool :=
  match p with
  | Holding | Loaded _ | Stored => true
  | Interacting | Waiting => false
  end.

(** An interaction that is not yet counted. *)
Definition pending (p : pc) : bool :=
  match p with
  | Waiting | Holding | Loaded _ => true
  | Interacting | Stored => false
  end.

Definition count_pending (l : list pc) : nat :=
  length (filter pending l).

(** What holds in every configuration that the processes can reach:
    a process between the acquisition and the release holds the lock; a
    value that a process has loaded is still the value of the counter; the
    counter holds the number of stores, as a C [int]; every interaction is
    counted, or about to be. *)
Definition invariant (c : config) : Prop :=
  (forall (w : nat) (p : pc),
     nth_error (pcs c) w = Some p -> in_critical_section p = true ->
     lock c = Some w)
  /\ (forall (w : nat) (v : Z),
        nth_error (pcs c) w = Some (Loaded v) -> v = value c)
  /\ value c = wrap32 (Z.of_nat (stores c))
  /\ interactions c = (stores c + count_pending (pcs c))%nat.

End LockedCounter.

(** ** A small simulator and network, to run the loop on

    The simulator replays a script of (reward, done) answers and then
    answers (0, false) for ever; an observation is the number of answers
    left.  The network's value estimate is the observation, its recurrent
    state counts the forward passes. *)

Module Scripted.

Definition script : Type := list (Q * bool).

Definition step (w : script) (action : Z) : script * (Z * Q * bool) :=
  match w with
  | [] => ([], (0, 0%Q, false))
  | (r, d) :: w' => (w', (Z.of_nat (length w'), r, d))
  end.

Definition E : externals :=
  {| world := script;
     observation := Z;
     image := Z;
     instruction := unit;
     hidden := Z;
     logits := Z;
     params := Z;
     opt_state := Z;
     grad := Z;
     store := unit;
     env_reset := fun w => (w, Z.of_nat (length w));
     env_step := step;
     unpack_state := fun o => (o, tt);
     task_has_language_instructions := false;
     model_plain := fun p img h => (inject_Z img, img, (fst h + 1, snd h + 1));
     model_lang := fun p img ins h => (inject_Z img, img, (snd (fst h) + 1, snd h + 1));
     zeros_hidden := 0;
     entropy_of := fun _ => 1%Q;
     multinomial := fun w _ => (w, 0);
     log_prob_of := fun _ _ => (-1)%Q;
     zero_grad := fun t g => (t, g);
     backprop := fun t p loss g => (t, map (fun _ => Some 1) g);
     clip_grad_norm := fun t _ _ => t;
     optimizer_step := fun t o p g => (p + 1, o + 1) |}.

Definition hyper (steps max_len freq procs : Z) : args :=
  {| num_steps := steps; max_episode_length := max_len;
     checkpoint_freq := freq; num_processes := procs;
     gamma := 1 # 2; tau := 1; entropy_coef := 1 # 10;
     value_loss_coef := 1 # 2; max_grad_norm := 50;
     args_total_length := 0; args_episode_number := 0 |}.

(** Two collected steps. *)
Definition two_values : list Q := [1 # 2; 1 # 4]%Q.
Definition two_log_probs : list Q := [-1; -1]%Q.
Definition two_rewards : list Q := [1; 2]%Q.
Definition two_entropies : list Q := [1; 1]%Q.

Definition start (a : args) (w : script) (counter0 : Z) : state E :=
  init_state (E := E) a w 0 0 tt [None; None] [None; None] counter0.

(** A process at the start of an iteration, in front of a simulator
    whose next three answers do not end the episode. *)
Definition three_answers : state E :=
  begin_iteration
    (start (hyper 2 10 1 1) [(1, false); (2, false); (3, false)]%Q 0).

(** A process that resumes at [total_length = 4] with a checkpoint every
    [4 // 2 = 2] steps, the shared counter at 7. *)
Definition resumed_args : args :=
  {| num_steps := 2; max_episode_length := 10;
     checkpoint_freq := 4; num_processes := 2;
     gamma := 1 # 2; tau := 1; entropy_coef := 1 # 10;
     value_loss_coef := 1 # 2; max_grad_norm := 50;
     args_total_length := 4; args_episode_number := 3 |}.

Definition resumed : state E :=
  start resumed_args [(1, false); (2, false); (3, false)]%Q 7.

(** Twelve episodes of one step each, checkpoints at every step: ten
    rewards of 5, then -15, then 0. *)
Definition every_step : args := hyper 20 1000 1 1.

Definition twelve_episodes : state E :=
  start every_step
    (repeat (5, true) 10 ++ [(-15, true); (0, true)])%Q 0.

(** Process 0 at [total_length = 4] with more processes than the
    checkpoint frequency: [1 // 2 = 0]. *)
Definition sparse_args : args :=
  {| num_steps := 2; max_episode_length := 10;
     checkpoint_freq := 1; num_processes := 2;
     gamma := 1 # 2; tau := 1; entropy_coef := 1 # 10;
     value_loss_coef := 1 # 2; max_grad_norm := 50;
     args_total_length := 4; args_episode_number := 3 |}.

Definition sparse : state E :=
  start sparse_args [(1, false); (2, false); (3, false)]%Q 7.

(** The same with a negative checkpoint frequency: [-1 // 2 = -1]. *)
Definition negative_args : args :=
  {| num_steps := 2; max_episode_length := 10;
     checkpoint_freq := -1; num_processes := 2;
     gamma := 1 # 2; tau := 1; entropy_coef := 1 # 10;
     value_loss_coef := 1 # 2; max_grad_norm := 50;
     args_total_length := 4; args_episode_number := 3 |}.

Definition negative : state E :=
  start negative_args [(1, false); (2, false); (3, false)]%Q 7.

(** A process that finds the shared counter at the largest C [int]. *)
Definition counter_at_max : state E :=
  start (hyper 2 10 1 1) [(1, false); (2, false); (3, false)]%Q INT_MAX.

End Scripted.

(** ** Notions used to state the properties *)

(** The four buffers hold one entry per collected step. *)
Definition balanced (b : buffers) : Prop :=
  length (values b) = length (rewards b)
  /\ length (log_probs b) = length (rewards b)
  /\ length (entropies b) = length (rewards b).

(** The same state with other contents in the rollout buffers. *)
Definition set_buffers {E : externals} (s : state E) (b : buffers) : state E :=
  {| ag := ag s; prog := prog s; mon := mon s; buf := b; lrn := lrn s;
     counter := counter s; trace := trace s |}.

(** What lines 156-165 and 189 do to the monitoring variables in a step
    that returns [reward] and leaves [done] as [done']. *)
Definition monitor_step (m : monitor) (step : Q * bool) : monitor :=
  append_reward (if snd step then episode_over m else m) (fst step).

Definition monitor_run (m : monitor) (steps : list (Q * bool)) : monitor :=
  fold_left monitor_step steps m.

(** The steps of an episode that is not over yet. *)
Definition running (rs : list Q) : list (Q * bool) :=
  map (fun r => (r, false)) rs.

Definition is_checkpoint_event {E : externals} (e : event E) : bool :=
  match e with
  | TorchSave _ _ | CopyToModelBest _ => true
  | _ => false
  end.

Definition is_update_event {E : externals} (e : event E) : bool :=
  match e with
  | ZeroGrad | Backward _ | ClipGradNorm | EnsureSharedGrads | OptimizerStep => true
  | _ => false
  end.

Definition is_step_event {E : externals} (e : event E) : bool :=
  match e with
  | EnvStep _ | CounterIncrement => true
  | _ => false
  end.

(** A checkpoint event that the checkpoint test of process [rank] allows:
    the file is written by process 0, at a positive [total_length] that the
    cadence [checkpoint_freq // num_processes] divides, and it records that
    [total_length]. *)
Definition on_cadence (rank : Z) (a : args) (tl : Z) : Prop :=
  rank = 0 /\ 0 < tl /\ tl mod (checkpoint_freq a / num_processes a) = 0.

Definition checkpoint_event_ok {E : externals} (rank : Z) (a : args)
  (e : event E) : Prop :=
  match e with
  | TorchSave tl c => on_cadence rank a tl /\ ck_total_length c = tl
  | CopyToModelBest tl => on_cadence rank a tl
  | _ => True
  end.

(** The checkpoint files of a trace, in the order they are written:
    [(tl, false)] for the file saved at [total_length = tl], [(tl, true)]
    for its copy to [model_best.pth.tar]. *)
Definition checkpoint_log {E : externals} (tr : list (event E))
  : list (Z * bool) :=
  flat_map (fun e => match e with
                     | TorchSave tl _ => [(tl, false)]
                     | CopyToModelBest tl => [(tl, true)]
                     | _ => []
                     end) tr.

(** The values of [total_length] that name the checkpoint files of a
    trace ([checkpoint_total_length_<n>.pth.tar]), in the order of their
    writing. *)
Definition saved_lengths {E : externals} (tr : list (event E)) : list Z :=
  flat_map (fun e => match e with
                     | TorchSave tl _ => [tl]
                     | _ => []
                     end) tr.

(** The monitoring variables as [train] initialises them (lines 85-89). *)
Definition fresh_monitor : monitor :=
  {| avg_episode_return := NegInf;
     best_avg_episode_return := NegInf;
     avg_episode_returns := [];
     episode_total_rewards_list := [];
     all_rewards_in_episode := [] |}.

(** A checkpoint event that saves the weights [p] and the optimizer
    state [o]. *)
Definition saves_state {E : externals} (p : params E) (o : opt_state E)
  (e : event E) : Prop :=
  match e with
  | TorchSave _ c => ck_state_dict c = p /\ ck_optimizer c = o
  | _ => True
  end.

(** ** The processes that [main.py] starts (lines 85-100)

    Without [--synchronous] a test process, started with
    [args.num_processes] in the place of its rank, and one training process
    for each rank of [range(0, args.num_processes)]; with it, one call of
    [train] with rank 0 in the main thread. *)

Inductive process : Type :=
| TestProcess (rank : Z)
| TrainProcess (rank : Z).

(** [range(lo, hi)] *)
Definition range (lo hi : Z) : list Z :=
  map (fun i => lo + Z.of_nat i) (seq 0 (Z.to_nat (hi - lo))).

Definition launch (synchronous : bool) (num_processes : Z) : list process :=
  if negb synchronous
  then TestProcess num_processes :: map TrainProcess (range 0 num_processes)
  else [TrainProcess 0].

Definition train_ranks (ps : list process) : list Z :=
  flat_map (fun p => match p with
                     | TrainProcess r => [r]
                     | TestProcess _ => []
                     end) ps.

(** ** More on the shared counter *)

(** The lock is held only by a process that is between its acquisition
    and its release. *)
Definition holder_inside (c : LockedCounter.config) : Prop :=
  forall h : nat,
    LockedCounter.lock c = Some h ->
    exists p : LockedCounter.pc,
      nth_error (LockedCounter.pcs c) h = Some p
      /\ LockedCounter.in_critical_section p = true.

(** ** The example that handles objects
       (examples/ai2thor_examples.py, lines 35-80)

    The controller is the simulator's; [controller_step] answers with the
    objects of [event.metadata['objects']], or with nothing when the call
    raises (as it does for a failed action under [raise_for_failure]). *)

Module Examples.

Local Open Scope string_scope.

(** An entry of [event.metadata['objects']]. *)
Record object_metadata : Type := {
  visible : bool;
  pickupable : bool;
  openable : bool;
  objectType : String.string;
  objectId : String.string
}.

Inductive action : Type :=
| Initialize (gridSize : Q)
| Teleport (x y z : Q)
| LookDown
| LookUp
| Rotate (rotation : Z)
| PickupObject (object_id : String.string)
| OpenObject (object_id : String.string)
| MoveRight
| PutObject (receptacle_object_id object_id : String.string)
| CloseObject (object_id : String.string).

(** What the example asks of the controller. *)
Inductive call : Type :=
| Start
| Reset (scene : String.string)
| Step (a : action) (raise_for_failure : bool)
| Stop.

Inductive example_error : Type :=
| UnboundLocalError (name : String.string)
| ControllerError.

Record controller : Type := {
  ctrl : Type;
  controller_start : ctrl -> ctrl;
  controller_reset : ctrl -> String.string -> ctrl;
  controller_step : ctrl -> action -> bool ->
                    ctrl * option (list object_metadata);
  controller_stop : ctrl -> ctrl
}.

Section Run.

Variable C : controller.

(** The controller and the calls made so far; a computation ends with a
    value or with an exception, the calls made until then being kept. *)
Definition session : Type := (ctrl C * list call)%type.

Definition M (A : Type) : Type := session -> session * (A + example_error).

Definition ret {A : Type} (x : A) : M A := fun st => (st, inl x).

Definition raise {A : Type} (e : example_error) : M A := fun st => (st, inr e).

Definition and_then {A B : Type} (m : M A) (k : A -> M B) : M B :=
  fun st =>
    match m st with
    | (st', inl x) => k x st'
    | (st', inr e) => (st', inr e)
    end.

Definition start : M unit :=
  fun st => ((controller_start C (fst st), snd st ++ [Start]), inl tt).

Definition reset (scene : String.string) : M unit :=
  fun st => ((controller_reset C (fst st) scene, snd st ++ [Reset scene]), inl tt).

Definition step (a : action) (raise_for_failure : bool)
  : M (list object_metadata) :=
  fun st =>
    let '(c, answer) := controller_step C (fst st) a raise_for_failure in
    ((c, snd st ++ [Step a raise_for_failure]),
     match answer with
     | Some objects => inl objects
     | None => inr ControllerError
     end).

Definition stop : M unit :=
  fun st => ((controller_stop C (fst st), snd st ++ [Stop]), inl tt).

(** [obj['visible'] and obj['pickupable'] and obj['objectType'] == 'Mug'] *)
Definition is_mug (o : object_metadata) : bool :=
  visible o && pickupable o && String.eqb (objectType o) "Mug".

(** [obj['visible'] and obj['openable'] and obj['objectType'] == 'Microwave'] *)
Definition is_microwave (o : object_metadata) : bool :=
  visible o && openable o && String.eqb (objectType o) "Microwave".

(** [for obj in objects: if test(obj): controller.step(...); id = obj['objectId']; break]:
    the identifier that the loop binds, if it binds one. *)
Definition first_then_step (test : object_metadata -> bool)
  (act : String.string -> action) (objects : list object_metadata)
  : M (option String.string) :=
  match find test objects with
  | Some o =>
      and_then (step (act (objectId o)) true)
               (fun _ => ret (Some (objectId o)))
  | None => ret None
  end.

(** A local variable that may not have been bound. *)
Definition read (name : String.string) (v : option String.string)
  : M String.string :=
  match v with
  | Some x => ret x
  | None => raise (UnboundLocalError name)
  end.

Definition run_calling_complex_actions (c0 : ctrl C)
  : session * (unit + example_error) :=
  and_then start (fun _ =>
  and_then (reset "FloorPlan28") (fun _ =>
  and_then (step (Initialize (1 # 4)) false) (fun _ =>
  and_then (step (Teleport (- (5 # 4)) 1 (- (3 # 2))) false) (fun _ =>
  and_then (step LookDown false) (fun _ =>
  and_then (step (Rotate 90) false) (fun objects =>
  and_then (first_then_step is_mug PickupObject objects) (fun mug_object_id =>
  and_then (step LookUp false) (fun objects =>
  and_then (first_then_step is_microwave OpenObject objects)
           (fun receptacle_object_id =>
  and_then (step MoveRight true) (fun _ =>
  and_then (read "receptacle_object_id" receptacle_object_id) (fun r =>
  and_then (read "mug_object_id" mug_object_id) (fun m =>
  and_then (step (PutObject r m) true) (fun _ =>
  and_then (step (CloseObject r) true) (fun _ =>
  stop)))))))))))))) (c0, []).

End Run.

(** A kitchen in front of which every look shows a closed microwave and,
    when [with_mug] is set, a mug; every action succeeds. *)
Definition microwave : object_metadata :=
  {| visible := true; pickupable := false; openable := true;
     objectType := "Microwave"; objectId := "Microwave|1" |}.

Definition mug : object_metadata :=
  {| visible := true; pickupable := true; openable := false;
     objectType := "Mug"; objectId := "Mug|1" |}.

Definition kitchen (with_mug : bool) : controller :=
  {| ctrl := unit;
     controller_start := fun c => c;
     controller_reset := fun c _ => c;
     controller_step := fun c _ _ =>
       (c, Some (if with_mug then [microwave; mug] else [microwave]));
     controller_stop := fun c => c |}.

End Examples.

(** The states in which the body of the rollout loop runs its forward
    pass, in order: one for every pass through the body that gets beyond
    the checkpoint test. *)
Fixpoint rollout_states {E : externals} (rank : Z) (a : args) (n : nat)
  (s : state E) : list (state E) :=
  match n with
  | O => []
  | S k =>
      match maybe_checkpoint rank a s with
      | Ok s1 =>
          s1 :: (if done (ag (env_interaction rank a s1)) then []
                 else rollout_states rank a k (env_interaction rank a s1))
      | Raise _ => []
      end
  end.

(** The forward pass runs on a zero recurrent state when it opens an
    episode. *)
Definition starts_from_zeros {E : externals} (s : state E) : Prop :=
  episode_length (prog s) = 0 ->
  hx (ag s) = zeros_hidden E /\ cx (ag s) = zeros_hidden E.

(** The test of lines 115-116, [rank == 0 and total_length > 0 and
    total_length % (args.checkpoint_freq // args.num_processes) == 0], as a
    boolean; [checkpoint_due] is this value wherever neither division
    raises. *)
Definition cadenceb (rank : Z) (a : args) (tl : Z) : bool :=
  (rank =? 0) && (0 <? tl)
  && (tl mod (checkpoint_freq a / num_processes a) =? 0).

(** The objects handed to [torch.save] in a trace, each with the
    [total_length] that names its file, in the order of their writing. *)
Definition saved_checkpoints {E : externals} (tr : list (event E))
  : list (Z * checkpoint E) :=
  flat_map (fun e => match e with
                     | TorchSave tl c => [(tl, c)]
                     | _ => []
                     end) tr.

(** What the checkpoint test of a pass through the body of the rollout
    loop writes (lines 115-128): the checkpoint of the state, under the
    name of its [total_length], when the test holds. *)
Definition written {E : externals} (rank : Z) (a : args) (s : state E)
  : list (event E) :=
  if cadenceb rank a (total_length (prog s))
  then save_checkpoint (checkpoint_dict s) (total_length (prog s))
         (best_so_far (mon s))
  else [].

(** [episode_length] is a count of steps below the greatest length an
    episode can reach, which is [max_episode_length], and 1 when that is
    not positive: the test of line 156 follows the step. *)
Definition within_episode {E : externals} (a : args) (s : state E) : Prop :=
  0 <= episode_length (prog s) < Z.max 1 (max_episode_length a).

(** * Properties *)

(** ** Lists, indices and loops *)

Lemma bind_ok {A B : Type} (m : result A) (k : A -> result B) (b : B) :
  bind m k = Ok b -> exists x, m = Ok x /\ k x = Ok b.
Proof.
  destruct m as [x | e]; simpl; intros H; [ | discriminate ].
  exists x; split; [ reflexivity | exact H ].
Qed.

Lemma for_each_app {S : Type} (body : nat -> S -> result S) (l1 l2 : list nat) (s : S) :
  for_each (l1 ++ l2) body s = (s' <- for_each l1 body s ;; for_each l2 body s').
Proof.
  revert s; induction l1 as [ | i l1 IH ]; intros s; simpl; [ reflexivity | ].
  destruct (body i s) as [ s' | e ]; simpl; [ apply IH | reflexivity ].
Qed.

Lemma reversed_range_split (k n : nat) :
  reversed_range (k + n) = rev (seq k n) ++ reversed_range k.
Proof.
  unfold reversed_range. rewrite seq_app, rev_app_distr. reflexivity.
Qed.

Lemma skipn_cons_nth {A : Type} (l : list A) (k : nat) :
  (k < length l)%nat ->
  exists x, nth_error l k = Some x /\ skipn k l = x :: skipn (S k) l.
Proof.
  revert k; induction l as [ | y l IH ]; intros k Hk; simpl in Hk; [ lia | ].
  destruct k as [ | k ].
  - exists y; split; reflexivity.
  - destruct (IH k) as [x [Hx Hs]]; [ lia | ].
    exists x; split; [ exact Hx | exact Hs ].
Qed.

Lemma index_app_l {A : Type} (l : list A) (x y : A) (k : nat) :
  nth_error l k = Some x -> index (l ++ [y]) k = Ok x.
Proof.
  intros H. unfold index. rewrite nth_error_app1.
  - rewrite H; reflexivity.
  - apply nth_error_Some. rewrite H; discriminate.
Qed.

Lemma index_next_value (vs : list Q) (v_boot : Q) (k : nat) :
  (k <= length vs)%nat ->
  index (vs ++ [v_boot]) k = Ok (Gae.next_value (skipn k vs) v_boot).
Proof.
  revert k; induction vs as [ | v vs IH ]; intros k Hk; simpl in Hk.
  - replace k with O by lia. reflexivity.
  - destruct k as [ | k ]; [ reflexivity | ].
    apply (IH k). lia.
Qed.

(** ** The loss computation *)

Section LossFacts.

Variable a : args.

Local Open Scope Q_scope.

(** The loop over the indices [k + n - 1, ..., k] computes what the
    recursion computes on the steps from [k] on; no law of arithmetic is
    used, the two perform the same operations in the same order. *)
Lemma loop_suffix (vs lps rs es : list Q) (v_boot : Q) :
  length vs = length rs -> length lps = length rs -> length es = length rs ->
  forall n k : nat, (k + n = length rs)%nat ->
  for_each (rev (seq k n)) (Gae.loss_body a (vs ++ [v_boot]) lps rs es)
           (Gae.init v_boot)
  = Ok (Gae.backward a (skipn k vs) (skipn k lps) (skipn k rs) (skipn k es)
          v_boot).
Proof.
  intros Hv Hl He n; induction n as [ | n IH ]; intros k Hk.
  - simpl. rewrite (skipn_all2 vs) by lia. reflexivity.
  - simpl seq. simpl rev. rewrite for_each_app.
    rewrite (IH (S k)) by lia. simpl bind.
    destruct (skipn_cons_nth vs k) as [v [Hnv Hsv]]; [ lia | ].
    destruct (skipn_cons_nth lps k) as [lp [Hnl Hsl]]; [ lia | ].
    destruct (skipn_cons_nth rs k) as [r [Hnr Hsr]]; [ lia | ].
    destruct (skipn_cons_nth es k) as [e [Hne Hse]]; [ lia | ].
    rewrite Hsv, Hsl, Hsr, Hse.
    unfold Gae.loss_body.
    assert (Hir : index rs k = Ok r) by (unfold index; rewrite Hnr; reflexivity).
    assert (Hil : index lps k = Ok lp) by (unfold index; rewrite Hnl; reflexivity).
    assert (Hie : index es k = Ok e) by (unfold index; rewrite Hne; reflexivity).
    rewrite Hir, (index_app_l vs v v_boot k Hnv), Hil, Hie.
    replace (k + 1)%nat with (S k) by lia.
    rewrite (index_next_value vs v_boot (S k)) by lia.
    reflexivity.
Qed.

(** With one entry per step in each buffer the whole loop ends without an
    exception. *)
Lemma compute_losses_backward (vs lps rs es : list Q) (v_boot : Q) :
  length vs = length rs -> length lps = length rs -> length es = length rs ->
  Gae.compute_losses a vs lps rs es v_boot
  = Ok (Gae.backward a vs lps rs es v_boot).
Proof.
  intros Hv Hl He. unfold Gae.compute_losses, reversed_range.
  apply (loop_suffix vs lps rs es v_boot Hv Hl He (length rs) 0).
  reflexivity.
Qed.

(** The operations of the code agree, as rational numbers, with the
    recurrences of the specification. *)
Lemma backward_spec (vs lps rs es : list Q) (R_T : Q) :
  length vs = length rs -> length lps = length rs -> length es = length rs ->
  let s := Gae.backward a vs lps rs es R_T in
  Gae.R s == Gae.spec_return a rs R_T
  /\ Gae.gae s == Gae.spec_gae a vs rs R_T
  /\ Gae.value_loss s == Gae.spec_value_loss a vs rs R_T
  /\ Gae.policy_loss s == Gae.spec_policy_loss a vs lps rs es R_T.
Proof.
  revert lps rs es; induction vs as [ | v vs IH ]; intros lps rs es Hv Hl He.
  - destruct rs; [ | discriminate ]. simpl. repeat split; reflexivity.
  - destruct rs as [ | r rs ]; [ discriminate | ].
    destruct lps as [ | lp lps ]; [ discriminate | ].
    destruct es as [ | e es ]; [ discriminate | ].
    simpl in Hv, Hl, He.
    destruct (IH lps rs es) as [HR [Hg [Hvl Hpl]]]; try lia.
    cbn [Gae.backward Gae.spec_return Gae.spec_gae Gae.spec_value_loss
         Gae.spec_policy_loss Gae.R Gae.gae Gae.value_loss Gae.policy_loss].
    cbv zeta in HR, Hg, Hvl, Hpl.
    repeat split.
    + rewrite HR. reflexivity.
    + rewrite Hg. ring.
    + rewrite Hvl, HR. simpl Qpower. ring.
    + rewrite Hpl, Hg. ring.
Qed.

End LossFacts.

(** A rollout of two steps, the episode not over: rewards 1 and 2, value
    estimates 1/2 and 1/4, bootstrap value 1, gamma = 1/2, tau = 1. *)
Example compute_losses_two_steps :
  match Gae.compute_losses (Scripted.hyper 2 10 1 1)
          Scripted.two_values Scripted.two_log_probs Scripted.two_rewards
          Scripted.two_entropies 1 with
  | Ok s => (Gae.R s == 9 # 4 /\ Gae.gae s == 7 # 4
             /\ Gae.value_loss s == 65 # 16
             /\ Gae.policy_loss s == 19 # 5)%Q
  | Raise _ => False
  end.
Proof. vm_compute. repeat split; reflexivity. Qed.

(** C1. For a rollout with rewards [r_0 .. r_{T-1}], value estimates
    [V_0 .. V_{T-1}], log-probabilities, entropies and the bootstrap value
    appended to the values, the loop of [train] visits the indices
    [T-1, ..., 0]; after it has visited the indices down to [k] its
    variables hold what the recurrences give for the steps [k .. T-1]:
    [R = gamma R + r_i], [value_loss += 0.5 (R - V_i)^2],
    [gae = gamma tau gae + (r_i + gamma V_{i+1} - V_i)] from [gae = 0], and
    [policy_loss += - log_prob_i gae - entropy_coef entropy_i], the two
    losses from 0.  With [k = 0] these are the results of the whole loop. *)
Theorem loss_loop_performs_gae_recursion
  (a : args) (vs lps rs es : list Q) (R_T : Q) :
  length vs = length rs -> length lps = length rs -> length es = length rs ->
  (forall k : nat, (k <= length rs)%nat ->
      exists s,
        for_each (firstn (length rs - k) (reversed_range (length rs)))
          (Gae.loss_body a (vs ++ [R_T]) lps rs es) (Gae.init R_T) = Ok s
        /\ (Gae.R s == Gae.spec_return a (skipn k rs) R_T
            /\ Gae.gae s == Gae.spec_gae a (skipn k vs) (skipn k rs) R_T
            /\ Gae.value_loss s
               == Gae.spec_value_loss a (skipn k vs) (skipn k rs) R_T
            /\ Gae.policy_loss s
               == Gae.spec_policy_loss a (skipn k vs) (skipn k lps)
                    (skipn k rs) (skipn k es) R_T)%Q)
  /\ (exists s,
        Gae.compute_losses a vs lps rs es R_T = Ok s
        /\ (Gae.R s == Gae.spec_return a rs R_T
            /\ Gae.gae s == Gae.spec_gae a vs rs R_T
            /\ Gae.value_loss s == Gae.spec_value_loss a vs rs R_T
            /\ Gae.policy_loss s == Gae.spec_policy_loss a vs lps rs es R_T)%Q).
Proof.
  intros Hv Hl He.
  assert (Hk : forall k : nat, (k <= length rs)%nat ->
            for_each (firstn (length rs - k) (reversed_range (length rs)))
              (Gae.loss_body a (vs ++ [R_T]) lps rs es) (Gae.init R_T)
            = Ok (Gae.backward a (skipn k vs) (skipn k lps) (skipn k rs)
                    (skipn k es) R_T)).
  { intros k Hk.
    replace (reversed_range (length rs))
      with (rev (seq k (length rs - k)) ++ reversed_range k).
    - rewrite firstn_app.
      rewrite length_rev, length_seq, Nat.sub_diag, firstn_O, app_nil_r.
      rewrite firstn_all2 by (rewrite length_rev, length_seq; lia).
      apply loop_suffix; try assumption. lia.
    - rewrite <- reversed_range_split. f_equal. lia. }
  split.
  - intros k Hle. eexists. split; [ apply Hk; exact Hle | ].
    apply backward_spec; rewrite !length_skipn; lia.
  - eexists. split.
    + apply compute_losses_backward; assumption.
    + apply (backward_spec a vs lps rs es R_T); assumption.
Qed.

Lemma loss_loop_performs_gae_recursion_witness :
  exists s,
    Gae.compute_losses (Scripted.hyper 2 10 1 1)
      Scripted.two_values Scripted.two_log_probs Scripted.two_rewards
      Scripted.two_entropies 1 = Ok s
    /\ (Gae.policy_loss s
        == Gae.spec_policy_loss (Scripted.hyper 2 10 1 1)
             Scripted.two_values Scripted.two_log_probs Scripted.two_rewards
             Scripted.two_entropies 1)%Q.
Proof.
  destruct (loss_loop_performs_gae_recursion (Scripted.hyper 2 10 1 1)
              Scripted.two_values Scripted.two_log_probs Scripted.two_rewards
              Scripted.two_entropies 1 eq_refl eq_refl eq_refl) as [_ [s [Hs [_ [_ [_ Hp]]]]]].
  exists s. split; [ exact Hs | exact Hp ].
Defined.

(** ** One step of the rollout *)

Section StepFacts.

Variable E : externals.
Variable rank : Z.
Variable a : args.

Lemma log_events_nil (s : state E) : log_events s [] = s.
Proof. destruct s; unfold log_events; simpl. rewrite app_nil_r. reflexivity. Qed.

(** When the checkpoint test is reached and true. *)
Lemma checkpoint_due_true (tl : Z) :
  checkpoint_due rank a tl = Ok true ->
  on_cadence rank a tl /\ num_processes a <> 0
  /\ checkpoint_freq a / num_processes a <> 0.
Proof.
  unfold checkpoint_due, floordiv, pymod, on_cadence.
  destruct (rank =? 0) eqn:Hr; [ | discriminate ].
  destruct (tl >? 0) eqn:Ht; [ | discriminate ].
  destruct (num_processes a =? 0) eqn:Hn; [ discriminate | ]. simpl.
  destruct (checkpoint_freq a / num_processes a =? 0) eqn:Hd; [ discriminate | ].
  simpl. intros H. injection H as H.
  apply Z.eqb_eq in Hr, H. apply Z.eqb_neq in Hn, Hd.
  apply Z.gtb_lt in Ht. repeat split; assumption.
Qed.

(** The checkpoint test writes files and touches nothing else. *)
Lemma maybe_checkpoint_frame (s s1 : state E) :
  maybe_checkpoint rank a s = Ok s1 ->
  exists evs, s1 = log_events s evs
              /\ Forall (fun e => is_checkpoint_event e = true) evs
              /\ ((checkpoint_due rank a (total_length (prog s)) = Ok false
                   /\ evs = [])
                  \/ (checkpoint_due rank a (total_length (prog s)) = Ok true
                      /\ evs = save_checkpoint (checkpoint_dict s)
                                 (total_length (prog s)) (best_so_far (mon s)))).
Proof.
  unfold maybe_checkpoint. intros H.
  apply bind_ok in H. destruct H as [due [Hdue H]].
  destruct due.
  - injection H as <-. eexists; split; [ reflexivity | ]. split.
    + unfold save_checkpoint. destruct (best_so_far (mon s)); repeat constructor.
    + right. split; [ exact Hdue | reflexivity ].
  - injection H as <-. exists []. split; [ symmetry; apply log_events_nil | ].
    split; [ constructor | left; split; [ exact Hdue | reflexivity ] ].
Qed.

Lemma interact_log_events (s : state E) (evs : list (event E)) :
  interact (log_events s evs) = interact s.
Proof. reflexivity. Qed.

Ltac open_interaction s :=
  unfold env_interaction;
  destruct (unpack_state E (o_state (interact s))) as [img ins];
  destruct (done_after a s) eqn:Hdone;
  [ destruct (env_reset E (o_env (interact s))) as [w3 st0];
    destruct (unpack_state E st0) as [img0 ins0]
  | ]; cbn [ag prog mon buf lrn counter trace done].

Lemma env_interaction_done (s : state E) :
  done (ag (env_interaction rank a s)) = done_after a s.
Proof. open_interaction s; reflexivity. Qed.

Lemma env_interaction_buf (s : state E) :
  buf (env_interaction rank a s) = append_step (buf s) (interact s).
Proof. open_interaction s; reflexivity. Qed.

Lemma env_interaction_counter (s : state E) :
  counter (env_interaction rank a s) = wrap32 (counter s + 1).
Proof. open_interaction s; reflexivity. Qed.

Lemma env_interaction_lrn (s : state E) :
  lrn (env_interaction rank a s) = lrn s.
Proof. open_interaction s; reflexivity. Qed.

Lemma env_interaction_total_length (s : state E) :
  total_length (prog (env_interaction rank a s)) = total_length (prog s) + 1.
Proof. open_interaction s; reflexivity. Qed.

Lemma env_interaction_mon (s : state E) :
  mon (env_interaction rank a s)
  = monitor_step (mon s) (o_reward (interact s), done_after a s).
Proof. open_interaction s; reflexivity. Qed.

(** When the episode goes on, the agent is left in the state that
    [env.step] returned, with the recurrent state of the forward pass. *)
Lemma env_interaction_continues (s : state E) :
  done_after a s = false ->
  let s' := env_interaction rank a s in
  image_state (ag s') = fst (unpack_state E (o_state (interact s)))
  /\ instruction_indices (ag s') = snd (unpack_state E (o_state (interact s)))
  /\ hx (ag s') = o_hx (interact s)
  /\ cx (ag s') = o_cx (interact s)
  /\ tx (ag s') = o_tx (interact s)
  /\ env (ag s') = o_env (interact s).
Proof.
  intros Hc. open_interaction s; [ congruence | ].
  repeat split; reflexivity.
Qed.

Lemma episode_events_quiet (m : monitor) (len num : Z) :
  Forall (fun e : event E =>
            is_step_event e = false /\ is_update_event e = false
            /\ is_checkpoint_event e = false)
         (episode_events rank m len num).
Proof.
  unfold episode_events.
  apply Forall_app; split.
  - destruct (_ <? _)%nat; repeat constructor.
  - destruct (rank =? 0); repeat constructor.
Qed.

(** The events of one interaction: [env.step], the increment of the
    counter right after it, then only logging and possibly [env.reset]. *)
Lemma env_interaction_trace (s : state E) :
  exists rest,
    trace (env_interaction rank a s)
    = trace s ++ EnvStep (o_action (interact s)) :: CounterIncrement :: rest
    /\ Forall (fun e : event E =>
                 is_step_event e = false /\ is_update_event e = false
                 /\ is_checkpoint_event e = false) rest.
Proof.
  open_interaction s.
  - eexists; split; [ reflexivity | ].
    apply Forall_app; split; [ apply episode_events_quiet | repeat constructor ].
  - exists []. split; [ reflexivity | constructor ].
Qed.

End StepFacts.

(** ** The rollout *)

Section RolloutFacts.

Variable E : externals.
Variable rank : Z.
Variable a : args.

Lemma rollout_step_inv (s s' : state E) :
  rollout_step rank a s = Ok s' ->
  exists evs,
    maybe_checkpoint rank a s = Ok (log_events s evs)
    /\ Forall (fun e => is_checkpoint_event e = true) evs
    /\ s' = env_interaction rank a (log_events s evs)
    /\ Forall (checkpoint_event_ok rank a) evs.
Proof.
  unfold rollout_step. intros H.
  apply bind_ok in H. destruct H as [s1 [H1 H2]].
  injection H2 as <-.
  destruct (maybe_checkpoint_frame E rank a s s1 H1) as [evs [-> [Hevs Hc]]].
  exists evs. repeat split; try assumption.
  destruct Hc as [[_ ->] | [Hdue ->]]; [ constructor | ].
  apply checkpoint_due_true in Hdue. destruct Hdue as [Hon _].
  unfold save_checkpoint.
  assert (Hsave : checkpoint_event_ok rank a
                    (TorchSave (total_length (prog s)) (checkpoint_dict s))).
  { split; [ exact Hon | reflexivity ]. }
  destruct (best_so_far (mon s)).
  - constructor; [ exact Hsave | ]. constructor; [ exact Hon | constructor ].
  - constructor; [ exact Hsave | constructor ].
Qed.

Lemma append_step_lengths (b : buffers) (o : outcome E) :
  length (values (append_step b o)) = S (length (values b))
  /\ length (log_probs (append_step b o)) = S (length (log_probs b))
  /\ length (rewards (append_step b o)) = S (length (rewards b))
  /\ length (entropies (append_step b o)) = S (length (entropies b)).
Proof.
  unfold append_step; simpl. rewrite !length_app. simpl. lia.
Qed.

(** What every run of the loop satisfies: it takes [k] steps, at most [n];
    each step appends one entry to each buffer and increments the counter;
    fewer than [n] steps are taken only when [done] is set. *)
Lemma rollout_loop_steps (n : nat) :
  forall s s' : state E,
  rollout_loop rank a n s = Ok s' ->
  exists k : nat,
    (k <= n)%nat
    /\ ((0 < n)%nat -> (0 < k)%nat)
    /\ ((k < n)%nat -> done (ag s') = true)
    /\ length (values (buf s')) = (length (values (buf s)) + k)%nat
    /\ length (log_probs (buf s')) = (length (log_probs (buf s)) + k)%nat
    /\ length (rewards (buf s')) = (length (rewards (buf s)) + k)%nat
    /\ length (entropies (buf s')) = (length (entropies (buf s)) + k)%nat
    /\ counter s' = Nat.iter k (fun c => wrap32 (c + 1)) (counter s)
    /\ lrn s' = lrn s.
Proof.
  induction n as [ | n IH ]; intros s s' H; simpl in H.
  - injection H as <-. exists 0%nat. simpl.
    repeat split; try lia.
  - apply bind_ok in H. destruct H as [s1 [H1 H2]].
    destruct (rollout_step_inv s s1 H1) as [evs [_ [_ [Hs1 _]]]].
    assert (Hb : buf s1 = append_step (buf s) (interact s)).
    { rewrite Hs1, env_interaction_buf. reflexivity. }
    assert (Hc : counter s1 = wrap32 (counter s + 1)).
    { rewrite Hs1, env_interaction_counter. reflexivity. }
    assert (Hl : lrn s1 = lrn s).
    { rewrite Hs1, env_interaction_lrn. reflexivity. }
    destruct (append_step_lengths (buf s) (interact s)) as [L1 [L2 [L3 L4]]].
    rewrite <- Hb in L1, L2, L3, L4.
    destruct (done (ag s1)) eqn:Hd.
    + injection H2 as <-. exists 1%nat. simpl.
      repeat split; try lia; try assumption.
      intros _. exact Hd.
    + destruct (IH s1 s' H2) as [k [Hk [_ [Hlt [K1 [K2 [K3 [K4 [K5 K6]]]]]]]]].
      exists (S k).
      repeat split; try lia.
      * intros Hlt'. apply Hlt. lia.
      * rewrite K5, Hc. clear. induction k as [ | k IHk ]; simpl.
        -- reflexivity.
        -- rewrite IHk. reflexivity.
      * congruence.
Qed.

(** A loop that runs at least once ends with an interaction. *)
Lemma rollout_loop_last (n : nat) :
  forall s s' : state E,
  (0 < n)%nat ->
  rollout_loop rank a n s = Ok s' ->
  exists (s0 : state E) (evs : list (event E)),
    maybe_checkpoint rank a s0 = Ok (log_events s0 evs)
    /\ s' = env_interaction rank a (log_events s0 evs).
Proof.
  induction n as [ | n IH ]; intros s s' Hn H; [ lia | ].
  simpl in H. apply bind_ok in H. destruct H as [s1 [H1 H2]].
  destruct (rollout_step_inv s s1 H1) as [evs [Hm [_ [Hs1 _]]]].
  destruct (done (ag s1)) eqn:Hd.
  - injection H2 as <-. exists s, evs. split; assumption.
  - destruct n as [ | n ].
    + simpl in H2. injection H2 as <-. exists s, evs. split; assumption.
    + apply (IH s1 s'); [ lia | exact H2 ].
Qed.

(** The events of a rollout: none belongs to the update; every checkpoint
    event comes from a checkpoint test that succeeded. *)
Lemma rollout_loop_trace (n : nat) :
  forall s s' : state E,
  rollout_loop rank a n s = Ok s' ->
  exists evs,
    trace s' = trace s ++ evs
    /\ Forall (fun e => is_update_event e = false) evs
    /\ Forall (checkpoint_event_ok rank a) evs.
Proof.
  induction n as [ | n IH ]; intros s s' H; simpl in H.
  - injection H as <-. exists []. rewrite app_nil_r. repeat split; constructor.
  - apply bind_ok in H. destruct H as [s1 [H1 H2]].
    destruct (rollout_step_inv s s1 H1) as [evs [_ [Hevs [Hs1 Hok]]]].
    destruct (env_interaction_trace E rank a (log_events s evs))
      as [rest [Htr Hrest]].
    rewrite <- Hs1 in Htr. simpl in Htr.
    set (step_evs := evs ++ EnvStep (o_action (interact s))
                         :: CounterIncrement :: rest) in *.
    assert (Hq : Forall (fun e : event E => is_update_event e = false) step_evs).
    { apply Forall_app; split.
      - eapply Forall_impl; [ | exact Hevs ].
        intros e He. destruct e; simpl in *; congruence.
      - constructor; [ reflexivity | ]. constructor; [ reflexivity | ].
        eapply Forall_impl; [ | exact Hrest ]. intros e He. apply He. }
    assert (Hc : Forall (checkpoint_event_ok rank a) step_evs).
    { apply Forall_app; split; [ exact Hok | ].
      constructor; [ exact I | ]. constructor; [ exact I | ].
      eapply Forall_impl; [ | exact Hrest ].
      intros e [_ [_ He]]. destruct e; simpl in *; try exact I; discriminate. }
    assert (Htr1 : trace s1 = trace s ++ step_evs).
    { rewrite Htr. unfold step_evs. rewrite <- app_assoc. reflexivity. }
    destruct (done (ag s1)).
    + injection H2 as <-. exists step_evs. repeat split; assumption.
    + destruct (IH s1 s' H2) as [evs' [Htr' [Hq' Hc']]].
      exists (step_evs ++ evs').
      repeat split.
      * rewrite Htr', Htr1, <- app_assoc. reflexivity.
      * apply Forall_app; split; assumption.
      * apply Forall_app; split; assumption.
Qed.

End RolloutFacts.

(** ** The shape of an update that returns *)

Lemma update_ok (E : externals) (a : args) (s s' : state E) :
  update a s = Ok s' ->
  exists losses : Gae.acc,
    Gae.compute_losses a (values (buf s)) (log_probs (buf s)) (rewards (buf s))
      (entropies (buf s)) (bootstrap_value s) = Ok losses
    /\ rewards (buf s) <> []
    /\ let loss := (Gae.policy_loss losses
                    + value_loss_coef a * Gae.value_loss losses)%Q in
       let zeroed := zero_grad E (tensors (lrn s)) (shared_grads (lrn s)) in
       let back := backprop E (fst zeroed) (model_params (lrn s)) loss
                     (model_grads (lrn s)) in
       let clipped := clip_grad_norm E (fst back) (max_grad_norm a) (snd back) in
       let stepped := optimizer_step E clipped (optimizer (lrn s))
                        (shared_params (lrn s))
                        (ensure_shared_grads (snd back) (snd zeroed)) in
       let kept := record_losses (p_losses (lrn s)) (v_losses (lrn s))
                     (Gae.policy_loss losses) (Gae.value_loss losses) in
       s' = {| ag := ag s;
               prog := {| total_length := total_length (prog s);
                          episode_number := episode_number (prog s);
                          episode_length := episode_length (prog s);
                          num_backprops := num_backprops (prog s) + 1 |};
               mon := mon s;
               buf := {| values := values (buf s) ++ [bootstrap_value s];
                         log_probs := log_probs (buf s);
                         rewards := rewards (buf s);
                         entropies := entropies (buf s) |};
               lrn := {| model_params := model_params (lrn s);
                         model_grads := snd back;
                         shared_params := fst stepped;
                         shared_grads :=
                           ensure_shared_grads (snd back) (snd zeroed);
                         optimizer := snd stepped;
                         tensors := clipped;
                         p_losses := fst kept;
                         v_losses := snd kept |};
               counter := counter s;
               trace := trace s
                        ++ [ZeroGrad; Backward loss; ClipGradNorm;
                            EnsureSharedGrads; OptimizerStep;
                            AddScalar tag_policy_loss (Gae.policy_loss losses)
                              (num_backprops (prog s) + 1);
                            AddScalar tag_value_loss (Gae.value_loss losses)
                              (num_backprops (prog s) + 1)] |}.
Proof.
  unfold update, zero_gradients. intros H.
  apply bind_ok in H. destruct H as [[s1 losses] [H1 H2]].
  apply bind_ok in H1. destruct H1 as [losses' [Hl H1]].
  exists losses.
  destruct (zero_grad E (tensors (lrn s)) (shared_grads (lrn s)))
    as [t1 shared1] eqn:Hz.
  injection H1 as <- <-.
  split; [ exact Hl | ].
  unfold backward_and_step in H2. cbn [fst snd buf lrn rewards] in H2.
  destruct (rewards (buf s)) as [ | r rs ] eqn:Hr; [ discriminate | ].
  split; [ discriminate | ].
  cbn [fst snd tensors model_params model_grads shared_grads optimizer
       shared_params p_losses v_losses prog ag mon counter trace] in *.
  destruct (backprop E t1 _ _ _) as [t2 model2].
  cbn [fst snd].
  destruct (optimizer_step E _ _ _ _) as [sp op].
  destruct (record_losses _ _ _ _) as [ps vs].
  injection H2 as <-. cbn [fst snd].
  rewrite <- app_assoc. reflexivity.
Qed.

(** Whatever the other buffers hold, a loop that returns leaves in [R]
    the discounted sum of the rewards on top of the value it started
    from. *)
Lemma loop_return (a : args) (vs lps rs es : list Q) (R0 : Q) (n : nat) :
  forall (k : nat) (s : Gae.acc),
  (k + n = length rs)%nat ->
  for_each (rev (seq k n)) (Gae.loss_body a vs lps rs es) (Gae.init R0) = Ok s ->
  Gae.R s = Gae.spec_return a (skipn k rs) R0.
Proof.
  induction n as [ | n IH ]; intros k s Hk H.
  - simpl in H. injection H as <-.
    rewrite skipn_all2 by lia. reflexivity.
  - simpl seq in H. simpl rev in H. rewrite for_each_app in H.
    apply bind_ok in H. destruct H as [s1 [H1 H2]].
    specialize (IH (S k) s1 ltac:(lia) H1).
    simpl in H2. apply bind_ok in H2. destruct H2 as [s2 [H2 H3]].
    injection H3 as <-.
    destruct (skipn_cons_nth rs k) as [r [Hnr Hsr]]; [ lia | ].
    unfold Gae.loss_body in H2.
    assert (Hir : index rs k = Ok r) by (unfold index; rewrite Hnr; reflexivity).
    rewrite Hir in H2. cbn [bind] in H2.
    repeat (apply bind_ok in H2; destruct H2 as [? [_ H2]]).
    injection H2 as <-. cbn [Gae.R].
    rewrite Hsr, IH. reflexivity.
Qed.

Lemma compute_losses_return (a : args) (vs lps rs es : list Q) (R0 : Q)
  (s : Gae.acc) :
  Gae.compute_losses a vs lps rs es R0 = Ok s ->
  Gae.R s = Gae.spec_return a rs R0.
Proof.
  unfold Gae.compute_losses, reversed_range. intros H.
  apply (loop_return a (vs ++ [R0]) lps rs es R0 (length rs) 0 s eq_refl H).
Qed.

(** ** The bootstrap value *)

(** C2. At the end of a rollout the value [R] that is appended to the
    values and seeds the backward loop is exactly 0 when [done] is true,
    and otherwise the critic's value of the state that the last [env.step]
    returned, computed with the recurrent state that the last forward pass
    left.  When the rollout has taken a step, [done] is true exactly when
    that step's [env.step] reported [done] or the episode length, after its
    increment, reached [max_episode_length].  The update that follows
    runs the backward loop from this value: the loop starts with [R] equal
    to it and reads it as [values[T]]; the [R] it ends with is the
    discounted sum of the rewards on top of it; the loss that is
    backpropagated and the two losses that are logged are the ones this
    loop returns; and with one entry per step in each buffer they are the
    recurrences of the specification with this value as the terminal
    one. *)
Theorem bootstrap_value_after_rollout
  (E : externals) (rank : Z) (a : args) (s s' : state E) :
  rollout rank a s = Ok s' ->
  (done (ag s') = true -> bootstrap_value s' = 0%Q)
  /\ (done (ag s') = false -> bootstrap_value s' = critic s')
  /\ (0 < num_steps a ->
      exists (s0 : state E) (evs : list (event E)),
        maybe_checkpoint rank a s0 = Ok (log_events s0 evs)
        /\ s' = env_interaction rank a (log_events s0 evs)
        /\ buf s' = append_step (buf s0) (interact s0)
        /\ done (ag s')
           = (o_done (interact s0)
              || (max_episode_length a <=? episode_length (prog s0) + 1))
        /\ (done (ag s') = false ->
            let o := interact s0 in
            let img := fst (unpack_state E (o_state o)) in
            let ins := snd (unpack_state E (o_state o)) in
            bootstrap_value s'
            = if negb (task_has_language_instructions E)
              then fst (fst (model_plain E (model_params (lrn s0)) img
                               (o_hx o, o_cx o)))
              else fst (fst (model_lang E (model_params (lrn s0)) img ins
                               (o_tx o, o_hx o, o_cx o)))))
  /\ (forall s'' : state E,
        update a s' = Ok s'' ->
        values (buf s'') = values (buf s') ++ [bootstrap_value s'])
  /\ (forall s'' : state E,
        update a s' = Ok s'' ->
        let b := buf s' in
        let R_T := bootstrap_value s' in
        exists losses : Gae.acc,
          for_each (reversed_range (length (rewards b)))
            (Gae.loss_body a (values b ++ [R_T]) (log_probs b) (rewards b)
               (entropies b))
            {| Gae.R := R_T; Gae.value_loss := 0; Gae.gae := 0;
               Gae.policy_loss := 0 |}
          = Ok losses
          /\ index (values b ++ [R_T]) (length (values b)) = Ok R_T
          /\ Gae.R losses = Gae.spec_return a (rewards b) R_T
          /\ trace s''
             = trace s'
               ++ [ZeroGrad;
                   Backward (Gae.policy_loss losses
                             + value_loss_coef a * Gae.value_loss losses)%Q;
                   ClipGradNorm; EnsureSharedGrads; OptimizerStep;
                   AddScalar tag_policy_loss (Gae.policy_loss losses)
                     (num_backprops (prog s') + 1);
                   AddScalar tag_value_loss (Gae.value_loss losses)
                     (num_backprops (prog s') + 1)]
          /\ (balanced b ->
              (Gae.gae losses == Gae.spec_gae a (values b) (rewards b) R_T
               /\ Gae.value_loss losses
                  == Gae.spec_value_loss a (values b) (rewards b) R_T
               /\ Gae.policy_loss losses
                  == Gae.spec_policy_loss a (values b) (log_probs b)
                       (rewards b) (entropies b) R_T)%Q)).
Proof.
  intros H. unfold rollout in H.
  split; [ | split; [ | split; [ | split ] ] ].
  - intros Hd. unfold bootstrap_value. rewrite Hd. reflexivity.
  - intros Hd. unfold bootstrap_value. rewrite Hd. reflexivity.
  - intros Hn.
    destruct (rollout_loop_last E rank a (Z.to_nat (num_steps a)) s s')
      as [s0 [evs [Hm Hs']]]; [ lia | exact H | ].
    exists s0, evs.
    split; [ exact Hm | ]. split; [ exact Hs' | ].
    split; [ rewrite Hs'; exact (env_interaction_buf E rank a (log_events s0 evs)) | ].
    assert (Hdone : done (ag s') = done_after a s0).
    { rewrite Hs'. exact (env_interaction_done E rank a (log_events s0 evs)). }
    split; [ exact Hdone | ].
    intros Hd o img ins.
    destruct (env_interaction_continues E rank a (log_events s0 evs))
      as [Hi [Hins [Hhx [Hcx [Htx _]]]]].
    { rewrite <- Hd, Hdone. reflexivity. }
    rewrite <- Hs' in Hi, Hins, Hhx, Hcx, Htx.
    rewrite interact_log_events in Hi, Hins, Hhx, Hcx, Htx.
    assert (Hl : lrn s' = lrn s0).
    { rewrite Hs'. exact (env_interaction_lrn E rank a (log_events s0 evs)). }
    unfold bootstrap_value, critic. rewrite Hd. simpl negb.
    rewrite Hl, Hi, Hins, Hhx, Hcx, Htx. reflexivity.
  - intros s'' Hu.
    destruct (update_ok E a s' s'' Hu) as [losses [_ [_ Hs'']]].
    cbv zeta in Hs''. rewrite Hs''. reflexivity.
  - intros s'' Hu b R_T.
    destruct (update_ok E a s' s'' Hu) as [losses [Hl [_ Hs'']]].
    cbv zeta in Hs''. fold b in Hl. fold R_T in Hl.
    exists losses.
    split; [ exact Hl | ].
    split.
    { unfold index. rewrite nth_error_app2 by lia.
      rewrite Nat.sub_diag. reflexivity. }
    split; [ exact (compute_losses_return a _ _ _ _ _ _ Hl) | ].
    split; [ rewrite Hs''; reflexivity | ].
    intros [Hv [Hlp He]].
    rewrite (compute_losses_backward a _ _ _ _ R_T Hv Hlp He) in Hl.
    injection Hl as <-.
    destruct (backward_spec a (values b) (log_probs b) (rewards b)
                (entropies b) R_T Hv Hlp He) as [_ [Hg [Hvl Hpl]]].
    split; [ exact Hg | split; [ exact Hvl | exact Hpl ] ].
Qed.

Lemma bootstrap_value_after_rollout_witness :
  exists s' : state Scripted.E,
    rollout 0 (Scripted.hyper 2 10 1 1) Scripted.three_answers = Ok s'
    /\ done (ag s') = false
    /\ bootstrap_value s' = critic s'.
Proof.
  eexists. split; [ vm_compute; reflexivity | ].
  split; [ reflexivity | ].
  refine (proj1 (proj2 (bootstrap_value_after_rollout Scripted.E 0
                          (Scripted.hyper 2 10 1 1) Scripted.three_answers _
                          eq_refl)) eq_refl).
Defined.

(** ** The rollout buffers *)

Lemma index_in_range {A : Type} (l : list A) (i : nat) :
  (i < length l)%nat -> exists x, index l i = Ok x.
Proof.
  intros Hi. unfold index.
  destruct (nth_error l i) as [ x | ] eqn:Hx.
  - exists x; reflexivity.
  - apply nth_error_None in Hx. lia.
Qed.

Lemma begin_iteration_set_buffers (E : externals) (s : state E) (b : buffers) :
  begin_iteration (set_buffers s b) = begin_iteration s.
Proof. reflexivity. Qed.

(** A rollout from the start of an iteration leaves as many values,
    log-probabilities and entropies as rewards. *)
Lemma rollout_balanced (E : externals) (rank : Z) (a : args) (s s' : state E) :
  rollout rank a (begin_iteration s) = Ok s' -> balanced (buf s').
Proof.
  intros H. unfold rollout in H.
  destruct (rollout_loop_steps E rank a _ _ _ H)
    as [k [_ [_ [_ [K1 [K2 [K3 [K4 _]]]]]]]].
  simpl in K1, K2, K3, K4. unfold balanced. lia.
Qed.

(** C7. A rollout that starts an iteration of the outer loop starts from
    empty buffers, whatever they held before, and appends one entry to
    each buffer per step; it takes at most [num_steps] steps and takes
    fewer only when [done] has become true.  The iteration, and so its
    gradient step, does not depend on what the buffers held before. *)
Theorem rollout_collects_at_most_num_steps
  (E : externals) (rank : Z) (a : args) (s s' : state E) :
  rollout rank a (begin_iteration s) = Ok s' ->
  buf (begin_iteration s) = empty_buffers
  /\ (length (rewards (buf s')) <= Z.to_nat (num_steps a))%nat
  /\ (0 <= num_steps a -> Z.of_nat (length (rewards (buf s'))) <= num_steps a)
  /\ length (values (buf s')) = length (rewards (buf s'))
  /\ length (log_probs (buf s')) = length (rewards (buf s'))
  /\ length (entropies (buf s')) = length (rewards (buf s'))
  /\ (Z.of_nat (length (rewards (buf s'))) < num_steps a -> done (ag s') = true)
  /\ (forall b : buffers,
        rollout rank a (begin_iteration (set_buffers s b)) = Ok s'
        /\ train_iteration rank a (set_buffers s b) = train_iteration rank a s).
Proof.
  intros H. unfold rollout in H.
  destruct (rollout_loop_steps E rank a _ _ _ H)
    as [k [Hk [_ [Hlt [K1 [K2 [K3 [K4 _]]]]]]]].
  simpl in K1, K2, K3, K4.
  repeat split; try lia.
  - intros Hn. apply Hlt. lia.
  - unfold rollout. rewrite begin_iteration_set_buffers. exact H.
Qed.

Lemma rollout_collects_at_most_num_steps_witness :
  exists s' : state Scripted.E,
    rollout 0 (Scripted.hyper 2 10 1 1) Scripted.three_answers = Ok s'
    /\ (length (rewards (buf s')) <= 2)%nat.
Proof.
  eexists. split; [ vm_compute; reflexivity | ].
  refine (proj1 (proj2 (rollout_collects_at_most_num_steps Scripted.E 0
                          (Scripted.hyper 2 10 1 1) Scripted.three_answers _
                          eq_refl))).
Defined.

(** C8. When the backward loop starts, the values hold one element more
    than the rewards (the bootstrap value has been appended) and the
    log-probabilities and entropies hold as many as the rewards; every
    access [values[i+1]], [values[i]], [log_probs[i]], [entropies[i]] and
    [rewards[i]] for [i] in [0 .. len(rewards)-1] finds an element, and the
    loop ends without an exception. *)
Theorem backward_loop_accesses_in_bounds
  (E : externals) (rank : Z) (a : args) (s s' : state E) :
  rollout rank a (begin_iteration s) = Ok s' ->
  let b := buf s' in
  let vs := values b ++ [bootstrap_value s'] in
  length vs = S (length (rewards b))
  /\ length (log_probs b) = length (rewards b)
  /\ length (entropies b) = length (rewards b)
  /\ (forall i : nat, (i < length (rewards b))%nat ->
      exists v_next v lp e r,
        index vs (i + 1) = Ok v_next /\ index vs i = Ok v
        /\ index (log_probs b) i = Ok lp /\ index (entropies b) i = Ok e
        /\ index (rewards b) i = Ok r)
  /\ (exists losses,
        Gae.compute_losses a (values b) (log_probs b) (rewards b)
          (entropies b) (bootstrap_value s') = Ok losses).
Proof.
  intros H b vs.
  destruct (rollout_balanced E rank a s s' H) as [Hv [Hl He]].
  fold b in Hv, Hl, He.
  assert (Hvs : length vs = S (length (rewards b))).
  { unfold vs. rewrite length_app. simpl. lia. }
  split; [ exact Hvs | ]. split; [ exact Hl | ]. split; [ exact He | ]. split.
  - intros i Hi.
    destruct (index_in_range vs (i + 1)) as [v_next H1]; [ lia | ].
    destruct (index_in_range vs i) as [v H2]; [ lia | ].
    destruct (index_in_range (log_probs b) i) as [lp H3]; [ lia | ].
    destruct (index_in_range (entropies b) i) as [e H4]; [ lia | ].
    destruct (index_in_range (rewards b) i) as [r H5]; [ lia | ].
    exists v_next, v, lp, e, r. repeat split; assumption.
  - eexists. apply compute_losses_backward; assumption.
Qed.

Lemma backward_loop_accesses_in_bounds_witness :
  exists s' : state Scripted.E,
    rollout 0 (Scripted.hyper 2 10 1 1) Scripted.three_answers = Ok s'
    /\ length (values (buf s') ++ [bootstrap_value s'])
       = S (length (rewards (buf s'))).
Proof.
  eexists. split; [ vm_compute; reflexivity | ].
  refine (proj1 (backward_loop_accesses_in_bounds Scripted.E 0
                   (Scripted.hyper 2 10 1 1) Scripted.three_answers _ eq_refl)).
Defined.

(** ** The update and the whole iteration *)

Section UpdateFacts.

Variable E : externals.
Variable rank : Z.
Variable a : args.

(** What [update] does, once the losses are computed. *)
Lemma update_inv (s s' : state E) :
  update a s = Ok s' ->
  exists losses,
    Gae.compute_losses a (values (buf s)) (log_probs (buf s)) (rewards (buf s))
      (entropies (buf s)) (bootstrap_value s) = Ok losses
    /\ rewards (buf s) <> []
    /\ let loss := (Gae.policy_loss losses
                    + value_loss_coef a * Gae.value_loss losses)%Q in
       let zeroed := zero_grad E (tensors (lrn s)) (shared_grads (lrn s)) in
       let back := backprop E (fst zeroed) (model_params (lrn s)) loss
                     (model_grads (lrn s)) in
       let clipped := clip_grad_norm E (fst back) (max_grad_norm a) (snd back) in
       let stepped := optimizer_step E clipped (optimizer (lrn s))
                        (shared_params (lrn s))
                        (ensure_shared_grads (snd back) (snd zeroed)) in
       trace s' = trace s
                  ++ [ZeroGrad; Backward loss; ClipGradNorm; EnsureSharedGrads;
                      OptimizerStep;
                      AddScalar tag_policy_loss (Gae.policy_loss losses)
                        (num_backprops (prog s) + 1);
                      AddScalar tag_value_loss (Gae.value_loss losses)
                        (num_backprops (prog s) + 1)]
       /\ model_grads (lrn s') = snd back
       /\ shared_grads (lrn s') = ensure_shared_grads (snd back) (snd zeroed)
       /\ shared_params (lrn s') = fst stepped
       /\ optimizer (lrn s') = snd stepped
       /\ tensors (lrn s') = clipped
       /\ num_backprops (prog s') = num_backprops (prog s) + 1
       /\ ag s' = ag s /\ mon s' = mon s /\ counter s' = counter s.
Proof.
  intros H.
  destruct (update_ok E a s s' H) as [losses [Hl [Hne Hs']]].
  exists losses. split; [ exact Hl | ]. split; [ exact Hne | ].
  cbv zeta in Hs' |- *. rewrite Hs'. cbn.
  repeat split; reflexivity.
Qed.

Lemma filter_all_false {A : Type} (f : A -> bool) (l : list A) :
  Forall (fun x => f x = false) l -> filter f l = [].
Proof.
  induction 1 as [ | x l Hx _ IH ]; simpl; [ reflexivity | ].
  rewrite Hx. exact IH.
Qed.

(** The events of one iteration: those of the rollout, then those of the
    update. *)
Lemma train_iteration_trace (s s' : state E) :
  train_iteration rank a s = Ok s' ->
  exists evs loss,
    trace s' = trace s ++ evs
    /\ filter is_update_event evs
       = [ZeroGrad; Backward loss; ClipGradNorm; EnsureSharedGrads; OptimizerStep]
    /\ Forall (checkpoint_event_ok rank a) evs.
Proof.
  unfold train_iteration, rollout. intros H.
  apply bind_ok in H. destruct H as [s1 [Hr Hu]].
  destruct (rollout_loop_trace E rank a _ _ _ Hr) as [evs [Htr [Hq Hc]]].
  destruct (update_inv s1 s' Hu) as [losses [_ [_ Hup]]].
  cbv zeta in Hup. destruct Hup as [Htr' _].
  eexists. eexists. split; [ | split ].
  - rewrite Htr', Htr. simpl trace. rewrite <- app_assoc. reflexivity.
  - rewrite filter_app, (filter_all_false _ _ Hq). reflexivity.
  - apply Forall_app; split; [ exact Hc | ].
    repeat (constructor; [ exact I | ]). constructor.
Qed.

Lemma train_loop_trace (n : nat) :
  forall s s' : state E,
  train_loop rank a n s = Ok s' ->
  exists evs,
    trace s' = trace s ++ evs
    /\ Forall (checkpoint_event_ok rank a) evs
    /\ length (filter is_update_event evs) = (5 * n)%nat.
Proof.
  induction n as [ | n IH ]; intros s s' H; simpl in H.
  - injection H as <-. exists []. rewrite app_nil_r.
    repeat split; constructor.
  - apply bind_ok in H. destruct H as [s1 [H1 H2]].
    destruct (train_iteration_trace s s1 H1) as [evs [loss [Htr [Hf Hc]]]].
    destruct (IH s1 s' H2) as [evs' [Htr' [Hc' Hn']]].
    exists (evs ++ evs'). repeat split.
    + rewrite Htr', Htr, <- app_assoc. reflexivity.
    + apply Forall_app; split; assumption.
    + rewrite filter_app, length_app, Hf, Hn'. simpl. lia.
Qed.

End UpdateFacts.

(** ** Gradients of the shared model *)

(** [ensure_shared_grads] writes the shared parameters in front of the
    first one whose gradient is set, and no other. *)
Lemma ensure_shared_grads_prefix {G : Type} (mg : list (option G)) :
  forall sg : list (option G),
  let k := written_prefix mg sg in
  ensure_shared_grads mg sg = firstn k mg ++ skipn k sg
  /\ firstn k sg = repeat None k
  /\ (k <= length mg)%nat /\ (k <= length sg)%nat
  /\ ((k < length mg)%nat -> (k < length sg)%nat ->
      exists g, nth_error sg k = Some (Some g)).
Proof.
  induction mg as [ | g mg IH ]; intros sg.
  - simpl. repeat split; try lia.
  - destruct sg as [ | [ g' | ] sg ].
    + simpl. repeat split; try lia.
    + simpl. repeat split; try lia. intros _ _. exists g'. reflexivity.
    + destruct (IH sg) as [H1 [H2 [H3 [H4 H5]]]].
      cbn [written_prefix ensure_shared_grads firstn skipn repeat length app].
      cbv zeta in H1, H2, H3, H4, H5.
      rewrite H1, H2. repeat split; try lia.
      intros Hm Hs. apply H5; lia.
Qed.

(** C3. In every iteration, after the backward pass and the clipping,
    [ensure_shared_grads] is called once and then [optimizer.step] once,
    in this order.  The call gives each shared parameter in front of the
    first one whose gradient is already set the gradient of the local
    parameter at the same place, and returns at that first one, writing
    neither it nor any later one; the optimizer step is taken on the shared
    parameters with the shared gradients that result. *)
Theorem gradients_shared_once_then_one_optimizer_step
  (E : externals) (rank : Z) (a : args) (s s' : state E) :
  train_iteration rank a s = Ok s' ->
  (exists evs loss,
      trace s' = trace s ++ evs
      /\ filter is_update_event evs
         = [ZeroGrad; Backward loss; ClipGradNorm; EnsureSharedGrads;
            OptimizerStep])
  /\ (let l0 := lrn (begin_iteration s) in
      let zeroed := snd (zero_grad E (tensors l0) (shared_grads l0)) in
      let k := written_prefix (model_grads (lrn s')) zeroed in
      shared_grads (lrn s') = ensure_shared_grads (model_grads (lrn s')) zeroed
      /\ shared_grads (lrn s') = firstn k (model_grads (lrn s')) ++ skipn k zeroed
      /\ firstn k zeroed = repeat None k
      /\ ((k < length (model_grads (lrn s')))%nat -> (k < length zeroed)%nat ->
          exists g, nth_error zeroed k = Some (Some g))
      /\ (shared_params (lrn s'), optimizer (lrn s'))
         = optimizer_step E (tensors (lrn s')) (optimizer l0) (shared_params l0)
             (shared_grads (lrn s'))).
Proof.
  intros H. split.
  - destruct (train_iteration_trace E rank a s s' H) as [evs [loss [Htr [Hf _]]]].
    exists evs, loss. split; assumption.
  - unfold train_iteration, rollout in H.
    apply bind_ok in H. destruct H as [s1 [Hr Hu]].
    destruct (rollout_loop_steps E rank a _ _ _ Hr)
      as [k' [_ [_ [_ [_ [_ [_ [_ [_ Hl]]]]]]]]].
    destruct (update_inv E a s1 s' Hu) as [losses [_ [_ Hup]]].
    cbv zeta in Hup.
    destruct Hup as [_ [Hmg [Hsg [Hsp [Hop [Ht _]]]]]].
    rewrite Hl in Hmg, Hsg, Hsp, Hop, Ht.
    intros l0 zeroed k. fold l0 in Hmg, Hsg, Hsp, Hop, Ht.
    assert (Hens : shared_grads (lrn s')
                   = ensure_shared_grads (model_grads (lrn s')) zeroed).
    { rewrite Hsg, Hmg. reflexivity. }
    destruct (ensure_shared_grads_prefix (model_grads (lrn s')) zeroed)
      as [P1 [P2 [_ [_ P5]]]].
    fold k in P1, P2, P5.
    split; [ exact Hens | ].
    split; [ rewrite Hens; exact P1 | ].
    split; [ exact P2 | ].
    split; [ exact P5 | ].
    rewrite Hsp, Hop, Ht, Hsg. symmetry. apply surjective_pairing.
Qed.

Lemma gradients_shared_once_then_one_optimizer_step_witness :
  exists s' : state Scripted.E,
    train_iteration 0 (Scripted.hyper 2 10 1 1) Scripted.three_answers = Ok s'
    /\ shared_grads (lrn s') = model_grads (lrn s')
    /\ exists evs loss,
         trace s' = trace Scripted.three_answers ++ evs
         /\ filter is_update_event evs
            = [ZeroGrad; Backward loss; ClipGradNorm; EnsureSharedGrads;
               OptimizerStep].
Proof.
  eexists. split; [ vm_compute; reflexivity | ].
  split; [ reflexivity | ].
  refine (proj1 (gradients_shared_once_then_one_optimizer_step Scripted.E 0
                   (Scripted.hyper 2 10 1 1) Scripted.three_answers _ _)).
  vm_compute. reflexivity.
Defined.

(** ** Checkpoints *)

Lemma checkpoint_due_false (rank : Z) (a : args) (tl : Z) :
  checkpoint_due rank a tl = Ok false -> ~ on_cadence rank a tl.
Proof.
  unfold checkpoint_due, floordiv, pymod, on_cadence.
  intros H [Hr [Ht Hm]].
  rewrite (proj2 (Z.eqb_eq rank 0) Hr) in H.
  rewrite (proj2 (Z.gtb_lt tl 0) Ht) in H.
  destruct (num_processes a =? 0); [ discriminate | ]. simpl in H.
  destruct (checkpoint_freq a / num_processes a =? 0); [ discriminate | ].
  simpl in H. rewrite Hm in H. discriminate.
Qed.

(** ** The best rolling average *)

Section BestFacts.

Variable E : externals.
Variable rank : Z.
Variable a : args.

Lemma monitor_step_best (m : monitor) (step : Q * bool) :
  best_avg_episode_return (monitor_step m step) = best_avg_episode_return m.
Proof.
  unfold monitor_step, append_reward, episode_over.
  destruct (snd step); [ | reflexivity ].
  destruct (_ <? _)%nat; reflexivity.
Qed.

Lemma rollout_loop_best (n : nat) :
  forall s s' : state E,
  rollout_loop rank a n s = Ok s' ->
  best_avg_episode_return (mon s') = best_avg_episode_return (mon s).
Proof.
  induction n as [ | n IH ]; intros s s' H; simpl in H.
  - injection H as <-. reflexivity.
  - apply bind_ok in H. destruct H as [s1 [H1 H2]].
    destruct (rollout_step_inv E rank a s s1 H1) as [evs [_ [_ [Hs1 _]]]].
    assert (Hb : best_avg_episode_return (mon s1)
                 = best_avg_episode_return (mon s)).
    { rewrite Hs1, env_interaction_mon. apply monitor_step_best. }
    destruct (done (ag s1)).
    + injection H2 as <-. exact Hb.
    + rewrite (IH s1 s' H2). exact Hb.
Qed.

(** No statement of the loop assigns [best_avg_episode_return]: it keeps
    the value it has when the loop starts. *)
Lemma train_loop_best (n : nat) :
  forall s s' : state E,
  train_loop rank a n s = Ok s' ->
  best_avg_episode_return (mon s') = best_avg_episode_return (mon s).
Proof.
  induction n as [ | n IH ]; intros s s' H; simpl in H.
  - injection H as <-. reflexivity.
  - apply bind_ok in H. destruct H as [s1 [H1 H2]].
    rewrite (IH s1 s' H2).
    unfold train_iteration, rollout in H1.
    apply bind_ok in H1. destruct H1 as [s2 [Hr Hu]].
    destruct (update_inv E a s2 s1 Hu) as [losses [_ [_ Hup]]].
    cbv zeta in Hup.
    destruct Hup as [_ [_ [_ [_ [_ [_ [_ [_ [Hm _]]]]]]]]].
    rewrite Hm. apply (rollout_loop_best _ _ _ Hr).
Qed.

End BestFacts.

(** C6, on the code.  Process 0 plays twelve episodes: after the eleventh
    the rolling average is 5, after the twelfth it is 3.  The checkpoint
    written next, at [total_length = 12], is copied to [model_best] all the
    same, as the one at [total_length = 11] was: [best_avg_episode_return]
    is still [-inf], the loop never assigns it. *)
Theorem lower_average_is_still_marked_best :
  match train_loop 0 Scripted.every_step 12 Scripted.twelve_episodes with
  | Raise _ => False
  | Ok s12 =>
      total_length (prog s12) = 12
      /\ Forall2 Qeq (avg_episode_returns (mon s12)) [5; 3]%Q
      /\ match avg_episode_return (mon s12) with
         | Fin q => (q == 3)%Q
         | NegInf => False
         end
      /\ best_avg_episode_return (mon s12) = NegInf
      /\ best_so_far (mon s12) = true
      /\ match maybe_checkpoint 0 Scripted.every_step s12 with
         | Raise _ => False
         | Ok s' =>
             skipn 10 (checkpoint_log (trace s'))
             = [(11, false); (11, true); (12, false); (12, true)]
         end
  end.
Proof.
  vm_compute.
  split; [ reflexivity | ].
  split; [ repeat constructor | ].
  split; [ reflexivity | ].
  split; [ reflexivity | ].
  split; reflexivity.
Qed.

(** ** The total logged for an episode *)

Lemma episode_over_totals (m : monitor) :
  episode_total_rewards_list (episode_over m)
  = episode_total_rewards_list m ++ [sum (all_rewards_in_episode m)]
  /\ all_rewards_in_episode (episode_over m) = [].
Proof.
  unfold episode_over. destruct (_ <? _)%nat; split; reflexivity.
Qed.

(** Steps that do not end the episode only extend the accumulator. *)
Lemma monitor_run_running (rs : list Q) :
  forall m : monitor,
  all_rewards_in_episode (monitor_run m (running rs))
  = all_rewards_in_episode m ++ rs
  /\ episode_total_rewards_list (monitor_run m (running rs))
     = episode_total_rewards_list m.
Proof.
  induction rs as [ | r rs IH ]; intros m.
  - simpl. rewrite app_nil_r. split; reflexivity.
  - destruct (IH (monitor_step m (r, false))) as [H1 H2].
    unfold monitor_run in *. unfold running in *.
    cbn [map fold_left]. rewrite H1, H2.
    unfold monitor_step; simpl. rewrite <- app_assoc. split; reflexivity.
Qed.

(** An episode with the rewards [rs] and then [r_last]: the total that
    is recorded is the sum of what the accumulator held when the episode
    began and of [rs]; [r_last] is what the accumulator holds afterwards. *)
Lemma monitor_run_episode (rs : list Q) (r_last : Q) (m : monitor) :
  let m' := monitor_run m (running rs ++ [(r_last, true)]) in
  episode_total_rewards_list m'
  = episode_total_rewards_list m ++ [sum (all_rewards_in_episode m ++ rs)]
  /\ all_rewards_in_episode m' = [r_last].
Proof.
  unfold monitor_run. rewrite fold_left_app. simpl.
  destruct (monitor_run_running rs m) as [H1 H2].
  unfold monitor_run in H1, H2.
  set (m1 := fold_left monitor_step (running rs) m) in *.
  destruct (episode_over_totals m1) as [T1 T2].
  unfold monitor_step, append_reward; simpl.
  rewrite T1, T2, H1, H2. split; reflexivity.
Qed.

(** C10. In a step that ends an episode the total that is recorded and
    logged is the sum of [all_rewards_in_episode] as it is before the
    step's reward is appended; the accumulator is then emptied and the
    reward appended, so that it starts the next episode's accumulator.
    Over whole episodes: the total of an episode leaves out its last
    reward and takes in the last reward of the episode before it. *)
Theorem logged_total_excludes_last_reward
  (E : externals) (rank : Z) (a : args) (s : state E) :
  let s' := env_interaction rank a s in
  let r := o_reward (interact s) in
  let before := all_rewards_in_episode (mon s) in
  (done (ag s') = true ->
   episode_total_rewards_list (mon s')
   = episode_total_rewards_list (mon s) ++ [sum before]
   /\ all_rewards_in_episode (mon s') = [r]
   /\ (rank = 0 ->
       In (AddScalar tag_episode_total_rewards (sum before)
             (episode_number (prog s))) (trace s')))
  /\ (done (ag s') = false ->
      episode_total_rewards_list (mon s') = episode_total_rewards_list (mon s)
      /\ all_rewards_in_episode (mon s') = before ++ [r])
  /\ mon s' = monitor_step (mon s) (r, done (ag s'))
  /\ (forall (m : monitor) (rs1 rs2 : list Q) (last1 last2 : Q),
        let m' := monitor_run m (running rs1 ++ [(last1, true)]
                                 ++ running rs2 ++ [(last2, true)]) in
        episode_total_rewards_list m'
        = episode_total_rewards_list m
          ++ [sum (all_rewards_in_episode m ++ rs1); sum (last1 :: rs2)]
        /\ all_rewards_in_episode m' = [last2]).
Proof.
  intros s' r before.
  assert (Hm : mon s' = monitor_step (mon s) (r, done (ag s'))).
  { unfold s'. rewrite env_interaction_done. apply env_interaction_mon. }
  split; [ | split; [ | split ] ].
  - intros Hd. rewrite Hm, Hd. unfold monitor_step; simpl.
    destruct (episode_over_totals (mon s)) as [T1 T2].
    rewrite T1, T2. split; [ reflexivity | ]. split; [ reflexivity | ].
    intros Hr. unfold s' in *. rewrite env_interaction_done in Hd.
    unfold env_interaction.
    destruct (unpack_state E (o_state (interact s))) as [img ins].
    rewrite Hd.
    destruct (env_reset E (o_env (interact s))) as [w3 st0].
    destruct (unpack_state E st0) as [img0 ins0].
    cbn [trace]. apply in_or_app. right. apply in_or_app. right.
    apply in_or_app. left. unfold episode_events.
    apply in_or_app. right. rewrite Hr. simpl. right. left. reflexivity.
  - intros Hd. rewrite Hm, Hd. unfold monitor_step; simpl.
    split; reflexivity.
  - exact Hm.
  - intros m rs1 rs2 last1 last2 m'. unfold m', monitor_run.
    rewrite app_assoc, fold_left_app.
    destruct (monitor_run_episode rs1 last1 m) as [A1 A2].
    unfold monitor_run in A1, A2.
    set (m1 := fold_left monitor_step (running rs1 ++ [(last1, true)]) m) in *.
    destruct (monitor_run_episode rs2 last2 m1) as [B1 B2].
    unfold monitor_run in B1, B2.
    rewrite B1, B2, A1, A2. rewrite <- app_assoc. split; reflexivity.
Qed.

(** ** The divisor of the checkpoint test *)

(** C9, as stated, fails: with [checkpoint_freq = -1] and
    [num_processes = 2] the frequency is below the number of processes,
    yet [-1 // 2] is [-1], not 0, and the step of process 0 at
    [total_length = 4] raises nothing. *)
Lemma negative_checkpoint_freq_divisor_not_zero :
  checkpoint_freq Scripted.negative_args < num_processes Scripted.negative_args
  /\ total_length (prog Scripted.negative) = 4
  /\ floordiv (checkpoint_freq Scripted.negative_args)
       (num_processes Scripted.negative_args) = Ok (-1)
  /\ exists s' : state Scripted.E,
       rollout_step 0 Scripted.negative_args Scripted.negative = Ok s'.
Proof.
  split; [ reflexivity | ]. split; [ reflexivity | ]. split; [ reflexivity | ].
  eexists. vm_compute. reflexivity.
Qed.

(** C9, amended.  The checkpoint test of process 0 takes [total_length]
    modulo [checkpoint_freq // num_processes].  When
    [0 <= checkpoint_freq < num_processes] the divisor is 0 and a step of
    process 0 with a positive [total_length] raises [ZeroDivisionError],
    and with it the rollout and the iteration that begin with such a step;
    so for a non-negative [checkpoint_freq] such a step succeeds only if
    [checkpoint_freq >= num_processes]. *)
Theorem zero_checkpoint_divisor_raises
  (E : externals) (rank : Z) (a : args) (s : state E) :
  rank = 0 -> 0 < total_length (prog s) -> 0 <= checkpoint_freq a ->
  (checkpoint_freq a < num_processes a ->
   floordiv (checkpoint_freq a) (num_processes a) = Ok 0
   /\ pymod (total_length (prog s)) 0 = Raise ZeroDivisionError
   /\ rollout_step rank a s = Raise ZeroDivisionError
   /\ (0 < num_steps a ->
       rollout rank a s = Raise ZeroDivisionError
       /\ train_iteration rank a s = Raise ZeroDivisionError))
  /\ (forall s' : state E,
        rollout_step rank a s = Ok s' -> num_processes a <= checkpoint_freq a).
Proof.
  intros Hr Ht Hc.
  assert (Hlow : checkpoint_freq a < num_processes a ->
                 floordiv (checkpoint_freq a) (num_processes a) = Ok 0
                 /\ forall s0 : state E,
                      total_length (prog s0) = total_length (prog s) ->
                      rollout_step rank a s0 = Raise ZeroDivisionError).
  { intros Hlt.
    assert (Hd : checkpoint_freq a / num_processes a = 0)
      by (apply Z.div_small; lia).
    assert (Hf : floordiv (checkpoint_freq a) (num_processes a) = Ok 0).
    { unfold floordiv.
      rewrite (proj2 (Z.eqb_neq (num_processes a) 0)) by lia.
      rewrite Hd. reflexivity. }
    split; [ exact Hf | ].
    intros s0 Hs0.
    unfold rollout_step, maybe_checkpoint, checkpoint_due.
    rewrite Hs0, (proj2 (Z.eqb_eq rank 0) Hr).
    rewrite (proj2 (Z.gtb_lt _ _) Ht), Hf. reflexivity. }
  split.
  - intros Hlt. destruct (Hlow Hlt) as [Hf Hstep].
    split; [ exact Hf | ]. split; [ reflexivity | ].
    split; [ apply Hstep; reflexivity | ].
    intros Hn.
    assert (Hloop : forall s0 : state E,
              total_length (prog s0) = total_length (prog s) ->
              rollout rank a s0 = Raise ZeroDivisionError).
    { intros s0 Hs0. unfold rollout.
      destruct (Z.to_nat (num_steps a)) as [ | n ] eqn:Hk; [ lia | ].
      simpl. rewrite (Hstep s0 Hs0). reflexivity. }
    split; [ apply Hloop; reflexivity | ].
    unfold train_iteration. rewrite (Hloop (begin_iteration s) eq_refl).
    reflexivity.
  - intros s' Hs'.
    destruct (Z_lt_le_dec (checkpoint_freq a) (num_processes a)) as [Hlt | Hle];
      [ | exact Hle ].
    destruct (Hlow Hlt) as [_ Hstep].
    rewrite (Hstep s eq_refl) in Hs'. discriminate.
Qed.

Lemma zero_checkpoint_divisor_raises_witness :
  floordiv (checkpoint_freq Scripted.sparse_args)
    (num_processes Scripted.sparse_args) = Ok 0
  /\ rollout_step 0 Scripted.sparse_args Scripted.sparse
     = Raise ZeroDivisionError.
Proof.
  assert (H0 : 0 = 0) by reflexivity.
  assert (H1 : 0 < total_length (prog Scripted.sparse)) by reflexivity.
  assert (H2 : 0 <= checkpoint_freq Scripted.sparse_args)
    by (vm_compute; discriminate).
  assert (H3 : checkpoint_freq Scripted.sparse_args
               < num_processes Scripted.sparse_args) by reflexivity.
  destruct (proj1 (zero_checkpoint_divisor_raises Scripted.E 0
                     Scripted.sparse_args Scripted.sparse H0 H1 H2) H3)
    as [Hf [_ [Hs _]]].
  split; [ exact Hf | exact Hs ].
Defined.

(** ** The shared counter *)

Lemma wrap32_range (n : Z) : INT_MIN <= wrap32 n <= INT_MAX.
Proof.
  unfold wrap32, INT_MIN, INT_MAX.
  pose proof (Z.mod_pos_bound (n + 2 ^ 31) (2 ^ 32) ltac:(lia)). lia.
Qed.

Lemma wrap32_small (n : Z) : INT_MIN <= n <= INT_MAX -> wrap32 n = n.
Proof.
  unfold wrap32, INT_MIN, INT_MAX. intros H.
  rewrite Z.mod_small by lia. lia.
Qed.

Lemma wrap32_succ (n : Z) : wrap32 (wrap32 n + 1) = wrap32 (n + 1).
Proof.
  unfold wrap32.
  replace ((n + 2 ^ 31) mod 2 ^ 32 - 2 ^ 31 + 1 + 2 ^ 31)
    with ((n + 2 ^ 31) mod 2 ^ 32 + 1) by lia.
  rewrite Zplus_mod_idemp_l.
  replace (n + 2 ^ 31 + 1) with (n + 1 + 2 ^ 31) by lia.
  reflexivity.
Qed.

Module LockedCounterFacts.

Import LockedCounter.

Lemma nth_set_pc_same (l : list pc) :
  forall (w : nat) (p q : pc),
  nth_error l w = Some q -> nth_error (set_pc w p l) w = Some p.
Proof.
  induction l as [ | x l IH ]; intros w p q H; destruct w; simpl in *;
    try discriminate; [ reflexivity | apply (IH w p q H) ].
Qed.

Lemma nth_set_pc_other (l : list pc) :
  forall (w w' : nat) (p : pc),
  w <> w' -> nth_error (set_pc w p l) w' = nth_error l w'.
Proof.
  induction l as [ | x l IH ]; intros w w' p H; destruct w, w'; simpl;
    try reflexivity; [ congruence | apply IH; congruence ].
Qed.

Lemma count_pending_set_pc (l : list pc) :
  forall (w : nat) (p q : pc),
  nth_error l w = Some q ->
  (count_pending (set_pc w p l) + Nat.b2n (pending q)
   = count_pending l + Nat.b2n (pending p))%nat.
Proof.
  unfold count_pending.
  induction l as [ | x l IH ]; intros w p q H; destruct w; simpl in *;
    try discriminate.
  - injection H as ->. destruct (pending p), (pending q); simpl; lia.
  - specialize (IH w p q H). destruct (pending x); simpl; lia.
Qed.

Lemma init_invariant (n : nat) : invariant (init n).
Proof.
  unfold invariant, init; simpl.
  assert (Hall : forall w p, nth_error (repeat Interacting n) w = Some p ->
                             p = Interacting).
  { intros w p H. apply nth_error_In in H.
    apply repeat_spec in H. exact H. }
  repeat split.
  - intros w p H Hc. rewrite (Hall w p H) in Hc. discriminate.
  - intros w v H. apply Hall in H. discriminate.
  - unfold count_pending. induction n as [ | n IH ]; simpl; [ reflexivity | ].
    apply IH. intros w p H. apply (Hall (S w) p). exact H.
Qed.

(** A step of a process keeps the invariant. *)
Lemma exec_invariant (w : nat) (c : config) :
  invariant c -> invariant (exec w c).
Proof.
  intros Hinv. pose proof Hinv as [Hcs [Hld [Hval Hint]]]. unfold exec.
  destruct (nth_error (pcs c) w) as [ p | ] eqn:Hp; [ | exact Hinv ].
  assert (Hother : forall (p' : pc) (w' : nat) (q : pc),
            nth_error (set_pc w p' (pcs c)) w' = Some q ->
            (w' = w /\ q = p') \/ (w' <> w /\ nth_error (pcs c) w' = Some q)).
  { intros p' w' q H. destruct (Nat.eq_dec w w') as [ <- | Hne ].
    - rewrite (nth_set_pc_same _ w p' p Hp) in H. injection H as <-.
      left. split; reflexivity.
    - rewrite nth_set_pc_other in H by exact Hne.
      right. split; [ congruence | exact H ]. }
  pose proof (count_pending_set_pc (pcs c) w) as Hcount.
  destruct p as [ | | | v | ].
  - (* env.step returns *)
    unfold invariant; simpl. repeat split.
    + intros w' q H Hq. destruct (Hother _ _ _ H) as [[-> ->] | [_ H']];
        [ discriminate | exact (Hcs w' q H' Hq) ].
    + intros w' v H. destruct (Hother _ _ _ H) as [[_ Heq] | [_ H']];
        [ discriminate | exact (Hld w' v H') ].
    + exact Hval.
    + specialize (Hcount Waiting Interacting Hp). simpl in Hcount. lia.
  - (* with lock: *)
    destruct (lock c) as [ h | ] eqn:Hlock; [ exact Hinv | ].
    unfold invariant; simpl. repeat split.
    + intros w' q H Hq. destruct (Hother _ _ _ H) as [[-> _] | [_ H']];
        [ reflexivity | ].
      specialize (Hcs w' q H' Hq). congruence.
    + intros w' v H. destruct (Hother _ _ _ H) as [[_ Heq] | [_ H']];
        [ discriminate | exact (Hld w' v H') ].
    + exact Hval.
    + specialize (Hcount Holding Waiting Hp). simpl in Hcount. lia.
  - (* load *)
    unfold invariant; simpl. repeat split.
    + intros w' q H Hq. destruct (Hother _ _ _ H) as [[-> _] | [_ H']];
        [ exact (Hcs w Holding Hp eq_refl) | exact (Hcs w' q H' Hq) ].
    + intros w' v H. destruct (Hother _ _ _ H) as [[_ Heq] | [_ H']];
        [ congruence | exact (Hld w' v H') ].
    + exact Hval.
    + specialize (Hcount (Loaded (value c)) Holding Hp). simpl in Hcount. lia.
  - (* store *)
    pose proof (Hcs w (Loaded v) Hp eq_refl) as Hmine.
    pose proof (Hld w v Hp) as Hv.
    unfold invariant; simpl. repeat split.
    + intros w' q H Hq. destruct (Hother _ _ _ H) as [[-> _] | [_ H']];
        [ exact Hmine | exact (Hcs w' q H' Hq) ].
    + intros w' v' H. destruct (Hother _ _ _ H) as [[_ Heq] | [Hne H']];
        [ discriminate | ].
      pose proof (Hcs w' (Loaded v') H' eq_refl) as Htheirs. congruence.
    + rewrite Hv, Hval, wrap32_succ. f_equal. lia.
    + specialize (Hcount Stored (Loaded v) Hp). simpl in Hcount. lia.
  - (* release *)
    pose proof (Hcs w Stored Hp eq_refl) as Hmine.
    unfold invariant; simpl. repeat split.
    + intros w' q H Hq. destruct (Hother _ _ _ H) as [[_ ->] | [Hne H']];
        [ discriminate | ].
      pose proof (Hcs w' q H' Hq) as Htheirs. congruence.
    + intros w' v H. destruct (Hother _ _ _ H) as [[_ Heq] | [_ H']];
        [ discriminate | exact (Hld w' v H') ].
    + exact Hval.
    + specialize (Hcount Interacting Stored Hp). simpl in Hcount. lia.
Qed.

Lemma run_invariant (schedule : list nat) :
  forall c : config, invariant c -> invariant (run schedule c).
Proof.
  induction schedule as [ | w schedule IH ]; intros c H; simpl.
  - exact H.
  - apply IH. apply exec_invariant. exact H.
Qed.

(** A step changes the counter only by the store of the lock's holder,
    and the store adds 1 to the current value, as a C [int]. *)
Lemma exec_value (w : nat) (c : config) :
  invariant c ->
  (value (exec w c) = value c /\ stores (exec w c) = stores c)
  \/ (value (exec w c) = wrap32 (value c + 1)
      /\ stores (exec w c) = S (stores c)
      /\ lock c = Some w
      /\ nth_error (pcs c) w = Some (Loaded (value c))).
Proof.
  intros [Hcs [Hld _]]. unfold exec.
  destruct (nth_error (pcs c) w) as [ p | ] eqn:Hp;
    [ | left; split; reflexivity ].
  destruct p as [ | | | v | ]; try (left; split; reflexivity).
  - destruct (lock c); left; split; reflexivity.
  - right. pose proof (Hld w v Hp) as ->. simpl.
    repeat split. exact (Hcs w _ Hp eq_refl).
Qed.

(** One process alone, once round its cycle of five steps, and the value
    of the counter after the first four of them. *)
Lemma single_process_round (v : Z) (i st : nat) :
  run (repeat 0%nat 5)
    {| lock := None; value := v; pcs := [Interacting];
       interactions := i; stores := st |}
  = {| lock := None; value := wrap32 (v + 1); pcs := [Interacting];
       interactions := S i; stores := S st |}.
Proof. reflexivity. Qed.

Lemma single_process_store (v : Z) (i st : nat) :
  value (run (repeat 0%nat 4)
           {| lock := None; value := v; pcs := [Interacting];
              interactions := i; stores := st |})
  = wrap32 (v + 1).
Proof. reflexivity. Qed.

(** One process alone, [n] times round its cycle of five steps. *)
Lemma single_process_rounds (n : nat) :
  run (repeat 0%nat (5 * n)) (init 1)
  = {| lock := None; value := wrap32 (Z.of_nat n); pcs := [Interacting];
       interactions := n; stores := n |}.
Proof.
  induction n as [ | n IH ].
  - reflexivity.
  - replace (5 * S n)%nat with (5 * n + 5)%nat by lia.
    rewrite repeat_app. unfold run at 1. rewrite fold_left_app.
    fold (run (repeat 0%nat (5 * n)) (init 1)). rewrite IH.
    fold (run (repeat 0%nat 5)
            {| lock := None; value := wrap32 (Z.of_nat n);
               pcs := [Interacting]; interactions := n; stores := n |}).
    rewrite single_process_round, wrap32_succ.
    f_equal. f_equal. lia.
Qed.

(** After as many rounds as the largest C [int] the counter holds it, and
    the next store wraps around. *)
Lemma single_process_overflow (n : nat) :
  Z.of_nat n = INT_MAX ->
  value (run (repeat 0%nat (5 * n)) (init 1)) = INT_MAX
  /\ value (run (repeat 0%nat (5 * n + 4)) (init 1)) = INT_MIN.
Proof.
  intros Hn.
  assert (Hmax : wrap32 (Z.of_nat n) = INT_MAX) by (rewrite Hn; reflexivity).
  split.
  - rewrite single_process_rounds. exact Hmax.
  - rewrite repeat_app. unfold run at 1. rewrite fold_left_app.
    fold (run (repeat 0%nat (5 * n)) (init 1)).
    rewrite single_process_rounds.
    fold (run (repeat 0%nat 4)
            {| lock := None; value := wrap32 (Z.of_nat n);
               pcs := [Interacting]; interactions := n; stores := n |}).
    rewrite single_process_store, Hmax. reflexivity.
Qed.

End LockedCounterFacts.

(** C4, as stated, fails in its last part: the counter is a C [int].
    A process that finds it at 2147483647 leaves it at -2147483648 after
    its interaction; and that value is reached from the initial 0, for
    instance by one process alone after 2147483647 interactions. *)
Lemma counter_decreases_at_int_max :
  (counter Scripted.counter_at_max = INT_MAX
   /\ counter (env_interaction 0 (Scripted.hyper 2 10 1 1)
                 Scripted.counter_at_max) = INT_MIN)
  /\ (exists n : nat,
        Z.of_nat n = INT_MAX
        /\ LockedCounter.value
             (LockedCounter.run (repeat 0%nat (5 * n)) (LockedCounter.init 1))
           = INT_MAX
        /\ LockedCounter.value
             (LockedCounter.run (repeat 0%nat (5 * n + 4))
                (LockedCounter.init 1))
           = INT_MIN).
Proof.
  split.
  - split; [ reflexivity | ].
    rewrite env_interaction_counter. reflexivity.
  - assert (Hpos : 0 <= INT_MAX) by (unfold INT_MAX; lia).
    exists (Z.to_nat INT_MAX).
    split; [ exact (Z2Nat.id INT_MAX Hpos) | ].
    exact (LockedCounterFacts.single_process_overflow (Z.to_nat INT_MAX)
             (Z2Nat.id INT_MAX Hpos)).
Qed.

(** C4, amended.  In every interaction of a process the counter is
    incremented by exactly 1 as a 32-bit signed integer, right after
    [env.step]; and among any number of processes the store that
    increments it is made by the process that holds the lock, on the value
    the counter has at that moment, so that no increment is lost and the
    counter holds the number of increments, as a C [int].  The counter
    does not decrease as long as it is below 2147483647. *)
Theorem counter_incremented_once_per_interaction
  (E : externals) (rank : Z) (a : args) (s : state E) :
  (let s' := env_interaction rank a s in
   counter s' = wrap32 (counter s + 1)
   /\ (INT_MIN <= counter s < INT_MAX -> counter s' = counter s + 1)
   /\ exists rest,
        trace s' = trace s ++ EnvStep (o_action (interact s))
                               :: CounterIncrement :: rest
        /\ Forall (fun e => is_step_event e = false) rest)
  /\ (forall (n : nat) (schedule : list nat) (w : nat),
        let c := LockedCounter.run schedule (LockedCounter.init n) in
        let c' := LockedCounter.exec w c in
        LockedCounter.invariant c
        /\ ((LockedCounter.value c' = LockedCounter.value c
             /\ LockedCounter.stores c' = LockedCounter.stores c)
            \/ (LockedCounter.value c' = wrap32 (LockedCounter.value c + 1)
                /\ LockedCounter.stores c' = S (LockedCounter.stores c)
                /\ LockedCounter.lock c = Some w
                /\ nth_error (LockedCounter.pcs c) w
                   = Some (LockedCounter.Loaded (LockedCounter.value c))))
        /\ LockedCounter.value c = wrap32 (Z.of_nat (LockedCounter.stores c))
        /\ LockedCounter.interactions c
           = (LockedCounter.stores c
              + LockedCounter.count_pending (LockedCounter.pcs c))%nat
        /\ (LockedCounter.value c < INT_MAX ->
            LockedCounter.value c <= LockedCounter.value c')).
Proof.
  split.
  - intros s'. unfold s'. split; [ apply env_interaction_counter | ].
    split.
    + intros Hr. rewrite env_interaction_counter.
      apply wrap32_small. unfold INT_MIN, INT_MAX in *. lia.
    + destruct (env_interaction_trace E rank a s) as [rest [Htr Hrest]].
      exists rest. split; [ exact Htr | ].
      eapply Forall_impl; [ | exact Hrest ]. intros e He. apply He.
  - intros n schedule w c c'.
    assert (Hinv : LockedCounter.invariant c).
    { apply LockedCounterFacts.run_invariant.
      apply LockedCounterFacts.init_invariant. }
    pose proof (LockedCounterFacts.exec_value w c Hinv) as Hstep.
    fold c' in Hstep.
    destruct Hinv as [Hcs [Hld [Hval Hint]]].
    split; [ repeat split; assumption | ].
    split; [ exact Hstep | ]. split; [ exact Hval | ]. split; [ exact Hint | ].
    intros Hlt.
    destruct Hstep as [[Hsame _] | [Hinc _]].
    + rewrite Hsame. lia.
    + rewrite Hinc.
      pose proof (wrap32_range (Z.of_nat (LockedCounter.stores c))) as Hrange.
      rewrite <- Hval in Hrange.
      rewrite wrap32_small by (unfold INT_MIN, INT_MAX in *; lia). lia.
Qed.

(** * Further properties of the code *)

(** ** [ensure_shared_grads] *)

(** X1. [ensure_shared_grads] keeps the number of shared gradient slots,
    never replaces a shared gradient that is set, and a second call with
    the same local gradients changes nothing. *)
Theorem ensure_shared_grads_keeps_set_gradients
  {G : Type} (mg sg : list (option G)) :
  length (ensure_shared_grads mg sg) = length sg
  /\ (forall (i : nat) (g : G),
        nth_error sg i = Some (Some g) ->
        nth_error (ensure_shared_grads mg sg) i = Some (Some g))
  /\ ensure_shared_grads mg (ensure_shared_grads mg sg)
     = ensure_shared_grads mg sg.
Proof.
  revert sg; induction mg as [ | m mg IH ]; intros sg.
  - simpl. repeat split; auto.
  - destruct sg as [ | [ s | ] sg ].
    + simpl. repeat split; auto.
    + simpl. repeat split; auto.
    + destruct (IH sg) as [Hlen [Hkeep Hidem]].
      cbn [ensure_shared_grads length]. split; [ | split ].
      * rewrite Hlen. reflexivity.
      * intros i g Hi. destruct i as [ | i ]; simpl in *;
          [ discriminate | apply Hkeep; exact Hi ].
      * destruct m as [ g | ]; [ reflexivity | ].
        rewrite Hidem. reflexivity.
Qed.

(** X2. First writer wins: once a call has been made with a local model
    whose first parameter has a gradient, a later call, with whatever
    local gradients, leaves the shared gradients as they are. *)
Theorem ensure_shared_grads_first_writer_wins
  {G : Type} (mg mg' sg : list (option G)) (g : G) :
  hd_error mg = Some (Some g) ->
  ensure_shared_grads mg' (ensure_shared_grads mg sg)
  = ensure_shared_grads mg sg.
Proof.
  intros Hg. destruct mg as [ | m mg ]; [ discriminate | ].
  simpl in Hg. injection Hg as ->.
  destruct sg as [ | [ s | ] sg ]; simpl.
  - destruct mg'; reflexivity.
  - destruct mg'; reflexivity.
  - destruct mg'; reflexivity.
Qed.

Lemma ensure_shared_grads_first_writer_wins_witness :
  ensure_shared_grads [Some 7; Some 8] (ensure_shared_grads [Some 1; Some 2] [None; None])
  = [Some 1; Some 2].
Proof.
  rewrite (ensure_shared_grads_first_writer_wins
             [Some 1; Some 2] [Some 7; Some 8] [None; None] 1 eq_refl).
  reflexivity.
Defined.

(** ** The losses *)

Section LossProperties.

Variable a : args.

Local Open Scope Q_scope.

Lemma backward_value_loss_nonneg (vs lps rs es : list Q) (v_boot : Q) :
  0 <= Gae.value_loss (Gae.backward a vs lps rs es v_boot).
Proof.
  revert lps rs es; induction vs as [ | v vs IH ]; intros lps rs es.
  - simpl. apply Qle_refl.
  - destruct lps as [ | lp lps ]; [ simpl; apply Qle_refl | ].
    destruct rs as [ | r rs ]; [ simpl; apply Qle_refl | ].
    destruct es as [ | e es ]; [ simpl; apply Qle_refl | ].
    cbn [Gae.backward Gae.value_loss].
    set (d := gamma a * Gae.R (Gae.backward a vs lps rs es v_boot) + r - v).
    assert (Hsq : 0 <= (1 # 2) * d ^ 2).
    { assert (Hd : d ^ 2 == d * d) by (simpl; ring).
      rewrite Hd. apply Qmult_le_0_compat; [ discriminate | ].
      destruct (Qlt_le_dec d 0) as [Hneg | Hpos].
      - setoid_replace (d * d) with ((- d) * (- d)) by ring.
        apply Qmult_le_0_compat;
          apply (Qopp_le_compat d 0); apply Qlt_le_weak; exact Hneg.
      - apply Qmult_le_0_compat; exact Hpos. }
    specialize (IH lps rs es).
    setoid_replace 0 with (0 + 0) by ring.
    apply Qplus_le_compat; assumption.
Qed.

End LossProperties.

(** X4. The value loss is never negative. *)
Theorem value_loss_is_nonnegative
  (a : args) (vs lps rs es : list Q) (R_T : Q) :
  length vs = length rs -> length lps = length rs -> length es = length rs ->
  exists s : Gae.acc,
    Gae.compute_losses a vs lps rs es R_T = Ok s
    /\ (0 <= Gae.value_loss s)%Q.
Proof.
  intros Hv Hl He. eexists. split.
  - apply compute_losses_backward; assumption.
  - apply backward_value_loss_nonneg.
Qed.

Lemma value_loss_is_nonnegative_witness :
  exists s : Gae.acc,
    Gae.compute_losses (Scripted.hyper 2 10 1 1)
      Scripted.two_values Scripted.two_log_probs Scripted.two_rewards
      Scripted.two_entropies 1 = Ok s
    /\ (0 <= Gae.value_loss s)%Q.
Proof.
  exact (value_loss_is_nonnegative (Scripted.hyper 2 10 1 1)
           Scripted.two_values Scripted.two_log_probs Scripted.two_rewards
           Scripted.two_entropies 1 eq_refl eq_refl eq_refl).
Defined.

(** ** Progress counters *)

Section ProgressFacts.

Variable E : externals.
Variable rank : Z.
Variable a : args.

Lemma env_interaction_prog (s : state E) :
  let s' := env_interaction rank a s in
  total_length (prog s') = total_length (prog s) + 1
  /\ num_backprops (prog s') = num_backprops (prog s)
  /\ (done_after a s = true ->
      episode_number (prog s') = episode_number (prog s) + 1
      /\ episode_length (prog s') = 0)
  /\ (done_after a s = false ->
      episode_number (prog s') = episode_number (prog s)
      /\ episode_length (prog s') = episode_length (prog s) + 1
      /\ episode_length (prog s) + 1 < max_episode_length a).
Proof.
  unfold env_interaction.
  destruct (unpack_state E (o_state (interact s))) as [img ins].
  destruct (done_after a s) eqn:Hdone.
  - destruct (env_reset E (o_env (interact s))) as [w3 st0].
    destruct (unpack_state E st0) as [img0 ins0]. simpl.
    repeat split; try reflexivity; discriminate.
  - simpl. repeat split; try reflexivity; try discriminate.
    unfold done_after in Hdone. apply orb_false_iff in Hdone.
    destruct Hdone as [_ Hmax]. apply Z.leb_gt in Hmax. exact Hmax.
Qed.

Lemma monitor_step_totals (m : monitor) (r : Q) (d : bool) :
  length (episode_total_rewards_list (monitor_step m (r, d)))
  = (length (episode_total_rewards_list m) + if d then 1 else 0)%nat.
Proof.
  unfold monitor_step; simpl. destruct d; simpl.
  - destruct (episode_over_totals m) as [-> _]. rewrite length_app. reflexivity.
  - lia.
Qed.

(** What a rollout does to the counters of the process. *)
Lemma rollout_loop_progress (n : nat) :
  forall s s' : state E,
  rollout_loop rank a n s = Ok s' ->
  0 <= episode_length (prog s) ->
  0 <= episode_length (prog s')
  /\ total_length (prog s') + Z.of_nat (length (rewards (buf s)))
     = total_length (prog s) + Z.of_nat (length (rewards (buf s')))
  /\ num_backprops (prog s') = num_backprops (prog s)
  /\ ((0 < n)%nat ->
      (done (ag s') = true
       /\ episode_length (prog s') = 0
       /\ episode_number (prog s') = episode_number (prog s) + 1
       /\ length (episode_total_rewards_list (mon s'))
          = S (length (episode_total_rewards_list (mon s))))
      \/ (done (ag s') = false
          /\ 0 < episode_length (prog s') < max_episode_length a
          /\ episode_number (prog s') = episode_number (prog s)
          /\ length (episode_total_rewards_list (mon s'))
             = length (episode_total_rewards_list (mon s)))).
Proof.
  induction n as [ | n IH ]; intros s s' H Hel; simpl in H.
  - injection H as <-. repeat split; try lia.
  - apply bind_ok in H. destruct H as [s1 [H1 H2]].
    destruct (rollout_step_inv E rank a s s1 H1) as [evs [_ [_ [Hs1 _]]]].
    pose proof (env_interaction_prog (log_events s evs)) as Hp.
    cbv zeta in Hp. rewrite <- Hs1 in Hp.
    change (done_after a (log_events s evs)) with (done_after a s) in Hp.
    cbn [log_events prog] in Hp.
    destruct Hp as [Htl [Hnb [Hyes Hno]]].
    assert (Hd : done (ag s1) = done_after a s).
    { rewrite Hs1. exact (env_interaction_done E rank a (log_events s evs)). }
    assert (Hb : length (rewards (buf s1)) = S (length (rewards (buf s)))).
    { rewrite Hs1, env_interaction_buf.
      apply (append_step_lengths E (buf s) (interact s)). }
    assert (Hm : length (episode_total_rewards_list (mon s1))
                 = (length (episode_total_rewards_list (mon s))
                    + if done (ag s1) then 1 else 0)%nat).
    { rewrite Hd, Hs1, env_interaction_mon. apply monitor_step_totals. }
    destruct (done (ag s1)) eqn:Hdone.
    + injection H2 as <-.
      destruct (Hyes (eq_sym Hd)) as [Hen Hlen].
      repeat split; try lia.
      intros _. left. repeat split; try assumption; lia.
    + destruct (Hno (eq_sym Hd)) as [Hen [Hlen Hmax]].
      destruct n as [ | n ].
      * simpl in H2. injection H2 as <-.
        repeat split; try lia.
        intros _. right. repeat split; try assumption; lia.
      * destruct (IH s1 s' H2 ltac:(lia)) as [I1 [I2 [I3 I4]]].
        repeat split; try lia.
        intros _. destruct (I4 ltac:(lia)) as [[J1 [J2 [J3 J4]]] | [J1 [J2 [J3 J4]]]].
        -- left. repeat split; try assumption; lia.
        -- right. repeat split; try assumption; lia.
Qed.

(** [update] leaves the agent, the monitoring variables and the counters
    of steps and episodes alone, and records the two losses. *)
Lemma update_frame (s s' : state E) :
  update a s = Ok s' ->
  ag s' = ag s /\ mon s' = mon s /\ counter s' = counter s
  /\ total_length (prog s') = total_length (prog s)
  /\ episode_number (prog s') = episode_number (prog s)
  /\ episode_length (prog s') = episode_length (prog s)
  /\ num_backprops (prog s') = num_backprops (prog s) + 1
  /\ rewards (buf s') = rewards (buf s)
  /\ exists p v : Q,
       (p_losses (lrn s'), v_losses (lrn s'))
       = record_losses (p_losses (lrn s)) (v_losses (lrn s)) p v.
Proof.
  intros H.
  destruct (update_ok E a s s' H) as [losses [_ [_ Hs']]].
  cbv zeta in Hs'. rewrite Hs'. cbn.
  repeat split; try reflexivity.
  exists (Gae.policy_loss losses), (Gae.value_loss losses).
  symmetry. apply surjective_pairing.
Qed.

End ProgressFacts.

(** X5. With [num_steps <= 0] no step is taken and the iteration raises
    [AttributeError], whatever the state: the losses are still the integer
    0 when [backward] is called on their sum.  By then
    [optimizer.zero_grad()] has been called, and nothing else of the
    update: no backward pass, no clipping, no sharing of gradients and no
    optimizer step. *)
Theorem iteration_without_steps_raises
  (E : externals) (rank : Z) (a : args) (s : state E) :
  num_steps a <= 0 ->
  train_iteration rank a s = Raise AttributeError
  /\ rollout rank a (begin_iteration s) = Ok (begin_iteration s)
  /\ exists (s2 : state E) (losses : Gae.acc),
       zero_gradients a (begin_iteration s) = Ok (s2, losses)
       /\ trace s2 = trace s ++ [ZeroGrad]
       /\ (tensors (lrn s2), shared_grads (lrn s2))
          = zero_grad E (tensors (lrn s)) (shared_grads (lrn s))
       /\ model_grads (lrn s2) = model_grads (lrn s)
       /\ shared_params (lrn s2) = shared_params (lrn s)
       /\ optimizer (lrn s2) = optimizer (lrn s)
       /\ backward_and_step a s2 losses = Raise AttributeError.
Proof.
  intros Hn.
  assert (Hr : rollout rank a (begin_iteration s) = Ok (begin_iteration s)).
  { unfold rollout. replace (Z.to_nat (num_steps a)) with 0%nat by lia.
    reflexivity. }
  assert (Hz : exists (s2 : state E) (losses : Gae.acc),
             zero_gradients a (begin_iteration s) = Ok (s2, losses)
             /\ trace s2 = trace s ++ [ZeroGrad]
             /\ (tensors (lrn s2), shared_grads (lrn s2))
                = zero_grad E (tensors (lrn s)) (shared_grads (lrn s))
             /\ model_grads (lrn s2) = model_grads (lrn s)
             /\ shared_params (lrn s2) = shared_params (lrn s)
             /\ optimizer (lrn s2) = optimizer (lrn s)
             /\ backward_and_step a s2 losses = Raise AttributeError).
  { unfold zero_gradients.
    cbn [begin_iteration buf lrn empty_buffers values log_probs rewards
         entropies tensors shared_grads].
    change (Gae.compute_losses a [] [] [] [] (bootstrap_value (begin_iteration s)))
      with (Ok (Gae.init (bootstrap_value (begin_iteration s)))).
    cbn [bind].
    destruct (zero_grad E (tensors (lrn s)) (shared_grads (lrn s)))
      as [t1 shared1].
    eexists. eexists. split; [ reflexivity | ].
    repeat split. }
  split; [ | split; [ exact Hr | exact Hz ] ].
  unfold train_iteration. rewrite Hr. cbn [bind]. unfold update.
  destruct Hz as [s2 [losses [Hz [_ [_ [_ [_ [_ Hb]]]]]]]].
  rewrite Hz. cbn [bind fst snd]. exact Hb.
Qed.

Lemma iteration_without_steps_raises_witness :
  train_iteration 0 (Scripted.hyper 0 10 1 1) Scripted.three_answers
  = Raise AttributeError.
Proof.
  apply (iteration_without_steps_raises Scripted.E 0 (Scripted.hyper 0 10 1 1)).
  vm_compute. discriminate.
Defined.

Lemma record_losses_length (ps vs : list Q) (p v : Q) :
  length ps = length vs -> (length ps <= 1000)%nat ->
  length (fst (record_losses ps vs p v)) = ((length ps + 1) mod 1001)%nat
  /\ length (snd (record_losses ps vs p v)) = ((length ps + 1) mod 1001)%nat.
Proof.
  intros Heq Hle. unfold record_losses.
  destruct (Nat.ltb_spec 1000 (length (ps ++ [p]))) as [Hgt | Hsm];
    rewrite length_app in *; cbn [length fst snd] in *.
  - replace (length ps + 1)%nat with 1001%nat by lia.
    rewrite Nat.Div0.mod_same. split; reflexivity.
  - rewrite Nat.mod_small by lia.
    rewrite !length_app. cbn [length]. lia.
Qed.

(** X6. [p_losses] and [v_losses] always hold the same number of entries,
    at most 1000: starting from [m] entries each, after [n] iterations they
    hold [(m + n) mod 1001], the lists being emptied at the iteration that
    would bring them to 1001. *)
Theorem losses_are_kept_modulo_1001
  (E : externals) (rank : Z) (a : args) (n : nat) :
  forall s s' : state E,
  train_loop rank a n s = Ok s' ->
  length (p_losses (lrn s)) = length (v_losses (lrn s)) ->
  (length (p_losses (lrn s)) <= 1000)%nat ->
  length (p_losses (lrn s')) = ((length (p_losses (lrn s)) + n) mod 1001)%nat
  /\ length (v_losses (lrn s')) = length (p_losses (lrn s'))
  /\ (length (p_losses (lrn s')) <= 1000)%nat.
Proof.
  induction n as [ | n IH ]; intros s s' H Heq Hle; simpl in H.
  - injection H as <-. rewrite Nat.add_0_r, Nat.mod_small by lia.
    repeat split; try lia.
  - apply bind_ok in H. destruct H as [s1 [H1 H2]].
    unfold train_iteration, rollout in H1.
    apply bind_ok in H1. destruct H1 as [s0 [Hr Hu]].
    destruct (rollout_loop_steps E rank a _ _ _ Hr)
      as [k [_ [_ [_ [_ [_ [_ [_ [_ Hl]]]]]]]]].
    destruct (update_frame E a s0 s1 Hu)
      as [_ [_ [_ [_ [_ [_ [_ [_ [p [v Hrec]]]]]]]]]].
    rewrite Hl in Hrec. cbn [begin_iteration lrn p_losses v_losses] in Hrec.
    destruct (record_losses_length (p_losses (lrn s)) (v_losses (lrn s)) p v
                Heq Hle) as [L1 L2].
    rewrite <- Hrec in L1, L2. cbn [fst snd] in L1, L2.
    assert (Hbound : ((length (p_losses (lrn s)) + 1) mod 1001 <= 1000)%nat).
    { pose proof (Nat.mod_upper_bound (length (p_losses (lrn s)) + 1) 1001
                    ltac:(lia)). lia. }
    destruct (IH s1 s' H2) as [I1 [I2 I3]]; [ lia | lia | ].
    split; [ | split; assumption ].
    rewrite I1, L1, Nat.Div0.add_mod_idemp_l. f_equal. lia.
Qed.

Lemma losses_are_kept_modulo_1001_witness :
  exists s' : state Scripted.E,
    train_loop 0 (Scripted.hyper 2 10 1 1) 1 Scripted.three_answers = Ok s'
    /\ length (p_losses (lrn s')) = 1%nat.
Proof.
  eexists. split; [ vm_compute; reflexivity | ].
  refine (proj1 (losses_are_kept_modulo_1001 Scripted.E 0
                   (Scripted.hyper 2 10 1 1) 1 Scripted.three_answers _ _
                   eq_refl (Nat.le_0_l 1000))).
  vm_compute. reflexivity.
Defined.

(** A rollout advances [total_length] by the number of entries it
    appends to the buffers. *)
Lemma rollout_loop_total_length (E : externals) (rank : Z) (a : args) (n : nat) :
  forall s s' : state E,
  rollout_loop rank a n s = Ok s' ->
  total_length (prog s') + Z.of_nat (length (rewards (buf s)))
  = total_length (prog s) + Z.of_nat (length (rewards (buf s')))
  /\ num_backprops (prog s') = num_backprops (prog s).
Proof.
  induction n as [ | n IH ]; intros s s' H; simpl in H.
  - injection H as <-. split; reflexivity.
  - apply bind_ok in H. destruct H as [s1 [H1 H2]].
    destruct (rollout_step_inv E rank a s s1 H1) as [evs [_ [_ [Hs1 _]]]].
    pose proof (env_interaction_prog E rank a (log_events s evs)) as Hp.
    cbv zeta in Hp. rewrite <- Hs1 in Hp. cbn [log_events prog] in Hp.
    destruct Hp as [Htl [Hnb _]].
    assert (Hb : length (rewards (buf s1)) = S (length (rewards (buf s)))).
    { rewrite Hs1, env_interaction_buf.
      apply (append_step_lengths E (buf s) (interact s)). }
    destruct (done (ag s1)).
    + injection H2 as <-. split; [ lia | exact Hnb ].
    + destruct (IH s1 s' H2) as [I1 I2]. split; [ lia | congruence ].
Qed.

(** X7. An iteration that returns has collected between 1 and
    [num_steps] steps; it advances [total_length] by the number of steps
    collected and [num_backprops] by 1. *)
Theorem iteration_advances_counters
  (E : externals) (rank : Z) (a : args) (s s' : state E) :
  train_iteration rank a s = Ok s' ->
  let steps := Z.of_nat (length (rewards (buf s'))) in
  1 <= steps <= num_steps a
  /\ total_length (prog s') = total_length (prog s) + steps
  /\ num_backprops (prog s') = num_backprops (prog s) + 1.
Proof.
  intros H steps. unfold train_iteration, rollout in H.
  apply bind_ok in H. destruct H as [s1 [Hr Hu]].
  destruct (rollout_loop_steps E rank a _ _ _ Hr)
    as [k [Hk [_ [_ [_ [_ [K3 _]]]]]]].
  destruct (rollout_loop_total_length E rank a _ _ _ Hr) as [T1 T2].
  cbn [begin_iteration buf prog empty_buffers rewards length] in K3, T1, T2.
  destruct (update_frame E a s1 s' Hu)
    as [_ [_ [_ [U1 [_ [_ [U2 [U3 _]]]]]]]].
  destruct (update_ok E a s1 s' Hu) as [losses [_ [Hne _]]].
  assert (Hpos : (0 < length (rewards (buf s1)))%nat).
  { destruct (rewards (buf s1)); [ contradiction | simpl; lia ]. }
  unfold steps. rewrite U3. repeat split; lia.
Qed.

Lemma iteration_advances_counters_witness :
  exists s' : state Scripted.E,
    train_iteration 0 (Scripted.hyper 2 10 1 1) Scripted.three_answers = Ok s'
    /\ total_length (prog s')
       = total_length (prog Scripted.three_answers)
         + Z.of_nat (length (rewards (buf s'))).
Proof.
  eexists. split; [ vm_compute; reflexivity | ].
  refine (proj1 (proj2 (iteration_advances_counters Scripted.E 0
                          (Scripted.hyper 2 10 1 1) Scripted.three_answers
                          _ _))).
  vm_compute. reflexivity.
Defined.

(** A rollout that takes a step ends an episode exactly when it leaves
    [done] set, and then only one. *)
Lemma rollout_loop_episodes (E : externals) (rank : Z) (a : args) (n : nat) :
  forall s s' : state E,
  rollout_loop rank a n s = Ok s' ->
  (0 < n)%nat ->
  episode_number (prog s')
  = episode_number (prog s) + (if done (ag s') then 1 else 0)
  /\ length (episode_total_rewards_list (mon s'))
     = (length (episode_total_rewards_list (mon s))
        + if done (ag s') then 1 else 0)%nat.
Proof.
  induction n as [ | n IH ]; intros s s' H Hn; [ lia | ]. simpl in H.
  apply bind_ok in H. destruct H as [s1 [H1 H2]].
  destruct (rollout_step_inv E rank a s s1 H1) as [evs [_ [_ [Hs1 _]]]].
  pose proof (env_interaction_prog E rank a (log_events s evs)) as Hp.
  cbv zeta in Hp. rewrite <- Hs1 in Hp.
  change (done_after a (log_events s evs)) with (done_after a s) in Hp.
  cbn [log_events prog] in Hp.
  destruct Hp as [_ [_ [Hyes Hno]]].
  assert (Hd : done (ag s1) = done_after a s).
  { rewrite Hs1. exact (env_interaction_done E rank a (log_events s evs)). }
  assert (Hm : length (episode_total_rewards_list (mon s1))
               = (length (episode_total_rewards_list (mon s))
                  + if done (ag s1) then 1 else 0)%nat).
  { rewrite Hd, Hs1, env_interaction_mon. apply monitor_step_totals. }
  destruct (done (ag s1)) eqn:Hdone.
  - injection H2 as <-. rewrite Hdone.
    destruct (Hyes (eq_sym Hd)) as [Hen _]. split; [ exact Hen | exact Hm ].
  - destruct (Hno (eq_sym Hd)) as [Hen _].
    destruct n as [ | n ].
    + simpl in H2. injection H2 as <-. rewrite Hdone.
      split; [ lia | exact Hm ].
    + destruct (IH s1 s' H2 ltac:(lia)) as [I1 I2]. split; lia.
Qed.

(** X8. A rollout never spans two episodes: it ends one episode when it
    leaves [done] set and none otherwise, so [episode_number] and the list
    of episode totals grow by one or not at all; and an episode can only
    end at the last step collected. *)
Theorem rollout_ends_at_most_one_episode
  (E : externals) (rank : Z) (a : args) (s s' : state E) :
  rollout rank a s = Ok s' ->
  0 < num_steps a ->
  episode_number (prog s')
  = episode_number (prog s) + (if done (ag s') then 1 else 0)
  /\ length (episode_total_rewards_list (mon s'))
     = (length (episode_total_rewards_list (mon s))
        + if done (ag s') then 1 else 0)%nat
  /\ (Z.of_nat (length (rewards (buf s')) - length (rewards (buf s)))
      < num_steps a -> done (ag s') = true).
Proof.
  intros H Hn. unfold rollout in H.
  destruct (rollout_loop_episodes E rank a _ _ _ H ltac:(lia)) as [H1 H2].
  destruct (rollout_loop_steps E rank a _ _ _ H)
    as [k [Hk [_ [Hlt [_ [_ [K3 _]]]]]]].
  split; [ exact H1 | ]. split; [ exact H2 | ].
  intros Hfew. apply Hlt. lia.
Qed.

Lemma rollout_ends_at_most_one_episode_witness :
  exists s' : state Scripted.E,
    rollout 0 (Scripted.hyper 2 10 1 1) Scripted.three_answers = Ok s'
    /\ episode_number (prog s')
       = episode_number (prog Scripted.three_answers)
         + (if done (ag s') then 1 else 0).
Proof.
  eexists. split; [ vm_compute; reflexivity | ].
  refine (proj1 (rollout_ends_at_most_one_episode Scripted.E 0
                   (Scripted.hyper 2 10 1 1) Scripted.three_answers _ _ _)).
  - vm_compute. reflexivity.
  - reflexivity.
Defined.

(** ** Monitoring *)

Section MonitorFacts.

Variable E : externals.
Variable rank : Z.
Variable a : args.

(** What every step keeps true of the monitoring variables is true
    after any number of iterations. *)
Lemma rollout_loop_monitor (P : monitor -> Prop) :
  (forall (m : monitor) (step : Q * bool), P m -> P (monitor_step m step)) ->
  forall (n : nat) (s s' : state E),
  rollout_loop rank a n s = Ok s' -> P (mon s) -> P (mon s').
Proof.
  intros Hstep. induction n as [ | n IH ]; intros s s' H HP; simpl in H.
  - injection H as <-. exact HP.
  - apply bind_ok in H. destruct H as [s1 [H1 H2]].
    destruct (rollout_step_inv E rank a s s1 H1) as [evs [_ [_ [Hs1 _]]]].
    assert (HP1 : P (mon s1)).
    { rewrite Hs1, env_interaction_mon. apply Hstep. exact HP. }
    destruct (done (ag s1)).
    + injection H2 as <-. exact HP1.
    + apply (IH s1 s' H2 HP1).
Qed.

Lemma train_loop_monitor (P : monitor -> Prop) :
  (forall (m : monitor) (step : Q * bool), P m -> P (monitor_step m step)) ->
  forall (n : nat) (s s' : state E),
  train_loop rank a n s = Ok s' -> P (mon s) -> P (mon s').
Proof.
  intros Hstep. induction n as [ | n IH ]; intros s s' H HP; simpl in H.
  - injection H as <-. exact HP.
  - apply bind_ok in H. destruct H as [s1 [H1 H2]].
    apply (IH s1 s' H2).
    unfold train_iteration, rollout in H1.
    apply bind_ok in H1. destruct H1 as [s0 [Hr Hu]].
    destruct (update_frame E a s0 s1 Hu) as [_ [-> _]].
    apply (rollout_loop_monitor P Hstep _ _ _ Hr). exact HP.
Qed.

End MonitorFacts.

Lemma last_n_length {A : Type} (n : nat) (l : list A) :
  (n <= length l)%nat -> length (last_n n l) = n.
Proof.
  intros H. unfold last_n. rewrite length_skipn. lia.
Qed.

(** The rolling average exists exactly when more than ten totals are
    recorded, one average is recorded per total beyond the tenth, and the
    current average is the mean of the last ten totals. *)
Lemma monitor_step_average (m : monitor) (step : Q * bool) :
  (avg_episode_return m = NegInf
   <-> (length (episode_total_rewards_list m) <= 10)%nat)
  /\ length (avg_episode_returns m)
     = (length (episode_total_rewards_list m) - 10)%nat
  /\ (forall q : Q, avg_episode_return m = Fin q ->
      q = mean (last_n 10 (episode_total_rewards_list m))) ->
  let m' := monitor_step m step in
  (avg_episode_return m' = NegInf
   <-> (length (episode_total_rewards_list m') <= 10)%nat)
  /\ length (avg_episode_returns m')
     = (length (episode_total_rewards_list m') - 10)%nat
  /\ (forall q : Q, avg_episode_return m' = Fin q ->
      q = mean (last_n 10 (episode_total_rewards_list m'))).
Proof.
  intros [Hinf [Hlen Hmean]] m'. unfold m', monitor_step.
  destruct step as [r d]; cbn [fst snd].
  destruct d; [ | split; [ exact Hinf | split; [ exact Hlen | exact Hmean ] ] ].
  unfold episode_over, avg_over_num_episodes.
  set (totals := episode_total_rewards_list m
                 ++ [sum (all_rewards_in_episode m)]).
  assert (Htot : length totals = S (length (episode_total_rewards_list m))).
  { unfold totals. rewrite length_app. simpl. lia. }
  destruct (Nat.ltb_spec 10 (length totals)) as [Hgt | Hle];
    cbn [append_reward avg_episode_return avg_episode_returns
         episode_total_rewards_list].
  - split; [ | split ].
    + split; [ discriminate | lia ].
    + rewrite length_app. simpl. lia.
    + intros q Hq. injection Hq as <-. reflexivity.
  - assert (Hnone : avg_episode_return m = NegInf) by (apply Hinf; lia).
    split; [ | split ].
    + split; [ lia | intros _; exact Hnone ].
    + lia.
    + intros q Hq. rewrite Hnone in Hq. discriminate.
Qed.

(** X10. No rolling average exists until eleven episodes have ended: for
    a process whose monitoring variables start as [train] initialises
    them, after any number of iterations [avg_episode_return] is [-inf]
    exactly when at most ten episode totals are recorded; one average is
    recorded for each total beyond the tenth; and an average that exists
    is the sum of the last ten totals divided by ten. *)
Theorem rolling_average_needs_eleven_episodes
  (E : externals) (rank : Z) (a : args) (n : nat) (s s' : state E) :
  train_loop rank a n s = Ok s' ->
  mon s = fresh_monitor ->
  let totals := episode_total_rewards_list (mon s') in
  (avg_episode_return (mon s') = NegInf <-> (length totals <= 10)%nat)
  /\ length (avg_episode_returns (mon s')) = (length totals - 10)%nat
  /\ (forall q : Q,
        avg_episode_return (mon s') = Fin q ->
        length (last_n 10 totals) = 10%nat
        /\ q = (sum (last_n 10 totals) / 10)%Q).
Proof.
  intros H Hfresh totals.
  pose proof (train_loop_monitor E rank a
                (fun m =>
                   (avg_episode_return m = NegInf
                    <-> (length (episode_total_rewards_list m) <= 10)%nat)
                   /\ length (avg_episode_returns m)
                      = (length (episode_total_rewards_list m) - 10)%nat
                   /\ (forall q : Q, avg_episode_return m = Fin q ->
                       q = mean (last_n 10 (episode_total_rewards_list m))))
                monitor_step_average n s s' H) as Hinv.
  destruct Hinv as [Hinf [Hlen Hmean]].
  { rewrite Hfresh. simpl. split; [ | split ].
    - split; [ lia | reflexivity ].
    - reflexivity.
    - discriminate. }
  fold totals in Hinf, Hlen, Hmean.
  split; [ exact Hinf | ]. split; [ exact Hlen | ].
  intros q Hq.
  assert (Hmany : (10 < length totals)%nat).
  { destruct (Nat.ltb_spec 10 (length totals)) as [Hgt | Hle]; [ exact Hgt | ].
    apply Hinf in Hle. rewrite Hle in Hq. discriminate. }
  assert (Hwin : length (last_n 10 totals) = 10%nat)
    by (apply last_n_length; lia).
  split; [ exact Hwin | ].
  rewrite (Hmean q Hq). unfold mean. rewrite Hwin. reflexivity.
Qed.

Lemma rolling_average_needs_eleven_episodes_witness :
  exists s' : state Scripted.E,
    train_loop 0 Scripted.every_step 2 Scripted.twelve_episodes = Ok s'
    /\ (avg_episode_return (mon s') = NegInf
        <-> (length (episode_total_rewards_list (mon s')) <= 10)%nat).
Proof.
  eexists. split; [ vm_compute; reflexivity | ].
  refine (proj1 (rolling_average_needs_eleven_episodes Scripted.E 0
                   Scripted.every_step 2 Scripted.twelve_episodes _ _ _)).
  - vm_compute. reflexivity.
  - reflexivity.
Defined.

(** X11. From the eleventh episode on every checkpoint is copied to
    [model_best]: for a process whose monitoring variables start as
    [train] initialises them, the flag passed to [save_checkpoint] is true
    exactly when more than ten episode totals are recorded. *)
Theorem best_flag_is_set_from_eleventh_episode
  (E : externals) (rank : Z) (a : args) (n : nat) (s s' : state E) :
  train_loop rank a n s = Ok s' ->
  mon s = fresh_monitor ->
  best_so_far (mon s')
  = (10 <? length (episode_total_rewards_list (mon s')))%nat.
Proof.
  intros H Hfresh.
  pose proof (train_loop_monitor E rank a
                (fun m =>
                   (avg_episode_return m = NegInf
                    <-> (length (episode_total_rewards_list m) <= 10)%nat)
                   /\ length (avg_episode_returns m)
                      = (length (episode_total_rewards_list m) - 10)%nat
                   /\ (forall q : Q, avg_episode_return m = Fin q ->
                       q = mean (last_n 10 (episode_total_rewards_list m))))
                monitor_step_average n s s' H) as Hinv.
  destruct Hinv as [Hinf _].
  { rewrite Hfresh. simpl. split; [ | split ].
    - split; [ lia | reflexivity ].
    - reflexivity.
    - discriminate. }
  pose proof (train_loop_best E rank a n s s' H) as Hbest.
  rewrite Hfresh in Hbest. simpl in Hbest.
  unfold best_so_far. rewrite Hbest.
  destruct (Nat.ltb_spec 10 (length (episode_total_rewards_list (mon s'))))
    as [Hgt | Hle].
  - destruct (avg_episode_return (mon s')) as [ | q ] eqn:Havg;
      [ | reflexivity ].
    assert (Hle : (length (episode_total_rewards_list (mon s')) <= 10)%nat)
      by (apply Hinf; reflexivity).
    lia.
  - apply Hinf in Hle. rewrite Hle. reflexivity.
Qed.

Lemma best_flag_is_set_from_eleventh_episode_witness :
  exists s' : state Scripted.E,
    train_loop 0 Scripted.every_step 2 Scripted.twelve_episodes = Ok s'
    /\ best_so_far (mon s') = false.
Proof.
  eexists. split; [ vm_compute; reflexivity | ].
  rewrite (best_flag_is_set_from_eleventh_episode Scripted.E 0
             Scripted.every_step 2 Scripted.twelve_episodes _).
  - reflexivity.
  - vm_compute. reflexivity.
  - reflexivity.
Defined.

(** ** Rewards are counted once *)






(** ** What the checkpoints hold and how they are named *)

Section CheckpointFacts.

Variable E : externals.
Variable rank : Z.
Variable a : args.

Lemma rollout_step_events (s s' : state E) :
  rollout_step rank a s = Ok s' ->
  exists evs rest,
    s' = env_interaction rank a (log_events s evs)
    /\ trace s' = trace s ++ evs ++ EnvStep (o_action (interact s))
                                   :: CounterIncrement :: rest
    /\ Forall (fun e : event E => is_checkpoint_event e = false) rest
    /\ (evs = []
        \/ evs = save_checkpoint (checkpoint_dict s) (total_length (prog s))
                   (best_so_far (mon s))).
Proof.
  unfold rollout_step. intros H.
  apply bind_ok in H. destruct H as [s1 [H1 H2]]. injection H2 as <-.
  destruct (maybe_checkpoint_frame E rank a s s1 H1) as [evs [-> [_ Hc]]].
  destruct (env_interaction_trace E rank a (log_events s evs))
    as [rest [Htr Hrest]].
  exists evs, rest. split; [ reflexivity | ]. split.
  - rewrite Htr. cbn [log_events trace]. rewrite <- app_assoc. reflexivity.
  - split.
    + eapply Forall_impl; [ | exact Hrest ]. intros e He. apply He.
    + destruct Hc as [[_ ->] | [_ ->]]; [ left | right ]; reflexivity.
Qed.

Lemma quiet_saves_state (p : params E) (o : opt_state E) (l : list (event E)) :
  Forall (fun e : event E => is_checkpoint_event e = false) l ->
  Forall (saves_state p o) l.
Proof.
  intros H. eapply Forall_impl; [ | exact H ].
  intros e He. destruct e; simpl in *; try exact I. discriminate.
Qed.

Lemma save_checkpoint_saves_state (s : state E) (tl : Z) (b : bool) :
  Forall (saves_state (model_params (lrn s)) (optimizer (lrn s)))
         (save_checkpoint (checkpoint_dict s) tl b).
Proof.
  unfold save_checkpoint.
  constructor; [ split; reflexivity | ].
  destruct b; repeat constructor.
Qed.

Lemma rollout_loop_saves_state (n : nat) :
  forall s s' : state E,
  rollout_loop rank a n s = Ok s' ->
  exists evs,
    trace s' = trace s ++ evs
    /\ Forall (saves_state (model_params (lrn s)) (optimizer (lrn s))) evs.
Proof.
  induction n as [ | n IH ]; intros s s' H; simpl in H.
  - injection H as <-. exists []. rewrite app_nil_r. split; constructor.
  - apply bind_ok in H. destruct H as [s1 [H1 H2]].
    destruct (rollout_step_events s s1 H1) as [evs [rest [Hs1 [Htr [Hq Hc]]]]].
    assert (Hl : lrn s1 = lrn s).
    { rewrite Hs1. exact (env_interaction_lrn E rank a (log_events s evs)). }
    assert (Hok : Forall (saves_state (model_params (lrn s)) (optimizer (lrn s)))
                    (evs ++ EnvStep (o_action (interact s))
                         :: CounterIncrement :: rest)).
    { apply Forall_app; split.
      - destruct Hc as [-> | ->];
          [ constructor | apply save_checkpoint_saves_state ].
      - constructor; [ exact I | ]. constructor; [ exact I | ].
        apply quiet_saves_state. exact Hq. }
    destruct (done (ag s1)).
    + injection H2 as <-. eexists. split; [ exact Htr | exact Hok ].
    + destruct (IH s1 s' H2) as [evs' [Htr' Hok']]. rewrite Hl in Hok'.
      eexists. split.
      * rewrite Htr', Htr, <- app_assoc. reflexivity.
      * apply Forall_app; split; assumption.
Qed.

End CheckpointFacts.

(** X13. Every checkpoint written during an iteration holds the weights
    that the shared model had when the iteration began (the local copy
    taken by [load_state_dict]) and the optimizer state of that moment:
    the update of the iteration itself is not in it. *)
Theorem checkpoint_holds_weights_of_iteration_start
  (E : externals) (rank : Z) (a : args) (s s' : state E) :
  train_iteration rank a s = Ok s' ->
  exists evs,
    trace s' = trace s ++ evs
    /\ Forall (saves_state (shared_params (lrn s)) (optimizer (lrn s))) evs.
Proof.
  unfold train_iteration, rollout. intros H.
  apply bind_ok in H. destruct H as [s1 [Hr Hu]].
  destruct (rollout_loop_saves_state E rank a _ _ _ Hr) as [evs [Htr Hok]].
  cbn [begin_iteration lrn trace model_params optimizer] in Htr, Hok.
  destruct (update_inv E a s1 s' Hu) as [losses [_ [_ Hup]]].
  cbv zeta in Hup. destruct Hup as [Htr' _].
  eexists. split.
  - rewrite Htr', Htr, <- app_assoc. reflexivity.
  - apply Forall_app; split; [ exact Hok | ].
    repeat (constructor; [ exact I | ]). constructor.
Qed.

Lemma checkpoint_holds_weights_of_iteration_start_witness :
  exists (s' : state Scripted.E) (evs : list (event Scripted.E)),
    train_iteration 0 (Scripted.hyper 2 10 1 1) Scripted.three_answers = Ok s'
    /\ trace s' = trace Scripted.three_answers ++ evs
    /\ Forall (saves_state (shared_params (lrn Scripted.three_answers))
                 (optimizer (lrn Scripted.three_answers))) evs.
Proof.
  assert (H : exists s' : state Scripted.E,
             train_iteration 0 (Scripted.hyper 2 10 1 1)
               Scripted.three_answers = Ok s')
    by (eexists; vm_compute; reflexivity).
  destruct H as [s' H].
  destruct (checkpoint_holds_weights_of_iteration_start Scripted.E 0
              (Scripted.hyper 2 10 1 1) Scripted.three_answers s' H)
    as [evs [Htr Hok]].
  exists s', evs. split; [ exact H | ]. split; [ exact Htr | exact Hok ].
Defined.

Lemma saved_lengths_app (E : externals) (l1 l2 : list (event E)) :
  saved_lengths (l1 ++ l2) = saved_lengths l1 ++ saved_lengths l2.
Proof. unfold saved_lengths. apply flat_map_app. Qed.

Lemma saved_lengths_quiet (E : externals) (l : list (event E)) :
  Forall (fun e : event E => is_checkpoint_event e = false) l ->
  saved_lengths l = [].
Proof.
  induction 1 as [ | e l He _ IH ]; [ reflexivity | ].
  unfold saved_lengths in *. simpl. rewrite IH.
  destruct e; simpl in *; try reflexivity. discriminate.
Qed.

Lemma saved_lengths_save_checkpoint (E : externals) (c : checkpoint E)
  (tl : Z) (b : bool) :
  saved_lengths (save_checkpoint c tl b) = [tl].
Proof. destruct b; reflexivity. Qed.

Lemma sorted_snoc (l : list Z) (x : Z) :
  StronglySorted Z.lt l -> Forall (fun y => y < x) l ->
  StronglySorted Z.lt (l ++ [x]).
Proof.
  induction 1 as [ | y l Hs IH Hy ]; intros Hx; simpl.
  - constructor; constructor.
  - inversion Hx as [ | ? ? Hyx Hlx ]; subst.
    constructor; [ apply IH; exact Hlx | ].
    apply Forall_app; split; [ exact Hy | constructor; [ exact Hyx | constructor ] ].
Qed.

Section NamingFacts.

Variable E : externals.
Variable rank : Z.
Variable a : args.

(** The checkpoints written so far are in increasing order of
    [total_length] and all below the current one. *)
Lemma rollout_loop_names (n : nat) :
  forall s s' : state E,
  rollout_loop rank a n s = Ok s' ->
  StronglySorted Z.lt (saved_lengths (trace s)) ->
  Forall (fun tl => tl < total_length (prog s)) (saved_lengths (trace s)) ->
  StronglySorted Z.lt (saved_lengths (trace s'))
  /\ Forall (fun tl => tl < total_length (prog s')) (saved_lengths (trace s')).
Proof.
  induction n as [ | n IH ]; intros s s' H Hs Hb; simpl in H.
  - injection H as <-. split; assumption.
  - apply bind_ok in H. destruct H as [s1 [H1 H2]].
    destruct (rollout_step_events E rank a s s1 H1)
      as [evs [rest [Hs1 [Htr [Hq Hc]]]]].
    assert (Htl : total_length (prog s1) = total_length (prog s) + 1).
    { rewrite Hs1.
      exact (env_interaction_total_length E rank a (log_events s evs)). }
    assert (Hsaved : saved_lengths (trace s1) = saved_lengths (trace s)
                     \/ saved_lengths (trace s1)
                        = saved_lengths (trace s) ++ [total_length (prog s)]).
    { rewrite Htr, !saved_lengths_app.
      change (EnvStep (o_action (interact s)) :: CounterIncrement :: rest)
        with ([EnvStep (o_action (interact s)); CounterIncrement] ++ rest).
      rewrite saved_lengths_app, (saved_lengths_quiet E rest Hq).
      cbn [saved_lengths flat_map app]. rewrite !app_nil_r.
      destruct Hc as [-> | ->].
      - left. simpl. rewrite app_nil_r. reflexivity.
      - right. rewrite saved_lengths_save_checkpoint. reflexivity. }
    assert (Hinv : StronglySorted Z.lt (saved_lengths (trace s1))
                   /\ Forall (fun tl => tl < total_length (prog s1))
                        (saved_lengths (trace s1))).
    { destruct Hsaved as [-> | ->].
      - split; [ exact Hs | ].
        eapply Forall_impl; [ | exact Hb ]. intros tl Ht. simpl in Ht. lia.
      - split; [ apply sorted_snoc; assumption | ].
        apply Forall_app; split.
        + eapply Forall_impl; [ | exact Hb ]. intros tl Ht. simpl in Ht. lia.
        + constructor; [ lia | constructor ]. }
    destruct Hinv as [Hs1' Hb1].
    destruct (done (ag s1)).
    + injection H2 as <-. split; assumption.
    + apply (IH s1 s' H2 Hs1' Hb1).
Qed.

End NamingFacts.

(** X14. No checkpoint file is written twice in a run: the values of
    [total_length] in the names of the files written are strictly
    increasing, whatever the number of iterations, for a process that
    starts with no checkpoint written (or with earlier ones in increasing
    order, all below its [total_length]). *)
Theorem checkpoint_files_are_never_rewritten
  (E : externals) (rank : Z) (a : args) (n : nat) :
  forall s s' : state E,
  train_loop rank a n s = Ok s' ->
  StronglySorted Z.lt (saved_lengths (trace s)) ->
  Forall (fun tl => tl < total_length (prog s)) (saved_lengths (trace s)) ->
  StronglySorted Z.lt (saved_lengths (trace s'))
  /\ NoDup (saved_lengths (trace s'))
  /\ Forall (fun tl => tl < total_length (prog s')) (saved_lengths (trace s')).
Proof.
  assert (Hnodup : forall l : list Z, StronglySorted Z.lt l -> NoDup l).
  { induction 1 as [ | y l _ IH Hy ]; constructor; [ | exact IH ].
    intros Hin. rewrite Forall_forall in Hy. specialize (Hy y Hin). lia. }
  induction n as [ | n IH ]; intros s s' H Hs Hb; simpl in H.
  - injection H as <-. repeat split; auto.
  - apply bind_ok in H. destruct H as [s1 [H1 H2]].
    apply (IH s1 s' H2);
      unfold train_iteration, rollout in H1;
      apply bind_ok in H1; destruct H1 as [s0 [Hr Hu]];
      destruct (rollout_loop_names E rank a _ _ _ Hr Hs Hb) as [Hs0 Hb0];
      destruct (update_inv E a s0 s1 Hu) as [losses [_ [_ Hup]]];
      cbv zeta in Hup; destruct Hup as [Htr _];
      destruct (update_frame E a s0 s1 Hu) as [_ [_ [_ [Htl _]]]];
      rewrite Htr, saved_lengths_app;
      cbn [saved_lengths flat_map app]; rewrite app_nil_r;
      [ exact Hs0 | rewrite Htl; exact Hb0 ].
Qed.

Lemma checkpoint_files_are_never_rewritten_witness :
  exists s' : state Scripted.E,
    train_loop 0 Scripted.every_step 3 Scripted.twelve_episodes = Ok s'
    /\ NoDup (saved_lengths (trace s')).
Proof.
  assert (H : exists s' : state Scripted.E,
             train_loop 0 Scripted.every_step 3 Scripted.twelve_episodes
             = Ok s')
    by (eexists; vm_compute; reflexivity).
  destruct H as [s' H]. exists s'. split; [ exact H | ].
  refine (proj1 (proj2 (checkpoint_files_are_never_rewritten Scripted.E 0
                          Scripted.every_step 3 Scripted.twelve_episodes s'
                          H _ _))).
  - vm_compute. constructor.
  - vm_compute. constructor.
Defined.

(** ** The processes of [main.py] *)

Lemma range_spec (lo hi r : Z) : In r (range lo hi) <-> lo <= r < hi.
Proof.
  unfold range. rewrite in_map_iff. split.
  - intros [i [<- Hi]]. apply in_seq in Hi. lia.
  - intros Hr. exists (Z.to_nat (r - lo)). split; [ lia | ].
    apply in_seq. lia.
Qed.

Lemma range_NoDup (lo hi : Z) : NoDup (range lo hi).
Proof.
  unfold range. generalize (seq_NoDup (Z.to_nat (hi - lo)) 0).
  generalize (seq 0 (Z.to_nat (hi - lo))) as l.
  induction l as [ | i l IH ]; intros Hl; simpl; [ constructor | ].
  inversion Hl as [ | ? ? Hi Hl' ]; subst.
  constructor; [ | apply IH; exact Hl' ].
  rewrite in_map_iff. intros [j [Hj Hin]].
  assert (j = i) by lia. subst j. contradiction.
Qed.

Lemma train_ranks_map (l : list Z) : train_ranks (map TrainProcess l) = l.
Proof.
  induction l as [ | r l IH ]; [ reflexivity | ].
  unfold train_ranks in *. simpl. rewrite IH. reflexivity.
Qed.

(** X16. The ranks of the training runs that [main.py] starts are
    pairwise different; without [--synchronous] they are exactly the
    ranks [0 <= r < num_processes] (none at all when [num_processes <= 0])
    and the test process gets [num_processes], which is no training rank;
    with it there is the single rank 0.  So exactly one training run has
    rank 0 when [--synchronous] is given or [num_processes >= 1], and none
    otherwise. *)
Theorem launch_gives_distinct_ranks (synchronous : bool) (num_processes : Z) :
  let ranks := train_ranks (launch synchronous num_processes) in
  NoDup ranks
  /\ (forall r : Z,
        In r ranks
        <-> if synchronous then r = 0 else 0 <= r < num_processes)
  /\ (synchronous = false ->
      In (TestProcess num_processes) (launch synchronous num_processes)
      /\ ~ In num_processes ranks
      /\ length (launch synchronous num_processes)
         = S (Z.to_nat num_processes))
  /\ count_occ Z.eq_dec ranks 0
     = if synchronous || (1 <=? num_processes) then 1%nat else 0%nat.
Proof.
  intros ranks.
  assert (Hranks : ranks = if synchronous then [0] else range 0 num_processes).
  { unfold ranks, launch. destruct synchronous; simpl; [ reflexivity | ].
    apply train_ranks_map. }
  assert (Hnd : NoDup ranks).
  { rewrite Hranks. destruct synchronous; [ | apply range_NoDup ].
    constructor; [ intros [] | constructor ]. }
  assert (Hin : forall r : Z,
            In r ranks
            <-> if synchronous then r = 0 else 0 <= r < num_processes).
  { intros r. rewrite Hranks. destruct synchronous; [ | apply range_spec ].
    simpl. split; [ intros [<- | []]; reflexivity | intros ->; left; reflexivity ]. }
  split; [ exact Hnd | ]. split; [ exact Hin | ]. split.
  - intros ->. split; [ left; reflexivity | ]. split.
    + rewrite Hin. lia.
    + unfold launch. simpl. rewrite length_map. unfold range.
      rewrite length_map, length_seq. f_equal. f_equal. lia.
  - destruct (in_dec Z.eq_dec 0 ranks) as [Hyes | Hno].
    + rewrite (proj1 (NoDup_count_occ' Z.eq_dec ranks) Hnd 0 Hyes).
      apply Hin in Hyes. destruct synchronous; [ reflexivity | ].
      simpl. rewrite (proj2 (Z.leb_le 1 num_processes)) by lia. reflexivity.
    + rewrite (proj1 (count_occ_not_In Z.eq_dec ranks 0) Hno).
      rewrite Hin in Hno. destruct synchronous; [ exfalso; apply Hno; reflexivity | ].
      simpl. rewrite (proj2 (Z.leb_gt 1 num_processes)) by lia. reflexivity.
Qed.

(** ** Mutual exclusion and progress on the counter *)

Module LockedCounterProgress.

Import LockedCounter.

Lemma set_pc_length (l : list pc) :
  forall (w : nat) (p : pc), length (set_pc w p l) = length l.
Proof.
  induction l as [ | x l IH ]; intros w p; destruct w; simpl;
    try reflexivity. rewrite IH. reflexivity.
Qed.

Lemma exec_length (w : nat) (c : config) :
  length (pcs (exec w c)) = length (pcs c).
Proof.
  unfold exec. destruct (nth_error (pcs c) w) as [ p | ]; [ | reflexivity ].
  destruct p; try (simpl; apply set_pc_length).
  destruct (lock c); [ reflexivity | simpl; apply set_pc_length ].
Qed.

Lemma run_length (schedule : list nat) :
  forall c : config, length (pcs (run schedule c)) = length (pcs c).
Proof.
  induction schedule as [ | w schedule IH ]; intros c; simpl;
    [ reflexivity | ].
  unfold run in IH. rewrite IH. apply exec_length.
Qed.

Lemma exec_holder_inside (w : nat) (c : config) :
  invariant c -> holder_inside c -> holder_inside (exec w c).
Proof.
  intros [Hcs _] Hin. unfold exec.
  destruct (nth_error (pcs c) w) as [ p | ] eqn:Hp; [ | exact Hin ].
  assert (Hkeep : forall (p' : pc) (h : nat),
            in_critical_section p = false ->
            lock c = Some h ->
            exists q, nth_error (set_pc w p' (pcs c)) h = Some q
                      /\ in_critical_section q = true).
  { intros p' h Hout Hh. destruct (Hin h Hh) as [q [Hq Hqc]].
    destruct (Nat.eq_dec w h) as [ <- | Hne ].
    - rewrite Hp in Hq. injection Hq as <-. congruence.
    - exists q. rewrite LockedCounterFacts.nth_set_pc_other by exact Hne.
      split; assumption. }
  assert (Hmove : forall (p' : pc) (h : nat),
            in_critical_section p' = true ->
            lock c = Some h ->
            exists q, nth_error (set_pc w p' (pcs c)) h = Some q
                      /\ in_critical_section q = true).
  { intros p' h Hp' Hh. destruct (Nat.eq_dec w h) as [ <- | Hne ].
    - exists p'. split; [ | exact Hp' ].
      apply (LockedCounterFacts.nth_set_pc_same _ w p' p Hp).
    - destruct (Hin h Hh) as [q [Hq Hqc]]. exists q.
      rewrite LockedCounterFacts.nth_set_pc_other by exact Hne.
      split; assumption. }
  destruct p as [ | | | v | ].
  - intros h Hh. simpl in *. apply Hkeep; [ reflexivity | exact Hh ].
  - destruct (lock c) as [ h0 | ] eqn:Hlock; [ exact Hin | ].
    intros h Hh. simpl in *. injection Hh as <-.
    exists Holding. split; [ | reflexivity ].
    apply (LockedCounterFacts.nth_set_pc_same _ w Holding Waiting Hp).
  - intros h Hh. simpl in *. apply Hmove; [ reflexivity | exact Hh ].
  - intros h Hh. simpl in *. apply Hmove; [ reflexivity | exact Hh ].
  - intros h Hh. simpl in Hh. discriminate.
Qed.

Lemma run_holder_inside (schedule : list nat) :
  forall c : config,
  invariant c -> holder_inside c ->
  invariant (run schedule c) /\ holder_inside (run schedule c).
Proof.
  induction schedule as [ | w schedule IH ]; intros c Hinv Hin; simpl.
  - split; assumption.
  - apply IH.
    + apply LockedCounterFacts.exec_invariant. exact Hinv.
    + apply exec_holder_inside; assumption.
Qed.

Lemma init_holder_inside (n : nat) : holder_inside (init n).
Proof. intros h Hh. simpl in Hh. discriminate. Qed.

(** A process that is not waiting for a taken lock changes the
    configuration when it moves. *)
Lemma exec_moves (w : nat) (c : config) (p : pc) :
  nth_error (pcs c) w = Some p ->
  (p = Waiting -> lock c = None) ->
  (in_critical_section p = true -> lock c = Some w) ->
  exec w c <> c.
Proof.
  intros Hp Hwait Hcrit Heq. unfold exec in Heq. rewrite Hp in Heq.
  destruct p as [ | | | v | ].
  - apply (f_equal interactions) in Heq. simpl in Heq. lia.
  - rewrite (Hwait eq_refl) in Heq.
    apply (f_equal lock) in Heq. simpl in Heq.
    rewrite (Hwait eq_refl) in Heq. discriminate.
  - apply (f_equal (fun c => nth_error (pcs c) w)) in Heq. simpl in Heq.
    rewrite (LockedCounterFacts.nth_set_pc_same _ w _ Holding Hp), Hp in Heq.
    discriminate.
  - apply (f_equal stores) in Heq. simpl in Heq. lia.
  - apply (f_equal lock) in Heq. simpl in Heq.
    rewrite (Hcrit eq_refl) in Heq. discriminate.
Qed.

End LockedCounterProgress.

(** X17. Mutual exclusion: in every configuration that [n] processes
    reach from the start, at most one process is between the acquisition
    and the release of the lock, that process holds the lock, and a holder
    of the lock is always such a process. *)
Theorem counter_lock_is_exclusive (n : nat) (schedule : list nat) :
  let c := LockedCounter.run schedule (LockedCounter.init n) in
  length (LockedCounter.pcs c) = n
  /\ (forall (w w' : nat) (p p' : LockedCounter.pc),
        nth_error (LockedCounter.pcs c) w = Some p ->
        nth_error (LockedCounter.pcs c) w' = Some p' ->
        LockedCounter.in_critical_section p = true ->
        LockedCounter.in_critical_section p' = true ->
        w = w' /\ LockedCounter.lock c = Some w)
  /\ (forall h : nat,
        LockedCounter.lock c = Some h ->
        exists p : LockedCounter.pc,
          nth_error (LockedCounter.pcs c) h = Some p
          /\ LockedCounter.in_critical_section p = true).
Proof.
  intros c.
  destruct (LockedCounterProgress.run_holder_inside schedule
              (LockedCounter.init n)
              (LockedCounterFacts.init_invariant n)
              (LockedCounterProgress.init_holder_inside n)) as [Hinv Hin].
  fold c in Hinv, Hin.
  split; [ | split ].
  - unfold c. rewrite LockedCounterProgress.run_length.
    simpl. apply repeat_length.
  - intros w w' p p' Hp Hp' Hc Hc'.
    destruct Hinv as [Hcs _].
    pose proof (Hcs w p Hp Hc) as H1.
    pose proof (Hcs w' p' Hp' Hc') as H2.
    split; [ congruence | exact H1 ].
  - exact Hin.
Qed.

(** X18. The processes never deadlock: in every configuration that one
    or more processes reach from the start, some process can take a step
    that changes the configuration; a holder of the lock can always move,
    and when the lock is free every process can. *)
Theorem counter_never_deadlocks (n : nat) (schedule : list nat) :
  (0 < n)%nat ->
  let c := LockedCounter.run schedule (LockedCounter.init n) in
  (exists w : nat, (w < n)%nat /\ LockedCounter.exec w c <> c)
  /\ (forall h : nat,
        LockedCounter.lock c = Some h -> LockedCounter.exec h c <> c)
  /\ (LockedCounter.lock c = None ->
      forall w : nat, (w < n)%nat -> LockedCounter.exec w c <> c).
Proof.
  intros Hn c.
  destruct (LockedCounterProgress.run_holder_inside schedule
              (LockedCounter.init n)
              (LockedCounterFacts.init_invariant n)
              (LockedCounterProgress.init_holder_inside n)) as [Hinv Hin].
  fold c in Hinv, Hin.
  assert (Hlen : length (LockedCounter.pcs c) = n).
  { unfold c. rewrite LockedCounterProgress.run_length.
    simpl. apply repeat_length. }
  destruct Hinv as [Hcs _].
  assert (Hheld : forall h : nat,
            LockedCounter.lock c = Some h -> LockedCounter.exec h c <> c).
  { intros h Hh. destruct (Hin h Hh) as [p [Hp Hpc]].
    apply (LockedCounterProgress.exec_moves h c p Hp).
    - intros ->. discriminate.
    - intros _. exact Hh. }
  assert (Hfree : LockedCounter.lock c = None ->
                  forall w : nat, (w < n)%nat -> LockedCounter.exec w c <> c).
  { intros Hnone w Hw.
    destruct (nth_error (LockedCounter.pcs c) w) as [ p | ] eqn:Hp.
    - apply (LockedCounterProgress.exec_moves w c p Hp).
      + intros _. exact Hnone.
      + intros Hpc. pose proof (Hcs w p Hp Hpc) as Hl. congruence.
    - apply nth_error_None in Hp. lia. }
  split; [ | split; assumption ].
  destruct (LockedCounter.lock c) as [ h | ] eqn:Hlock.
  - exists h. split; [ | apply Hheld; reflexivity ].
    destruct (Hin h Hlock) as [p [Hp _]].
    rewrite <- Hlen. apply nth_error_Some. rewrite Hp. discriminate.
  - exists 0%nat. split; [ exact Hn | apply Hfree; [ reflexivity | exact Hn ] ].
Qed.

Lemma counter_never_deadlocks_witness :
  exists w : nat,
    (w < 2)%nat
    /\ LockedCounter.exec w
         (LockedCounter.run [0; 0; 1]%nat (LockedCounter.init 2))
       <> LockedCounter.run [0; 0; 1]%nat (LockedCounter.init 2).
Proof.
  exact (proj1 (counter_never_deadlocks 2 [0; 0; 1]%nat (Nat.lt_0_succ 1))).
Defined.

(** ** The example that handles objects *)

Module ExamplesFacts.

Import Examples.

Local Open Scope string_scope.

Ltac open_run :=
  unfold run_calling_complex_actions, and_then, start, reset, step, stop,
    first_then_step, read, ret, raise;
  cbn [fst snd app].

Ltac next_call :=
  match goal with
  | |- context [controller_step ?C ?c ?a ?b] =>
      let c' := fresh "c" in
      let objects := fresh "objects" in
      let Hcall := fresh "Hcall" in
      destruct (controller_step C c a b) as [c' [objects | ]] eqn:Hcall;
      cbn [fst snd app]
  | |- context [find ?f ?l] =>
      let o := fresh "o" in
      let Hfind := fresh "Hfind" in
      destruct (find f l) as [o | ] eqn:Hfind;
      unfold and_then, step, ret; cbn [fst snd app]
  end.

Ltac not_in_list :=
  cbn [In]; intuition discriminate.

End ExamplesFacts.

(** X19. [run_calling_complex_actions] stops the controller exactly when
    it returns normally: whenever a controller call or an unbound variable
    raises, [controller.stop()] is not reached and the simulator keeps
    running.  The first call is always [start]. *)
Theorem example_stops_controller_only_on_success
  (C : Examples.controller) (c0 : Examples.ctrl C) :
  let r := Examples.run_calling_complex_actions C c0 in
  let calls := snd (fst r) in
  (In Examples.Stop calls <-> snd r = inl tt)
  /\ hd_error calls = Some Examples.Start.
Proof.
  cbv zeta. ExamplesFacts.open_run.
  repeat ExamplesFacts.next_call;
    (split; [ split; [ ExamplesFacts.not_in_list | intros H; try discriminate H ]
            | reflexivity ]);
    cbn [In]; auto 20.
Qed.

Section ExampleRuns.

Local Open Scope string_scope.

(** X20. When [run_calling_complex_actions] returns normally, both
    searches have found an object, and the controller has received exactly
    thirteen calls: the mug that is put is the one that was picked up, the
    receptacle it is put into is the microwave that was opened, and that
    one is closed again before [stop]. *)
Theorem example_success_handles_one_mug_and_one_microwave
  (C : Examples.controller) (c0 : Examples.ctrl C) :
  let r := Examples.run_calling_complex_actions C c0 in
  snd r = inl tt ->
  exists m w : Examples.object_metadata,
    Examples.is_mug m = true
    /\ Examples.is_microwave w = true
    /\ snd (fst r)
       = [Examples.Start;
          Examples.Reset "FloorPlan28";
          Examples.Step (Examples.Initialize (1 # 4)) false;
          Examples.Step (Examples.Teleport (- (5 # 4)) 1 (- (3 # 2))) false;
          Examples.Step Examples.LookDown false;
          Examples.Step (Examples.Rotate 90) false;
          Examples.Step (Examples.PickupObject (Examples.objectId m)) true;
          Examples.Step Examples.LookUp false;
          Examples.Step (Examples.OpenObject (Examples.objectId w)) true;
          Examples.Step Examples.MoveRight true;
          Examples.Step (Examples.PutObject (Examples.objectId w)
                           (Examples.objectId m)) true;
          Examples.Step (Examples.CloseObject (Examples.objectId w)) true;
          Examples.Stop].
Proof.
  cbv zeta. ExamplesFacts.open_run.
  repeat ExamplesFacts.next_call; intros H; try discriminate H.
  match goal with
  | Hm : find Examples.is_mug _ = Some ?m,
    Hw : find Examples.is_microwave _ = Some ?w |- _ =>
      exists m, w;
      split; [ exact (proj2 (find_some _ _ Hm)) | ];
      split; [ exact (proj2 (find_some _ _ Hw)) | reflexivity ]
  end.
Qed.

Lemma example_success_handles_one_mug_and_one_microwave_witness :
  exists m w : Examples.object_metadata,
    Examples.is_mug m = true
    /\ Examples.is_microwave w = true
    /\ In (Examples.Step (Examples.PutObject (Examples.objectId w)
                            (Examples.objectId m)) true)
          (snd (fst (Examples.run_calling_complex_actions
                       (Examples.kitchen true) tt))).
Proof.
  destruct (example_success_handles_one_mug_and_one_microwave
              (Examples.kitchen true) tt eq_refl) as [m [w [Hm [Hw Hcalls]]]].
  exists m, w. split; [ exact Hm | ]. split; [ exact Hw | ].
  rewrite Hcalls. cbn [In]. auto 20.
Defined.

(** X21. In a scene where the controller never reports a visible,
    pickupable mug the example cannot succeed: it raises, without having
    sent [PickupObject], [PutObject] or [stop].  If no controller call
    raises, the exception is the [UnboundLocalError] of
    [receptacle_object_id] or of [mug_object_id], and it comes only after
    [MoveRight] has been sent. *)
Theorem example_without_mug_raises
  (C : Examples.controller) (c0 : Examples.ctrl C) :
  (forall (c c' : Examples.ctrl C) (a : Examples.action) (b : bool)
          (objects : list Examples.object_metadata),
     Examples.controller_step C c a b = (c', Some objects) ->
     find Examples.is_mug objects = None) ->
  let r := Examples.run_calling_complex_actions C c0 in
  let calls := snd (fst r) in
  snd r <> inl tt
  /\ ~ In Examples.Stop calls
  /\ (forall (id : String.string) (b : bool),
        ~ In (Examples.Step (Examples.PickupObject id) b) calls)
  /\ (forall (w id : String.string) (b : bool),
        ~ In (Examples.Step (Examples.PutObject w id) b) calls)
  /\ ((forall (c : Examples.ctrl C) (a : Examples.action) (b : bool),
         snd (Examples.controller_step C c a b) <> None) ->
      In (Examples.Step Examples.MoveRight true) calls
      /\ (snd r = inr (Examples.UnboundLocalError "receptacle_object_id")
          \/ snd r = inr (Examples.UnboundLocalError "mug_object_id"))).
Proof.
  intros Hnomug. cbv zeta. ExamplesFacts.open_run.
  repeat ExamplesFacts.next_call;
    try match goal with
        | Hc : Examples.controller_step C _ (Examples.Rotate 90) false
               = (_, Some ?objects),
          Hf : find Examples.is_mug ?objects = Some _ |- _ =>
            rewrite (Hnomug _ _ _ _ _ Hc) in Hf; discriminate Hf
        end;
    (split; [ discriminate | ]);
    (split; [ ExamplesFacts.not_in_list | ]);
    (split; [ intros id b; ExamplesFacts.not_in_list | ]);
    (split; [ intros w id b; ExamplesFacts.not_in_list | ]);
    intros Hnoraise;
    try match goal with
        | Hc : Examples.controller_step C ?c ?a ?b = (_, None) |- _ =>
            exfalso; apply (Hnoraise c a b); rewrite Hc; reflexivity
        end;
    (split; [ cbn [In]; auto 20 | ]);
    first [ left; reflexivity | right; reflexivity ].
Qed.

Lemma example_without_mug_raises_witness :
  snd (Examples.run_calling_complex_actions (Examples.kitchen false) tt)
  = inr (Examples.UnboundLocalError "mug_object_id")
  /\ ~ In Examples.Stop
         (snd (fst (Examples.run_calling_complex_actions
                      (Examples.kitchen false) tt))).
Proof.
  split; [ reflexivity | ].
  refine (proj1 (proj2 (example_without_mug_raises (Examples.kitchen false) tt _))).
  intros c c' a b objects H. simpl in H. injection H as _ <-. reflexivity.
Defined.

End ExampleRuns.

(** ** The counter and [total_length] *)

Lemma wrap32_add (x y : Z) : wrap32 (wrap32 x + y) = wrap32 (x + y).
Proof.
  unfold wrap32.
  replace ((x + 2 ^ 31) mod 2 ^ 32 - 2 ^ 31 + y + 2 ^ 31)
    with ((x + 2 ^ 31) mod 2 ^ 32 + y) by lia.
  rewrite Zplus_mod_idemp_l.
  replace (x + 2 ^ 31 + y) with (x + y + 2 ^ 31) by lia.
  reflexivity.
Qed.

Lemma iter_wrap32 (k : nat) (c : Z) :
  INT_MIN <= c <= INT_MAX ->
  Nat.iter k (fun c => wrap32 (c + 1)) c = wrap32 (c + Z.of_nat k).
Proof.
  intros Hc. induction k as [ | k IH ].
  - simpl. rewrite Z.add_0_r. symmetry. apply wrap32_small. exact Hc.
  - change (Nat.iter (S k) (fun c => wrap32 (c + 1)) c)
      with (wrap32 (Nat.iter k (fun c => wrap32 (c + 1)) c + 1)).
    rewrite IH, wrap32_succ. f_equal. lia.
Qed.

(** X22. A process adds to the shared counter exactly what it adds to its
    own [total_length]: after any number of iterations the counter is the
    initial one plus the growth of [total_length], as a C [int] (the other
    processes left aside). *)
Theorem counter_follows_total_length
  (E : externals) (rank : Z) (a : args) (n : nat) :
  forall s s' : state E,
  train_loop rank a n s = Ok s' ->
  INT_MIN <= counter s <= INT_MAX ->
  counter s'
  = wrap32 (counter s + (total_length (prog s') - total_length (prog s)))
  /\ INT_MIN <= counter s' <= INT_MAX.
Proof.
  induction n as [ | n IH ]; intros s s' H Hc; simpl in H.
  - injection H as <-. rewrite Z.sub_diag, Z.add_0_r.
    split; [ symmetry; apply wrap32_small; exact Hc | exact Hc ].
  - apply bind_ok in H. destruct H as [s1 [H1 H2]].
    unfold train_iteration, rollout in H1.
    apply bind_ok in H1. destruct H1 as [s0 [Hr Hu]].
    destruct (rollout_loop_steps E rank a _ _ _ Hr)
      as [k [_ [_ [_ [_ [_ [K3 [_ [K5 _]]]]]]]]].
    destruct (rollout_loop_total_length E rank a _ _ _ Hr) as [T1 _].
    cbn [begin_iteration buf prog counter empty_buffers rewards length]
      in K3, K5, T1.
    destruct (update_frame E a s0 s1 Hu) as [_ [_ [Uc [Utl _]]]].
    rewrite (iter_wrap32 k (counter s) Hc) in K5.
    assert (Hc1 : counter s1
                  = wrap32 (counter s
                            + (total_length (prog s1) - total_length (prog s)))).
    { rewrite Uc, K5, Utl. f_equal. lia. }
    assert (Hr1 : INT_MIN <= counter s1 <= INT_MAX)
      by (rewrite Hc1; apply wrap32_range).
    destruct (IH s1 s' H2 Hr1) as [I1 I2].
    split; [ | exact I2 ].
    rewrite I1, Hc1, wrap32_add. f_equal. lia.
Qed.

Lemma counter_follows_total_length_witness :
  exists s' : state Scripted.E,
    train_loop 0 (Scripted.hyper 2 10 1 1) 1 Scripted.three_answers = Ok s'
    /\ counter s'
       = wrap32 (counter Scripted.three_answers
                 + (total_length (prog s')
                    - total_length (prog Scripted.three_answers))).
Proof.
  assert (H : exists s' : state Scripted.E,
             train_loop 0 (Scripted.hyper 2 10 1 1) 1 Scripted.three_answers
             = Ok s')
    by (eexists; vm_compute; reflexivity).
  destruct H as [s' H]. exists s'. split; [ exact H | ].
  refine (proj1 (counter_follows_total_length Scripted.E 0
                   (Scripted.hyper 2 10 1 1) 1 Scripted.three_answers s' H _)).
  vm_compute. split; discriminate.
Defined.

(** ** The recurrent state at the start of an episode *)

Section RecurrentFacts.

Variable E : externals.
Variable rank : Z.
Variable a : args.

Lemma maybe_checkpoint_agent (s s1 : state E) :
  maybe_checkpoint rank a s = Ok s1 ->
  ag s1 = ag s /\ prog s1 = prog s /\ buf s1 = buf s /\ mon s1 = mon s.
Proof.
  intros H.
  destruct (maybe_checkpoint_frame E rank a s s1 H) as [evs [-> _]].
  repeat split.
Qed.

(** One state is listed for every step that the loop collects. *)
Lemma rollout_states_length (n : nat) :
  forall s s' : state E,
  rollout_loop rank a n s = Ok s' ->
  (length (rollout_states rank a n s) + length (rewards (buf s))
   = length (rewards (buf s')))%nat.
Proof.
  induction n as [ | n IH ]; intros s s' H; simpl in H; simpl.
  - injection H as <-. reflexivity.
  - unfold rollout_step in H.
    destruct (maybe_checkpoint rank a s) as [ s1 | e ] eqn:Hm;
      simpl in H; [ | discriminate ].
    destruct (maybe_checkpoint_agent s s1 Hm) as [_ [_ [Hb _]]].
    pose proof (env_interaction_buf E rank a s1) as Hbuf.
    pose proof (append_step_lengths E (buf s1) (interact s1)) as [_ [_ [L3 _]]].
    rewrite <- Hbuf, Hb in L3.
    destruct (done (ag (env_interaction rank a s1))).
    + injection H as <-. simpl. lia.
    + specialize (IH _ _ H). simpl. lia.
Qed.

Lemma rollout_states_start_from_zeros (n : nat) :
  forall s : state E,
  0 <= episode_length (prog s) ->
  starts_from_zeros s ->
  Forall starts_from_zeros (rollout_states rank a n s).
Proof.
  induction n as [ | n IH ]; intros s Hel Hz; simpl; [ constructor | ].
  destruct (maybe_checkpoint rank a s) as [ s1 | e ] eqn:Hm; [ | constructor ].
  destruct (maybe_checkpoint_agent s s1 Hm) as [Hag [Hprog _]].
  assert (Hz1 : starts_from_zeros s1).
  { unfold starts_from_zeros. rewrite Hag, Hprog. exact Hz. }
  constructor; [ exact Hz1 | ].
  destruct (done (ag (env_interaction rank a s1))) eqn:Hd; [ constructor | ].
  pose proof (env_interaction_prog E rank a s1) as Hp. cbv zeta in Hp.
  destruct Hp as [_ [_ [_ Hno]]].
  rewrite env_interaction_done in Hd.
  destruct (Hno Hd) as [_ [Hlen _]].
  apply IH.
  - rewrite Hlen, Hprog. lia.
  - intros Hzero. rewrite Hlen, Hprog in Hzero. lia.
Qed.

End RecurrentFacts.

(** X23. The recurrent state never crosses an episode boundary.  For a
    process in which [episode_length = 0] only when [done] is set (as at
    the start of [train]), every forward pass of an iteration that opens
    an episode runs on [hx = cx = zeros]; one forward pass is made per
    collected step; and the iteration leaves [episode_length] and [done]
    related in the same way, so that this holds for every later
    iteration. *)
Theorem recurrent_state_is_zero_at_episode_start
  (E : externals) (rank : Z) (a : args) (s s' : state E) :
  train_iteration rank a s = Ok s' ->
  0 <= episode_length (prog s) ->
  (episode_length (prog s) = 0 -> done (ag s) = true) ->
  let visited :=
    rollout_states rank a (Z.to_nat (num_steps a)) (begin_iteration s) in
  length visited = length (rewards (buf s'))
  /\ Forall starts_from_zeros visited
  /\ 0 <= episode_length (prog s')
  /\ (episode_length (prog s') = 0 -> done (ag s') = true).
Proof.
  intros H Hel Hdone visited.
  unfold train_iteration, rollout in H.
  apply bind_ok in H. destruct H as [s1 [Hr Hu]].
  destruct (update_frame E a s1 s' Hu)
    as [Uag [_ [_ [_ [_ [Uel [_ [Urew _]]]]]]]].
  assert (Hsteps : (0 < Z.to_nat (num_steps a))%nat).
  { destruct (Z.to_nat (num_steps a)) eqn:Hz; [ | lia ].
    simpl in Hr. injection Hr as <-.
    destruct (update_ok E a _ _ Hu) as [losses [_ [Hne _]]].
    exfalso. apply Hne. reflexivity. }
  split; [ | split ].
  - pose proof (rollout_states_length E rank a _ _ _ Hr) as Hlen.
    cbn [begin_iteration buf empty_buffers rewards length] in Hlen.
    unfold visited. rewrite Urew. lia.
  - apply rollout_states_start_from_zeros.
    + exact Hel.
    + intros Hzero. cbn [begin_iteration prog ag hx cx] in *.
      rewrite (Hdone Hzero). split; reflexivity.
  - destruct (rollout_loop_progress E rank a _ _ _ Hr Hel) as [P1 [_ [_ P4]]].
    rewrite Uag, Uel. split; [ exact P1 | ].
    destruct (P4 Hsteps) as [[Q1 _] | [_ [Q2 _]]]; [ intros _; exact Q1 | lia ].
Qed.

Lemma recurrent_state_is_zero_at_episode_start_witness :
  exists s' : state Scripted.E,
    train_iteration 0 (Scripted.hyper 2 10 1 1) Scripted.three_answers = Ok s'
    /\ Forall starts_from_zeros
         (rollout_states 0 (Scripted.hyper 2 10 1 1) 2
            (begin_iteration Scripted.three_answers)).
Proof.
  assert (H : exists s' : state Scripted.E,
             train_iteration 0 (Scripted.hyper 2 10 1 1)
               Scripted.three_answers = Ok s')
    by (eexists; vm_compute; reflexivity).
  destruct H as [s' H]. exists s'. split; [ exact H | ].
  refine (proj1 (proj2 (recurrent_state_is_zero_at_episode_start Scripted.E 0
                          (Scripted.hyper 2 10 1 1) Scripted.three_answers s'
                          H _ _))).
  - vm_compute. discriminate.
  - intros _. reflexivity.
Defined.

(** [train] starts with the monitoring variables of [fresh_monitor], with
    [done] set and with [episode_length = 0]. *)
Lemma init_state_is_fresh (E : externals) (a : args) (w : world E)
  (shared : params E) (opt : opt_state E) (t : store E)
  (model_grads0 shared_grads0 : list (option (grad E))) (counter0 : Z) :
  let s := init_state a w shared opt t model_grads0 shared_grads0 counter0 in
  mon s = fresh_monitor /\ done (ag s) = true
  /\ episode_length (prog s) = 0 /\ trace s = []
  /\ p_losses (lrn s) = [] /\ v_losses (lrn s) = [].
Proof.
  unfold init_state.
  destruct (env_reset E w) as [w1 st].
  destruct (unpack_state E st) as [img ins].
  repeat split.
Qed.

(** ** The length of an episode *)

Section EpisodeFacts.

Variable E : externals.
Variable rank : Z.
Variable a : args.

Lemma rollout_states_within_episode (n : nat) :
  forall s : state E,
  within_episode a s ->
  Forall (fun st =>
            within_episode a st
            /\ (episode_length (prog st) + 1 = Z.max 1 (max_episode_length a) ->
                done (ag (env_interaction rank a st)) = true
                /\ episode_length (prog (env_interaction rank a st)) = 0))
    (rollout_states rank a n s).
Proof.
  induction n as [ | n IH ]; intros s Hw; simpl; [ constructor | ].
  destruct (maybe_checkpoint rank a s) as [ s1 | e ] eqn:Hm; [ | constructor ].
  destruct (maybe_checkpoint_agent E rank a s s1 Hm) as [_ [Hprog _]].
  assert (Hw1 : within_episode a s1).
  { unfold within_episode. rewrite Hprog. exact Hw. }
  pose proof (env_interaction_prog E rank a s1) as Hp. cbv zeta in Hp.
  destruct Hp as [_ [_ [Hyes Hno]]].
  pose proof (env_interaction_done E rank a s1) as Hd.
  constructor.
  - split; [ exact Hw1 | ].
    intros Hlast.
    assert (Hda : done_after a s1 = true).
    { unfold done_after.
      rewrite (proj2 (Z.leb_le (max_episode_length a)
                        (episode_length (prog s1) + 1))) by lia.
      apply orb_true_r. }
    split; [ rewrite Hd; exact Hda | apply (Hyes Hda) ].
  - destruct (done (ag (env_interaction rank a s1))) eqn:Hdone; [ constructor | ].
    destruct (Hno (eq_sym Hd)) as [_ [Hlen Hmax]].
    apply IH. unfold within_episode in *. rewrite Hlen. lia.
Qed.

Lemma rollout_loop_within_episode (n : nat) (s s' : state E) :
  rollout_loop rank a n s = Ok s' ->
  within_episode a s -> within_episode a s'.
Proof.
  intros H Hw. destruct n as [ | n ].
  - simpl in H. injection H as <-. exact Hw.
  - destruct (rollout_loop_progress E rank a _ _ _ H (proj1 Hw))
      as [_ [_ [_ P4]]].
    unfold within_episode.
    destruct (P4 ltac:(lia)) as [[_ [Q _]] | [_ [Q _]]]; lia.
Qed.

Lemma train_loop_within_episode (n : nat) :
  forall s s' : state E,
  train_loop rank a n s = Ok s' ->
  within_episode a s -> within_episode a s'.
Proof.
  induction n as [ | n IH ]; intros s s' H Hw; simpl in H.
  - injection H as <-. exact Hw.
  - apply bind_ok in H. destruct H as [s1 [H1 H2]].
    apply (IH s1 s' H2).
    unfold train_iteration, rollout in H1.
    apply bind_ok in H1. destruct H1 as [s0 [Hr Hu]].
    pose proof (rollout_loop_within_episode _ _ _ Hr Hw) as Hw0.
    destruct (update_frame E a s0 s1 Hu) as [_ [_ [_ [_ [_ [Uel _]]]]]].
    unfold within_episode in *. rewrite Uel. exact Hw0.
Qed.

End EpisodeFacts.

(** X9. An episode has at most [max(1, max_episode_length)] steps: one
    step when [max_episode_length] is 0 or negative, since the length is
    tested after the step.  [train] starts with [episode_length] in
    [0 .. max(1, max_episode_length) - 1]; from such a state, after any
    number of iterations [episode_length] is in that range again, and so it
    is at every pass through the body of the rollout loop of the next
    iteration: the step taken there is at most the
    [max(1, max_episode_length)]-th of its episode, and the step that is
    the [max(1, max_episode_length)]-th sets [done] and resets
    [episode_length] to 0. *)
Theorem episode_has_at_most_max_episode_length_steps
  (E : externals) (rank : Z) (a : args) :
  (forall (w : world E) (shared : params E) (opt : opt_state E) (t : store E)
          (model_grads0 shared_grads0 : list (option (grad E))) (counter0 : Z),
     within_episode a
       (init_state a w shared opt t model_grads0 shared_grads0 counter0))
  /\ (forall (n : nat) (s s' : state E),
        train_loop rank a n s = Ok s' ->
        within_episode a s ->
        within_episode a s'
        /\ Forall (fun st =>
                     within_episode a st
                     /\ (episode_length (prog st) + 1
                         = Z.max 1 (max_episode_length a) ->
                         done (ag (env_interaction rank a st)) = true
                         /\ episode_length (prog (env_interaction rank a st))
                            = 0))
             (rollout_states rank a (Z.to_nat (num_steps a))
                (begin_iteration s'))).
Proof.
  split.
  - intros w shared opt t mg sg c0.
    destruct (init_state_is_fresh E a w shared opt t mg sg c0)
      as [_ [_ [Hel _]]].
    unfold within_episode. rewrite Hel. lia.
  - intros n s s' H Hw.
    pose proof (train_loop_within_episode E rank a n s s' H Hw) as Hw'.
    split; [ exact Hw' | ].
    apply rollout_states_within_episode. exact Hw'.
Qed.

Lemma episode_has_at_most_max_episode_length_steps_witness :
  exists s' : state Scripted.E,
    train_loop 0 (Scripted.hyper 2 10 1 1) 1 Scripted.three_answers = Ok s'
    /\ within_episode (Scripted.hyper 2 10 1 1) Scripted.three_answers
    /\ within_episode (Scripted.hyper 2 10 1 1) s'.
Proof.
  assert (H : exists s' : state Scripted.E,
             train_loop 0 (Scripted.hyper 2 10 1 1) 1
               Scripted.three_answers = Ok s')
    by (eexists; vm_compute; reflexivity).
  destruct H as [s' H]. exists s'. split; [ exact H | ].
  assert (Hw : within_episode (Scripted.hyper 2 10 1 1) Scripted.three_answers).
  { unfold within_episode. vm_compute. split; [ discriminate | reflexivity ]. }
  split; [ exact Hw | ].
  exact (proj1 (proj2 (episode_has_at_most_max_episode_length_steps
                         Scripted.E 0 (Scripted.hyper 2 10 1 1))
                  1%nat Scripted.three_answers s' H Hw)).
Defined.

(** ** The checkpoints of the loop *)

Lemma range_nil (lo : Z) : range lo lo = [].
Proof. unfold range. rewrite Z.sub_diag. reflexivity. Qed.

Lemma range_cons (lo hi : Z) :
  lo < hi -> range lo hi = lo :: range (lo + 1) hi.
Proof.
  intros H. unfold range.
  replace (Z.to_nat (hi - lo)) with (S (Z.to_nat (hi - (lo + 1)))) by lia.
  cbn [seq map]. f_equal; [ lia | ].
  rewrite <- seq_shift, map_map. apply map_ext. intros i. lia.
Qed.

Lemma range_app (n : nat) :
  forall lo mid hi : Z,
  Z.to_nat (mid - lo) = n -> lo <= mid <= hi ->
  range lo hi = range lo mid ++ range mid hi.
Proof.
  induction n as [ | n IH ]; intros lo mid hi Hn Hle.
  - assert (mid = lo) by lia. subst mid. rewrite range_nil. reflexivity.
  - rewrite (range_cons lo hi) by lia. rewrite (range_cons lo mid) by lia.
    simpl. f_equal. apply IH; lia.
Qed.

Lemma cadenceb_on_cadence (rank : Z) (a : args) (tl : Z) :
  cadenceb rank a tl = true <-> on_cadence rank a tl.
Proof.
  unfold cadenceb, on_cadence.
  rewrite !andb_true_iff, !Z.eqb_eq, Z.ltb_lt. tauto.
Qed.

Lemma saved_checkpoints_app (E : externals) (l1 l2 : list (event E)) :
  saved_checkpoints (l1 ++ l2) = saved_checkpoints l1 ++ saved_checkpoints l2.
Proof. unfold saved_checkpoints. apply flat_map_app. Qed.

Lemma saved_checkpoints_quiet (E : externals) (l : list (event E)) :
  Forall (fun e : event E => is_checkpoint_event e = false) l ->
  saved_checkpoints l = [].
Proof.
  induction 1 as [ | e l He _ IH ]; [ reflexivity | ].
  unfold saved_checkpoints in *. simpl. rewrite IH.
  destruct e; simpl in *; try reflexivity. discriminate.
Qed.

Section LoopCheckpoints.

Variable E : externals.
Variable rank : Z.
Variable a : args.

Lemma maybe_checkpoint_cadence (s s1 : state E) :
  maybe_checkpoint rank a s = Ok s1 -> s1 = log_events s (written rank a s).
Proof.
  intros H. unfold written.
  destruct (maybe_checkpoint_frame E rank a s s1 H)
    as [evs [-> [_ [[Hdue ->] | [Hdue ->]]]]].
  - destruct (cadenceb rank a (total_length (prog s))) eqn:Hc; [ | reflexivity ].
    exfalso. apply cadenceb_on_cadence in Hc.
    exact (checkpoint_due_false rank a _ Hdue Hc).
  - apply (checkpoint_due_true rank a) in Hdue. destruct Hdue as [Hon _].
    apply cadenceb_on_cadence in Hon. rewrite Hon. reflexivity.
Qed.

Lemma written_saved_lengths (s : state E) :
  saved_lengths (written rank a s)
  = filter (cadenceb rank a) [total_length (prog s)].
Proof.
  unfold written. simpl.
  destruct (cadenceb rank a (total_length (prog s)));
    [ apply saved_lengths_save_checkpoint | reflexivity ].
Qed.

Lemma written_saved_checkpoints (s : state E) :
  saved_checkpoints (written rank a s)
  = map (fun st => (total_length (prog st), checkpoint_dict st))
      (filter (fun st => cadenceb rank a (total_length (prog st)))
         [log_events s (written rank a s)]).
Proof.
  unfold written. cbn [filter log_events prog].
  destruct (cadenceb rank a (total_length (prog s))); [ | reflexivity ].
  destruct (best_so_far (mon s)); reflexivity.
Qed.

Lemma rollout_step_checkpoint (s s' : state E) :
  rollout_step rank a s = Ok s' ->
  maybe_checkpoint rank a s = Ok (log_events s (written rank a s))
  /\ s' = env_interaction rank a (log_events s (written rank a s))
  /\ exists rest,
       trace s' = trace s ++ written rank a s
                  ++ EnvStep (o_action (interact s)) :: CounterIncrement :: rest
       /\ Forall (fun e : event E => is_checkpoint_event e = false) rest.
Proof.
  intros H. unfold rollout_step in H.
  apply bind_ok in H. destruct H as [s1 [H1 H2]]. injection H2 as <-.
  pose proof (maybe_checkpoint_cadence s s1 H1) as Hs1. subst s1.
  split; [ exact H1 | ]. split; [ reflexivity | ].
  destruct (env_interaction_trace E rank a (log_events s (written rank a s)))
    as [rest [Htr Hq]].
  exists rest. split.
  - rewrite Htr. cbn [log_events trace]. rewrite <- app_assoc. reflexivity.
  - eapply Forall_impl; [ | exact Hq ]. intros e [_ [_ He]]. exact He.
Qed.

Lemma rollout_loop_checkpoints (n : nat) :
  forall s s' : state E,
  rollout_loop rank a n s = Ok s' ->
  total_length (prog s) <= total_length (prog s')
  /\ exists evs,
       trace s' = trace s ++ evs
       /\ saved_lengths evs
          = filter (cadenceb rank a)
              (range (total_length (prog s)) (total_length (prog s')))
       /\ saved_checkpoints evs
          = map (fun st => (total_length (prog st), checkpoint_dict st))
              (filter (fun st => cadenceb rank a (total_length (prog st)))
                 (rollout_states rank a n s)).
Proof.
  induction n as [ | n IH ]; intros s s' H; simpl in H.
  - injection H as <-. split; [ lia | ]. exists [].
    rewrite app_nil_r, range_nil. repeat split.
  - apply bind_ok in H. destruct H as [s1 [H1 H2]].
    destruct (rollout_step_checkpoint s s1 H1) as [Hm [Hs1 [rest [Htr Hq]]]].
    pose proof (env_interaction_prog E rank a
                  (log_events s (written rank a s))) as Hp.
    cbv zeta in Hp. destruct Hp as [Htl _].
    rewrite <- Hs1 in Htl. cbn [log_events prog] in Htl.
    assert (Hl1 : saved_lengths
                    (written rank a s ++ EnvStep (o_action (interact s))
                                  :: CounterIncrement :: rest)
                  = filter (cadenceb rank a) [total_length (prog s)]).
    { rewrite saved_lengths_app, written_saved_lengths.
      change (saved_lengths (EnvStep (o_action (interact s))
                             :: CounterIncrement :: rest))
        with (saved_lengths rest).
      rewrite (saved_lengths_quiet E rest Hq). apply app_nil_r. }
    assert (Hc1 : saved_checkpoints
                    (written rank a s ++ EnvStep (o_action (interact s))
                                  :: CounterIncrement :: rest)
                  = map (fun st => (total_length (prog st), checkpoint_dict st))
                      (filter (fun st => cadenceb rank a (total_length (prog st)))
                         [log_events s (written rank a s)])).
    { rewrite saved_checkpoints_app, written_saved_checkpoints.
      change (saved_checkpoints (EnvStep (o_action (interact s))
                                 :: CounterIncrement :: rest))
        with (saved_checkpoints rest).
      rewrite (saved_checkpoints_quiet E rest Hq). apply app_nil_r. }
    cbn [rollout_states]. rewrite Hm, <- Hs1.
    destruct (done (ag s1)) eqn:Hdone.
    + injection H2 as <-. split; [ lia | ].
      eexists. split; [ exact Htr | ]. split.
      * rewrite Hl1, Htl, (range_cons (total_length (prog s))) by lia.
        rewrite range_nil. reflexivity.
      * exact Hc1.
    + destruct (IH s1 s' H2) as [Hle [evs [Htr' [Hl' Hc']]]].
      split; [ lia | ].
      eexists. split; [ rewrite Htr', Htr, <- app_assoc; reflexivity | ].
      split.
      * rewrite saved_lengths_app, Hl1, Hl', Htl.
        rewrite (range_cons (total_length (prog s))) by lia.
        rewrite <- filter_app. reflexivity.
      * rewrite saved_checkpoints_app, Hc1, Hc'.
        change (log_events s (written rank a s)
                :: rollout_states rank a n s1)
          with ([log_events s (written rank a s)]
                ++ rollout_states rank a n s1).
        rewrite filter_app, map_app. reflexivity.
Qed.

Lemma train_iteration_checkpoints (s s' : state E) :
  train_iteration rank a s = Ok s' ->
  total_length (prog s) <= total_length (prog s')
  /\ exists evs,
       trace s' = trace s ++ evs
       /\ saved_lengths evs
          = filter (cadenceb rank a)
              (range (total_length (prog s)) (total_length (prog s'))).
Proof.
  intros H. unfold train_iteration, rollout in H.
  apply bind_ok in H. destruct H as [s1 [Hr Hu]].
  destruct (rollout_loop_checkpoints _ _ _ Hr) as [Hle [evs [Htr [Hsl _]]]].
  cbn [begin_iteration prog trace] in Hle, Htr, Hsl.
  destruct (update_inv E a s1 s' Hu) as [losses [_ [_ Hup]]].
  cbv zeta in Hup. destruct Hup as [Htr' _].
  destruct (update_frame E a s1 s' Hu) as [_ [_ [_ [Htl _]]]].
  rewrite Htl. split; [ exact Hle | ].
  eexists. split; [ rewrite Htr', Htr, <- app_assoc; reflexivity | ].
  rewrite saved_lengths_app, Hsl. apply app_nil_r.
Qed.

Lemma train_loop_checkpoints (n : nat) :
  forall s s' : state E,
  train_loop rank a n s = Ok s' ->
  total_length (prog s) <= total_length (prog s')
  /\ exists evs,
       trace s' = trace s ++ evs
       /\ saved_lengths evs
          = filter (cadenceb rank a)
              (range (total_length (prog s)) (total_length (prog s'))).
Proof.
  induction n as [ | n IH ]; intros s s' H; simpl in H.
  - injection H as <-. split; [ lia | ]. exists [].
    rewrite app_nil_r, range_nil. split; reflexivity.
  - apply bind_ok in H. destruct H as [s1 [H1 H2]].
    destruct (train_iteration_checkpoints s s1 H1) as [Hle1 [evs1 [Htr1 Hsl1]]].
    destruct (IH s1 s' H2) as [Hle2 [evs2 [Htr2 Hsl2]]].
    split; [ lia | ].
    exists (evs1 ++ evs2). split; [ rewrite Htr2, Htr1, app_assoc; reflexivity | ].
    rewrite saved_lengths_app, Hsl1, Hsl2, <- filter_app.
    f_equal. symmetry.
    apply (range_app _ _ (total_length (prog s1)) _ eq_refl). lia.
Qed.

End LoopCheckpoints.

(** C5. The checkpoint test of a step writes a checkpoint exactly when
    the process has rank 0, [total_length] is positive and
    [checkpoint_freq // num_processes] divides it; the record holds
    [total_length], [episode_number], the value of the counter, the state
    of the model and the state of the optimizer, as they are at the test.
    A process of another rank writes none.  The loop runs this test at
    every step it takes: a pass through its body first writes that
    checkpoint, with those fields, if the three conditions hold and nothing
    otherwise, and then steps the environment; the checkpoints written by a
    rollout are those of the states its body ran in that were on the
    cadence; and the files written by any number of iterations are named
    after exactly the values of [total_length] passed through that were on
    the cadence, every one of them written by rank 0. *)
Theorem checkpoints_written_by_rank0_on_cadence
  (E : externals) (rank : Z) (a : args) (s : state E) :
  (forall s1 : state E,
     maybe_checkpoint rank a s = Ok s1 ->
     let tl := total_length (prog s) in
     (on_cadence rank a tl ->
      exists (c : checkpoint E) (is_best : bool),
        trace s1 = trace s ++ TorchSave tl c
                               :: (if is_best then [CopyToModelBest tl] else [])
        /\ ck_total_length c = total_length (prog s)
        /\ ck_episode_number c = episode_number (prog s)
        /\ ck_counter c = counter s
        /\ ck_state_dict c = model_params (lrn s)
        /\ ck_optimizer c = optimizer (lrn s))
     /\ (~ on_cadence rank a tl -> s1 = s))
  /\ (rank <> 0 -> maybe_checkpoint rank a s = Ok s)
  /\ (forall (n : nat) (s' : state E),
        train_loop rank a n s = Ok s' ->
        exists evs,
          trace s' = trace s ++ evs
          /\ Forall (checkpoint_event_ok rank a) evs
          /\ (rank <> 0 -> filter is_checkpoint_event evs = [])
          /\ saved_lengths evs
             = filter (cadenceb rank a)
                 (range (total_length (prog s)) (total_length (prog s'))))
  /\ (forall tl : Z, cadenceb rank a tl = true <-> on_cadence rank a tl)
  /\ (forall s' : state E,
        rollout_step rank a s = Ok s' ->
        let tl := total_length (prog s) in
        exists rest,
          trace s'
          = trace s
            ++ (if cadenceb rank a tl
                then TorchSave tl (checkpoint_dict s)
                     :: (if best_so_far (mon s)
                         then [CopyToModelBest tl] else [])
                else [])
            ++ EnvStep (o_action (interact s)) :: CounterIncrement :: rest
          /\ Forall (fun e : event E => is_checkpoint_event e = false) rest)
  /\ (forall (n : nat) (s' : state E),
        rollout_loop rank a n s = Ok s' ->
        exists evs,
          trace s' = trace s ++ evs
          /\ saved_checkpoints evs
             = map (fun st => (total_length (prog st), checkpoint_dict st))
                 (filter (fun st => cadenceb rank a (total_length (prog st)))
                    (rollout_states rank a n s))).
Proof.
  split; [ | split; [ | split; [ | split; [ | split ] ] ] ].
  - intros s1 H tl.
    destruct (maybe_checkpoint_frame E rank a s s1 H)
      as [evs [-> [_ [[Hdue ->] | [Hdue ->]]]]].
    + split.
      * intros Hon. exfalso. exact (checkpoint_due_false rank a _ Hdue Hon).
      * intros _. apply log_events_nil.
    + split.
      * intros _. exists (checkpoint_dict s), (best_so_far (mon s)).
        repeat split.
      * intros Hoff. exfalso. apply Hoff.
        apply (checkpoint_due_true rank a _ Hdue).
  - intros Hr. unfold maybe_checkpoint, checkpoint_due.
    rewrite (proj2 (Z.eqb_neq rank 0) Hr). reflexivity.
  - intros n s' H.
    destruct (train_loop_trace E rank a n s s' H) as [evs [Htr [Hok _]]].
    destruct (train_loop_checkpoints E rank a n s s' H)
      as [_ [evs' [Htr' Hsl]]].
    assert (evs' = evs).
    { apply (app_inv_head (trace s)). rewrite <- Htr, <- Htr'. reflexivity. }
    subst evs'.
    exists evs. split; [ exact Htr | ]. split; [ exact Hok | ].
    split; [ | exact Hsl ].
    intros Hr. apply filter_all_false.
    eapply Forall_impl; [ | exact Hok ].
    intros e He. destruct e; simpl in *; try reflexivity;
      exfalso; apply Hr; [ apply (proj1 He) | apply He ].
  - intros tl. apply cadenceb_on_cadence.
  - intros s' H tl.
    destruct (rollout_step_checkpoint E rank a s s' H)
      as [_ [_ [rest [Htr Hq]]]].
    exists rest. split; [ exact Htr | exact Hq ].
  - intros n s' H.
    destruct (rollout_loop_checkpoints E rank a n s s' H)
      as [_ [evs [Htr [_ Hc]]]].
    exists evs. split; [ exact Htr | exact Hc ].
Qed.

Lemma checkpoints_written_by_rank0_on_cadence_witness :
  exists s1 : state Scripted.E,
    maybe_checkpoint 0 Scripted.resumed_args Scripted.resumed = Ok s1
    /\ on_cadence 0 Scripted.resumed_args 4
    /\ exists (c : checkpoint Scripted.E) (is_best : bool),
         trace s1 = trace Scripted.resumed
                    ++ TorchSave 4 c
                       :: (if is_best then [CopyToModelBest 4] else [])
         /\ ck_total_length c = 4
         /\ ck_episode_number c = 3
         /\ ck_counter c = 7
         /\ ck_state_dict c = model_params (lrn Scripted.resumed)
         /\ ck_optimizer c = optimizer (lrn Scripted.resumed).
Proof.
  eexists. split; [ vm_compute; reflexivity | ].
  assert (Hon : on_cadence 0 Scripted.resumed_args 4).
  { unfold on_cadence. repeat split. }
  split; [ exact Hon | ].
  refine (proj1 (proj1 (checkpoints_written_by_rank0_on_cadence Scripted.E 0
                          Scripted.resumed_args Scripted.resumed) _ _) Hon).
  vm_compute. reflexivity.
Defined.
